(** * ANDES model core: device container, symbolic processor, sparse
      pattern storage, initialisation and the power-flow entry points

    Shallow embedding of [andes/core/model.py] and
    [andes/routines/powerflow.py].

    Conventions of the embedding:
    - Python floats (and NumPy float arrays) are rationals [Q] (lists of
      [Q]); no property below depends on rounding.
    - An [OrderedDict] is an association list in insertion order
      ([odict]); a plain [dict] keyed by device idx is a [gmap]; a
      [defaultdict(list)] is a [gmap] read with default [[]].
    - A Python exception is the [Raise] case of [result].
    - Equation strings are represented by the expression tree that SymPy's
      parser returns for them ([expr]). *)

From Stdlib Require Import ZArith QArith Qabs Ascii String List Bool Lia.
From stdpp Require Import base option gmap strings list fin_maps.
Local Close Scope Q_scope.

(** ** Symbolic expressions *)

Inductive expr : Type :=
| ENum (q : Q)
| ESym (name : string)
| EAdd (a b : expr)
| EMul (a b : expr)
| EPow (a b : expr)
| EFun (f : string) (a : expr).

(** [expr.free_symbols], in order of occurrence. *)
Fixpoint free_symbols (e : expr) : list string :=
  match e with
  | ENum _ => []
  | ESym s => [s]
  | EAdd a b | EMul a b | EPow a b => free_symbols a ++ free_symbols b
  | EFun _ a => free_symbols a
  end.

(** ** Exceptions and fallible computations *)

Inductive errmsg : Type :=
| UnknownSymbol (class_name : string) (e : expr) (item : string)
| NonMatchingIdx (class_name : string)
| InvalidSparseLib (lib : string)
| ShapeMismatch
| NotInList (x : string)
| EmptySequence.

Inductive exn : Type :=
| KeyError
| IndexError
| TypeError
| NotImplementedError
| AttributeError
| ZeroDivisionError
| ValueError (m : errmsg)
| AssertionError (m : errmsg).

Inductive result (A : Type) : Type :=
| Ok (a : A)
| Raise (e : exn).
Arguments Ok {A} a.
Arguments Raise {A} e.

Definition bind {A B} (r : result A) (k : A -> result B) : result B :=
  match r with
  | Ok a => k a
  | Raise e => Raise e
  end.

Notation "'let*' x ':=' r 'in' k" := (bind r (fun x => k))
  (at level 10, x name, r at level 200, k at level 200).

Definition of_option {A} (e : exn) (o : option A) : result A :=
  match o with
  | Some a => Ok a
  | None => Raise e
  end.

Fixpoint mapR {A B} (f : A -> result B) (l : list A) : result (list B) :=
  match l with
  | [] => Ok []
  | x :: l' => let* y := f x in let* ys := mapR f l' in Ok (y :: ys)
  end.

(** ** Ordered dictionaries *)

Abbreviation odict V := (list (string * V)) (only parsing).

Fixpoint od_get {V} (k : string) (d : odict V) : option V :=
  match d with
  | [] => None
  | (k', v) :: d' => if String.eqb k k' then Some v else od_get k d'
  end.

(** [d[k] = v]: an existing key keeps its position, a new key goes last. *)
Fixpoint od_set {V} (k : string) (v : V) (d : odict V) : odict V :=
  match d with
  | [] => [(k, v)]
  | (k', v') :: d' =>
      if String.eqb k k' then (k', v) :: d' else (k', v') :: od_set k v d'
  end.

Definition od_keys {V} (d : odict V) : list string := map fst d.
Definition od_values {V} (d : odict V) : list V := map snd d.

(** ** Python values held by parameters *)

(** A device idx is a number or a string. *)
Inductive idx_t : Type :=
| IdxInt (z : Z)
| IdxStr (s : string).

#[global] Instance idx_t_eq_dec : EqDecision idx_t.
Proof. solve_decision. Defined.

#[global] Instance idx_t_countable : Countable idx_t.
Proof.
  refine (inj_countable'
            (fun i => match i with IdxInt z => inl z | IdxStr s => inr s end)
            (fun x => match x with inl z => IdxInt z | inr s => IdxStr s end) _).
  intros []; reflexivity.
Defined.

Inductive pyval : Type :=
| PNone
| PIdx (i : idx_t)      (* an int or a str *)
| PFloat (q : Q).

(** ** Parameters *)

Record NumParam : Type := mkNumParam {
  np_default : Q;
  np_vin : list Q;        (* raw input values, one per device *)
  np_v : list Q;          (* working (converted) values *)
  np_pu_coeff : list Q    (* per-unit conversion coefficients *)
}.

Inductive Param : Type :=
| DataP (v : list pyval)          (* DataParam, IdxParam *)
| NumP (p : NumParam).            (* NumParam and its subclasses *)

Definition to_float (default : Q) (x : pyval) : result Q :=
  match x with
  | PNone => Ok default
  | PFloat q => Ok q
  | PIdx (IdxInt z) => Ok (inject_Z z)
  | PIdx (IdxStr _) => Raise TypeError
  end.

(** Modelled from the spec: the parameter classes of [andes.core.param]
    are not part of the sources. A parameter "has a name, a per-device raw
    input value and (after unit conversion) a working value"; [add] stores
    the value of one more device at the end of its arrays (the default
    when a numeric parameter receives no value, coefficient one until a
    conversion takes place). *)
Definition param_add (value : pyval) (p : Param) : result Param :=
  match p with
  | DataP v => Ok (DataP (v ++ [value]))
  | NumP np =>
      let* q := to_float (np_default np) value in
      Ok (NumP (mkNumParam (np_default np) (np_vin np ++ [q])
                           (np_v np ++ [q]) (np_pu_coeff np ++ [1%Q])))
  end.

(** The attribute [v] of a parameter, as Python values. *)
Definition param_v (p : Param) : list pyval :=
  match p with
  | DataP v => v
  | NumP np => map PFloat (np_v np)
  end.

(** ** ModelData: the device container *)

Record ModelData : Type := mkModelData {
  n : nat;                       (* self.n *)
  uid : gmap idx_t nat;          (* self.uid *)
  params : odict Param           (* self.params *)
}.

(** [ModelData.__init__]: the three parameters every model has. *)
Definition ModelData_init : ModelData :=
  mkModelData 0 ∅
    [("idx", DataP []);
     ("u", NumP (mkNumParam 1%Q [] [] []));
     ("name", DataP [])].


(** The loop of [add] over [self.params.items()]:
    [value = kwargs.pop(name, None); instance.add(value)]. *)
Fixpoint add_params (kwargs : gmap string pyval) (ps : odict Param)
  : result (odict Param) :=
  match ps with
  | [] => Ok []
  | (name, instance) :: ps' =>
      let* instance' := param_add (default PNone (kwargs !! name)) instance in
      let* rest := add_params kwargs ps' in
      Ok ((name, instance') :: rest)
  end.

(** [ModelData.add] with its keyword arguments. The idx of a device is
    an int or a string (what [System.add] passes on; a float idx is left
    out); the warning about unused data is not modelled. *)
Definition add (kwargs : gmap string pyval) (md : ModelData) : result ModelData :=
  match kwargs !! "idx" with
  | None => Raise KeyError
  | Some (PIdx idx) =>
      let uid' := <[idx := n md]> (uid md) in
      let n' := S (n md) in
      let kwargs' :=
        match kwargs !! "name" with
        | None | Some PNone => <["name" := PIdx idx]> kwargs
        | Some _ => kwargs
        end in
      let* ps := add_params kwargs' (params md) in
      Ok (mkModelData n' uid' ps)
  | Some _ => Raise TypeError
  end.

(** Adding devices one at a time. *)
Fixpoint add_all (devs : list (gmap string pyval)) (md : ModelData)
  : result ModelData :=
  match devs with
  | [] => Ok md
  | kw :: devs' => let* md' := add kw md in add_all devs' md'
  end.

(** ** Values, callables and the objects a model declares *)

(** What a compiled callable returns and what an input entry holds: a
    Python scalar or a NumPy array. *)
Inductive value : Type :=
| Scalar (x : Q)
| Array (l : list Q).

(** A callable produced by [lambdify] (or written by hand), called with the
    ordered dictionary of inputs. *)
Definition pyfun : Type := odict value -> result value.

(** An entry of [s_lambdify] or [init_lambdify]: callable or constant. *)
Inductive lam_entry : Type :=
| LFun (f : pyfun)
| LConst (c : value).

(** A value of a Jacobian triplet of [ModelCall]: number or callable. *)
Inductive jval : Type :=
| JNum (q : Q)
| JFun (f : pyfun).

Inductive VarKind : Type := State | ExtState | Algeb | ExtAlgeb.

#[global] Instance VarKind_eq_dec : EqDecision VarKind.
Proof. solve_decision. Defined.

Record Var : Type := mkVar {
  kind : VarKind;
  v_str : option expr;      (* initializer *)
  v_iter : option expr;     (* implicit initializer, solved iteratively *)
  e_str : option expr;      (* equation residual *)
  diag_eps : Q;
  var_v : list Q;           (* self.v *)
  var_a : list nat          (* self.a, the addresses *)
}.

(** Modelled from the spec: the class attributes [e_code] and [v_code] of
    the variable classes ([andes.core.var], not part of the sources):
    "classify it into one of four Jacobian blocks by equation kind
    (differential/algebraic) x variable kind (state/algebraic)". *)
Definition e_code (k : VarKind) : string :=
  match k with
  | State | ExtState => "f"
  | Algeb | ExtAlgeb => "g"
  end.

Definition v_code (k : VarKind) : string :=
  match k with
  | State | ExtState => "x"
  | Algeb | ExtAlgeb => "y"
  end.

Record Service : Type := mkService {
  s_v_str : option expr;
  s_v : value;
  s_v_numeric : option pyfun
}.

(** Modelled from the spec: a time-constant service "additionally supports
    an inverse transform applied once after primary resolution"; the class
    is not part of the sources, its transform is a field. *)
Record TimeConstant : Type := mkTimeConstant {
  tc_v : value;
  tc_inverse : value -> value
}.

(** A discrete component exports flag names and flag values. *)
Record Discrete : Type := mkDiscrete {
  d_names : list string;     (* get_names() *)
  d_values : list value      (* get_values() *)
}.

(** ** Jacobian triplet stores *)

(** Modelled from the spec: the constants [jac_names], [jac_types] and
    [jac_full_names] of [andes.shared] (not part of the sources): "four
    index-value-triplet lists (one per Jacobian block)", each with a
    constant ([c]) and a variable part, enumerated as in [clear_ijv]. *)
Definition jac_names : list string := ["fx"; "fy"; "gx"; "gy"].
Definition jac_types : list string := ["c"; EmptyString].
Definition jac_full_names : list string :=
  flat_map (fun jname => map (fun jtype => jname +:+ jtype) jac_types) jac_names.

(** Reading a [defaultdict(list)]. *)
Definition dd_get {A} (d : gmap string (list A)) (k : string) : list A :=
  default [] (d !! k).

Definition dd_append {A} (d : gmap string (list A)) (k : string) (x : A)
  : gmap string (list A) :=
  <[k := dd_get d k ++ [x]]> d.

(** Modelled from the spec: the class [JacTriplet] of [andes.core.triplet]
    (not part of the sources), the store that "accumulates (global row,
    global col, numeric value) entries ... for one named Jacobian block".
    Each entry is one array per triplet, one component per device. *)
Record JacTriplet : Type := mkJacTriplet {
  t_ijac : gmap string (list (list nat));
  t_jjac : gmap string (list (list nat));
  t_vjac : gmap string (list (list Q))
}.

Definition JacTriplet_clear_ijv (t : JacTriplet) : JacTriplet :=
  fold_right (fun k t' =>
      mkJacTriplet (<[k := []]> (t_ijac t')) (<[k := []]> (t_jjac t'))
                   (<[k := []]> (t_vjac t')))
    t jac_full_names.

Definition JacTriplet_append_ijv (j_full_name : string) (ii jj : list nat)
    (vv : list Q) (t : JacTriplet) : JacTriplet :=
  mkJacTriplet (dd_append (t_ijac t) j_full_name ii)
               (dd_append (t_jjac t) j_full_name jj)
               (dd_append (t_vjac t) j_full_name vv).

Definition JacTriplet_merge (t other : JacTriplet) : JacTriplet :=
  fold_right (fun k t' =>
      mkJacTriplet (<[k := dd_get (t_ijac t') k ++ dd_get (t_ijac other) k]> (t_ijac t'))
                   (<[k := dd_get (t_jjac t') k ++ dd_get (t_jjac other) k]> (t_jjac t'))
                   (<[k := dd_get (t_vjac t') k ++ dd_get (t_vjac other) k]> (t_vjac t')))
    t jac_full_names.

(** A sub-block of a model. Modelled from the spec: the class [Block] is
    not part of the sources; [blk_triplets] are the "block-level
    (sub-component) triplets" the block holds once its [j_numeric] ran. *)
Record Block : Type := mkBlock {
  blk_j_num : bool;
  blk_triplets : JacTriplet
}.

(** ** ModelCall *)

Record ModelCall : Type := mkModelCall {
  f_lambdify : odict pyfun;
  g_lambdify : odict pyfun;
  init_lambdify : odict lam_entry;
  s_lambdify : option (odict lam_entry);
  init_std : list (list Q) -> list value -> result (list Q);
  ijac : gmap string (list nat);
  jjac : gmap string (list nat);
  vjac : gmap string (list jval)
}.

(** [ModelCall.clear_ijv]. *)
Definition clear_ijv (c : ModelCall) : ModelCall :=
  fold_right (fun k c' =>
      mkModelCall (f_lambdify c') (g_lambdify c') (init_lambdify c')
        (s_lambdify c') (init_std c')
        (<[k := []]> (ijac c')) (<[k := []]> (jjac c')) (<[k := []]> (vjac c')))
    c jac_full_names.

(** [ModelCall.append_ijv]. The three [ValueError]s of the source guard
    against indices that are not integers and values that are neither
    numbers nor callables; the types of [ii], [jj] and [vv] exclude them. *)
Definition append_ijv (j_full_name : string) (ii jj : nat) (vv : jval)
    (c : ModelCall) : ModelCall :=
  mkModelCall (f_lambdify c) (g_lambdify c) (init_lambdify c)
    (s_lambdify c) (init_std c)
    (dd_append (ijac c) j_full_name ii)
    (dd_append (jjac c) j_full_name jj)
    (dd_append (vjac c) j_full_name vv).

Fixpoint zip3 {A B C} (la : list A) (lb : list B) (lc : list C)
  : list (A * B * C) :=
  match la, lb, lc with
  | a :: la', b :: lb', c :: lc' => (a, b, c) :: zip3 la' lb' lc'
  | _, _, _ => []
  end.

(** [ModelCall.zip_ijv]. *)
Definition zip_ijv (c : ModelCall) (j_full_name : string)
  : list (nat * nat * jval) :=
  zip3 (dd_get (ijac c) j_full_name) (dd_get (jjac c) j_full_name)
       (dd_get (vjac c) j_full_name).

(** ** Model *)

Record Flags : Type := mkFlags {
  collate : bool;
  pflow : bool;
  tds : bool;
  series : bool;
  nr_iter : bool;
  f_num : bool;
  g_num : bool;
  j_num : bool;
  sys_base : bool;
  address : bool;
  initialized : bool
}.

(** The flags set by [Model.__init__]. *)
Definition Flags_init : Flags :=
  mkFlags false false false false false false false false false false false.

Record Model : Type := mkModel {
  data : ModelData;                 (* the inherited ModelData part *)
  class_name : string;
  vars_decl_order : odict Var;      (* every variable, as declared *)
  services : odict Service;
  services_ext : odict value;
  services_ops : odict value;
  services_tc : odict TimeConstant;
  discrete : odict Discrete;
  blocks : odict Block;
  flags : Flags;
  in_use : bool;
  config : odict Q;                 (* config.as_dict() *)
  calls : ModelCall;
  triplets : JacTriplet;
  dae_t : Q                         (* system.dae.t *)
}.

Definition with_data (m : Model) (d : ModelData) : Model :=
  mkModel d (class_name m) (vars_decl_order m) (services m) (services_ext m)
    (services_ops m) (services_tc m) (discrete m) (blocks m) (flags m)
    (in_use m) (config m) (calls m) (triplets m) (dae_t m).

Definition with_vars (m : Model) (vs : odict Var) : Model :=
  mkModel (data m) (class_name m) vs (services m) (services_ext m)
    (services_ops m) (services_tc m) (discrete m) (blocks m) (flags m)
    (in_use m) (config m) (calls m) (triplets m) (dae_t m).

Definition with_services (m : Model) (ss : odict Service) : Model :=
  mkModel (data m) (class_name m) (vars_decl_order m) ss (services_ext m)
    (services_ops m) (services_tc m) (discrete m) (blocks m) (flags m)
    (in_use m) (config m) (calls m) (triplets m) (dae_t m).

Definition with_services_tc (m : Model) (tcs : odict TimeConstant) : Model :=
  mkModel (data m) (class_name m) (vars_decl_order m) (services m)
    (services_ext m) (services_ops m) tcs (discrete m) (blocks m) (flags m)
    (in_use m) (config m) (calls m) (triplets m) (dae_t m).

Definition with_flags (m : Model) (f : Flags) : Model :=
  mkModel (data m) (class_name m) (vars_decl_order m) (services m)
    (services_ext m) (services_ops m) (services_tc m) (discrete m) (blocks m)
    f (in_use m) (config m) (calls m) (triplets m) (dae_t m).

Definition with_calls (m : Model) (c : ModelCall) : Model :=
  mkModel (data m) (class_name m) (vars_decl_order m) (services m)
    (services_ext m) (services_ops m) (services_tc m) (discrete m) (blocks m)
    (flags m) (in_use m) (config m) c (triplets m) (dae_t m).

Definition with_triplets (m : Model) (t : JacTriplet) : Model :=
  mkModel (data m) (class_name m) (vars_decl_order m) (services m)
    (services_ext m) (services_ops m) (services_tc m) (discrete m) (blocks m)
    (flags m) (in_use m) (config m) (calls m) t (dae_t m).

(** [Model.__setattr__] files a variable under its class as well as under
    [vars_decl_order]; the four collections are the declared variables of
    each class, in declaration order. *)
Definition of_kind (k : VarKind) (vs : odict Var) : odict Var :=
  List.filter (fun kv => bool_decide (kind (snd kv) = k)) vs.

Definition states (m : Model) : odict Var := of_kind State (vars_decl_order m).
Definition states_ext (m : Model) : odict Var := of_kind ExtState (vars_decl_order m).
Definition algebs (m : Model) : odict Var := of_kind Algeb (vars_decl_order m).
Definition algebs_ext (m : Model) : odict Var := of_kind ExtAlgeb (vars_decl_order m).

(** The cached views [_states_and_ext], [_algebs_and_ext], [_all_vars]. *)
Definition states_and_ext (m : Model) : odict Var := states m ++ states_ext m.
Definition algebs_and_ext (m : Model) : odict Var := algebs m ++ algebs_ext m.
Definition all_vars (m : Model) : odict Var :=
  states m ++ states_ext m ++ algebs m ++ algebs_ext m.

(** [_iter_vars]: the variables with an iterative initializer. *)
Definition iter_vars (m : Model) : odict Var :=
  List.filter (fun kv => bool_decide (is_Some (v_iter (snd kv)))) (all_vars m).

(** [num_params]: the numeric parameters among [params]. *)
Definition num_params (m : Model) : odict NumParam :=
  flat_map (fun kv => match snd kv with
                      | NumP np => [(fst kv, np)]
                      | DataP _ => []
                      end) (params (data m)).

(** [_all_params_names]: the names exported by numeric parameters, the
    three kinds of services and the discrete components. *)
Definition all_params_names (m : Model) : list string :=
  od_keys (num_params m) ++ od_keys (services m) ++ od_keys (services_ext m)
  ++ od_keys (services_ops m) ++ flat_map d_names (od_values (discrete m)).

(** [_all_vars_names]. *)
Definition all_vars_names (m : Model) : list string := od_keys (all_vars m).

(** ** Inputs of the numerical calls *)

Definition put_all {V} (kvs : list (string * V)) (d : odict V) : odict V :=
  fold_left (fun acc kv => od_set (fst kv) (snd kv) acc) kvs d.

(** [Model.refresh_inputs] followed by the update of [dae_t], from an
    empty cache: what [get_inputs(refresh=True)] returns. *)
Definition get_inputs (m : Model) : odict value :=
  let i1 := put_all (map (fun kv => (fst kv, Array (np_v (snd kv)))) (num_params m)) [] in
  let i2 := put_all (map (fun kv => (fst kv, s_v (snd kv))) (services m)) i1 in
  let i3 := put_all (services_ext m) i2 in
  let i4 := put_all (services_ops m) i3 in
  let i5 := put_all (flat_map (fun d => zip (d_names d) (d_values d))
                              (od_values (discrete m))) i4 in
  let i6 := put_all (map (fun kv => (fst kv, Array (var_v (snd kv)))) (all_vars m)) i5 in
  let i7 := put_all (map (fun kv => (fst kv, Scalar (snd kv))) (config m)) i6 in
  od_set "dae_t" (Scalar (dae_t m)) i7.

(** ** NumPy array operations *)

(** [a * b] on one-dimensional arrays, with broadcasting of length one. *)
Definition np_mul (a b : list Q) : result (list Q) :=
  if Nat.eqb (length a) (length b) then Ok (zip_with Qmult a b)
  else match a, b with
       | [x], _ => Ok (map (Qmult x) b)
       | _, [y] => Ok (map (fun x => Qmult x y) a)
       | _, _ => Raise (ValueError ShapeMismatch)
       end.

(** [dst[:] = src] for an array [src]. *)
Definition np_assign_all (dst src : list Q) : result (list Q) :=
  if Nat.eqb (length src) (length dst) then Ok src
  else match src with
       | [x] => Ok (repeat x (length dst))
       | _ => Raise (ValueError ShapeMismatch)
       end.

(** [dst[:] = x] for a scalar or an array. *)
Definition np_assign (dst : list Q) (x : value) : result (list Q) :=
  match x with
  | Scalar s => Ok (repeat s (length dst))
  | Array l => np_assign_all dst l
  end.

(** [x * np.ones(n)] for a scalar [x]. *)
Definition times_ones (x : Q) (k : nat) : list Q := map (Qmult x) (repeat 1%Q k).

(** [l[i] = x] for one integer index. *)
Definition list_set {A} (l : list A) (i : nat) (x : A) : result (list A) :=
  if Nat.ltb i (length l) then Ok (<[i := x]> l) else Raise IndexError.

Fixpoint list_set_many {A} (l : list A) (ixs : list nat) (x : A) : result (list A) :=
  match ixs with
  | [] => Ok l
  | i :: ixs' => let* l' := list_set l i x in list_set_many l' ixs' x
  end.

(** ** Lookup by idx: [idx2uid], [get], [set], [alter] *)

(** The [idx] argument: [None], one idx, or a flat list of idx. *)
Inductive idx_arg : Type :=
| ArgNone
| ArgOne (i : idx_t)
| ArgMany (l : list idx_t).

Inductive uid_res : Type :=
| UNone
| UOne (u : nat)
| UMany (l : list nat).

(** [Model.idx2uid]. Nested lists, which the code flattens first, and
    the types it refuses with [NotImplementedError] are not values of
    [idx_arg]. *)
Definition idx2uid (m : Model) (idx : idx_arg) : result uid_res :=
  match idx with
  | ArgNone => Ok UNone
  | ArgOne i => let* u := of_option KeyError (uid (data m) !! i) in Ok (UOne u)
  | ArgMany l =>
      let* us := mapR (fun i => of_option KeyError (uid (data m) !! i)) l in
      Ok (UMany us)
  end.

Inductive get_res : Type :=
| GOne (x : pyval)
| GMany (l : list pyval).

(** [Model.get(src, idx)] for a parameter [src] and its attribute [v]. *)
Definition get (m : Model) (src : string) (idx : idx_arg) : result get_res :=
  let* u := idx2uid m idx in
  let* p := of_option KeyError (od_get src (params (data m))) in
  match u with
  | UNone =>
      match p with
      | DataP _ => Raise TypeError             (* a list indexed by None *)
      | NumP _ => Ok (GMany (param_v p))       (* arr[None]: the whole array *)
      end
  | UOne i => let* x := of_option IndexError (param_v p !! i) in Ok (GOne x)
  | UMany l =>
      let* xs := mapR (fun i => of_option IndexError (param_v p !! i)) l in
      Ok (GMany xs)
  end.

(** [arr[uid] = value] on a NumPy float array. *)
Definition np_setitem (arr : list Q) (u : uid_res) (value : Q) : result (list Q) :=
  match u with
  | UNone => Ok (repeat value (length arr))
  | UOne i => list_set arr i value
  | UMany l => list_set_many arr l value
  end.

(** [Model.set(src, idx, attr, value)] for a parameter [src] and a number
    [value]: an array attribute of a numeric parameter, or the list [v]
    of a data parameter (which takes an integer index only). *)
Definition set (m : Model) (src : string) (idx : idx_arg) (attr : string)
    (value : Q) : result Model :=
  let* u := idx2uid m idx in
  let* p := of_option KeyError (od_get src (params (data m))) in
  match p with
  | DataP v =>
      if String.eqb attr "v" then
        match u with
        | UOne i =>
            let* v' := list_set v i (PFloat value) in
            Ok (with_data m (mkModelData (n (data m)) (uid (data m))
                                         (od_set src (DataP v') (params (data m)))))
        | _ => Raise TypeError
        end
      else Raise KeyError
  | NumP np =>
      let* np' :=
        if String.eqb attr "vin" then
          let* a := np_setitem (np_vin np) u value in
          Ok (mkNumParam (np_default np) a (np_v np) (np_pu_coeff np))
        else if String.eqb attr "v" then
          let* a := np_setitem (np_v np) u value in
          Ok (mkNumParam (np_default np) (np_vin np) a (np_pu_coeff np))
        else if String.eqb attr "pu_coeff" then
          let* a := np_setitem (np_pu_coeff np) u value in
          Ok (mkNumParam (np_default np) (np_vin np) (np_v np) a)
        else Raise KeyError in
      Ok (with_data m (mkModelData (n (data m)) (uid (data m))
                                   (od_set src (NumP np') (params (data m)))))
  end.

(** [Model.alter(src, idx, value)]. *)
Definition alter (m : Model) (src : string) (idx : idx_arg) (value : Q)
  : result Model :=
  let* m1 := set m src idx "vin" value in
  let* p := of_option KeyError (od_get src (params (data m1))) in
  match p with
  | DataP _ => Raise KeyError
  | NumP np =>
      let* prod := np_mul (np_vin np) (np_pu_coeff np) in
      let* v' := np_assign_all (np_v np) prod in
      let np' := mkNumParam (np_default np) (np_vin np) v' (np_pu_coeff np) in
      Ok (with_data m1 (mkModelData (n (data m1)) (uid (data m1))
                                    (od_set src (NumP np') (params (data m1)))))
  end.

(** ** Loops over the instances of an ordered dictionary

    [for name, instance in d.items(): ...] where the body mutates
    [instance] and reads the rest of the model: [f cur name instance] sees
    the dictionary [cur] as it stands when [instance] is reached. *)
Fixpoint od_loop {A} (f : odict A -> string -> A -> result A)
    (acc todo : odict A) : result (odict A) :=
  match todo with
  | [] => Ok acc
  | (name, x) :: rest =>
      let* x' := f (acc ++ todo) name x in
      od_loop f (acc ++ [(name, x')]) rest
  end.

(** ** Hooks of the base class (their bodies are [pass]) *)

Definition v_numeric (m : Model) (kwargs : odict value) : Model := m.
Definition s_numeric (m : Model) (kwargs : odict value) : Model := m.
Definition j_numeric (m : Model) : Model := m.

(** ** Service resolution: [Model.s_update] *)

Definition set_s_v (s : Service) (x : value) : Service :=
  mkService (s_v_str s) x (s_v_numeric s).

(** The body of the first loop of [s_update], for one service. *)
Definition s_update_lambdify (m : Model) (sl : odict lam_entry)
    (name : string) (instance : Service) : result Service :=
  let* func := of_option KeyError (od_get name sl) in
  let* x := match func with
            | LFun f => f (get_inputs m)
            | LConst c => Ok c
            end in
  Ok (set_s_v instance
        match x with
        | Scalar s => Array (times_ones s (n (data m)))
        | Array _ => x
        end).

(** The body of the second loop: the individual [v_numeric]. *)
Definition s_update_numeric (m : Model) (name : string) (instance : Service)
  : result Service :=
  match s_v_numeric instance with
  | Some func => let* x := func (get_inputs m) in Ok (set_s_v instance x)
  | None => Ok instance
  end.

Definition s_update (m : Model) : result Model :=
  if Nat.eqb (n (data m)) 0 || negb (in_use m) then Ok m
  else
    let* ss1 :=
      match s_lambdify (calls m) with
      | Some sl =>
          if negb (Nat.eqb (length sl) 0) then
            od_loop (fun cur => s_update_lambdify (with_services m cur) sl)
                    [] (services m)
          else Ok (services m)
      | None => Ok (services m)
      end in
    let* ss2 :=
      od_loop (fun cur => s_update_numeric (with_services m cur)) [] ss1 in
    let tcs :=
      map (fun kv => (fst kv, mkTimeConstant (tc_inverse (snd kv) (tc_v (snd kv)))
                                             (tc_inverse (snd kv))))
          (services_tc m) in
    let m' := with_services_tc (with_services m ss2) tcs in
    Ok (s_numeric m' (get_inputs m')).

(** ** Initialisation: [Model.init_iter] and [Model.init] *)

Definition set_var_v (x : Var) (v' : list Q) : Var :=
  mkVar (kind x) (v_str x) (v_iter x) (e_str x) (diag_eps x) v' (var_a x).

Definition set_initialized (f : Flags) (b : bool) : Flags :=
  mkFlags (collate f) (pflow f) (tds f) (series f) (nr_iter f) (f_num f)
          (g_num f) (j_num f) (sys_base f) (address f) b.

(** The body of the loop of [init] for one variable: a [ValueError] of the
    call or of the assignment is swallowed ([except ValueError: pass]). *)
Definition init_one (m : Model) (name : string) (instance : Var) : result Var :=
  match v_str instance with
  | None => Ok instance
  | Some _ =>
      let kwargs := get_inputs m in
      let* init_fun := of_option KeyError (od_get name (init_lambdify (calls m))) in
      match init_fun with
      | LFun f =>
          match (let* x := f kwargs in np_assign (var_v instance) x) with
          | Ok v' => Ok (set_var_v instance v')
          | Raise (ValueError _) => Ok instance
          | Raise e => Raise e
          end
      | LConst c =>
          let* v' := np_assign (var_v instance) c in
          Ok (set_var_v instance v')
      end
  end.

Section Initialisation.

(** SciPy's [newton_krylov(F, x0)]. *)
Variable newton_krylov :
  (list Q -> result (list Q)) -> list Q -> result (list Q).

Definition slice (x : list Q) (i k : nat) : list Q := take k (drop (i * k) x).

(** [Model._init_wrap]. *)
Definition _init_wrap (m : Model) (x0 : list Q) (params : list value)
  : result (list Q) :=
  init_std (calls m)
    (map (fun i => slice x0 i (n (data m))) (seq 0 (length (iter_vars m))))
    params.

(** The last loop of [init_iter]: [var.v[:] = sol[i * n: (i + 1) * n]]. *)
Fixpoint store_solution (k : nat) (sol : list Q) (i : nat)
    (ivs : odict Var) (vs : odict Var) : result (odict Var) :=
  match ivs with
  | [] => Ok vs
  | (name, var) :: ivs' =>
      let* v' := np_assign_all (var_v var) (slice sol i k) in
      store_solution k sol (S i) ivs' (od_set name (set_var_v var v') vs)
  end.

Definition init_iter (m : Model) : result Model :=
  let inputs := get_inputs m in
  let names := od_keys (iter_vars m) in
  let* iter_input :=
    mapR (fun name => of_option KeyError (od_get name inputs)) names in
  let non_iter_list :=
    od_values (List.filter (fun kv => negb (bool_decide (fst kv ∈ names)))
                           inputs) in
  let iter_array :=
    concat (map (fun x => match x with
                          | Scalar s => map (fun o => Qmult o s)
                                            (repeat 1%Q (n (data m)))
                          | Array l => l
                          end) iter_input) in
  let* sol := newton_krylov (fun x0 => _init_wrap m x0 non_iter_list)
                            iter_array in
  let* vs := store_solution (n (data m)) sol 0 (iter_vars m)
                            (vars_decl_order m) in
  Ok (with_vars m vs).

Definition init (m : Model) : result Model :=
  let* m1 := s_update m in
  let* vs := od_loop (fun cur => init_one (with_vars m1 cur))
                     [] (vars_decl_order m1) in
  let m2 := with_vars m1 vs in
  let* m3 := if nr_iter (flags m2) then init_iter m2 else Ok m2 in
  let m4 := v_numeric m3 (get_inputs m3) in
  Ok (with_flags m4 (set_initialized (flags m4) true)).

End Initialisation.

(** ** Sparse pattern storage: [Model.store_sparse_pattern] *)

Definition str_first (s : string) : option ascii :=
  match s with
  | String c _ => Some c
  | EmptyString => None
  end.

Fixpoint str_last (s : string) : option ascii :=
  match s with
  | EmptyString => None
  | String c EmptyString => Some c
  | String _ s' => str_last s'
  end.

(** The block loop: [instance.j_numeric(); self.triplets.merge(...)]. *)
Definition merge_blocks (t : JacTriplet) (bs : list Block) : JacTriplet :=
  fold_left (fun t' b => if blk_j_num b then JacTriplet_merge t' (blk_triplets b)
                         else t') bs t.

(** The address arrays of one triplet: [row_idx] and [col_idx], found
    through the names of its equation and of its variable. *)
Definition triplet_addrs (m : Model) (j_full_name : string) (row col : nat)
  : result (list nat * list nat) :=
  let var_names_list := od_keys (all_vars m) in
  let k := length (states_and_ext m) in
  let* c0 := of_option IndexError (str_first j_full_name) in
  let* eqs := if Ascii.eqb c0 "f" then Ok (take k var_names_list)
              else if Ascii.eqb c0 "g" then Ok (drop k var_names_list)
              else Raise KeyError in
  let* row_name := of_option IndexError (eqs !! row) in
  let* col_name := of_option IndexError (var_names_list !! col) in
  let* rvar := of_option KeyError (od_get row_name (vars_decl_order m)) in
  let* cvar := of_option KeyError (od_get col_name (vars_decl_order m)) in
  Ok (var_a rvar, var_a cvar).

(** The value array of one triplet: [val * np.ones(n)] for a constant
    Jacobian, [np.zeros(n)] otherwise. *)
Definition triplet_value (m : Model) (j_full_name : string) (val : jval)
  : result (list Q) :=
  if bool_decide (str_last j_full_name = Some "c"%char) then
    match val with
    | JNum q => Ok (times_ones q (n (data m)))
    | JFun _ => Raise TypeError
    end
  else Ok (repeat 0%Q (n (data m))).

(** The body of the inner loop, for one triplet [(row, col, val)] of
    [j_full_name]. *)
Definition store_triplet (m : Model) (j_full_name : string)
    (t : JacTriplet) (rcv : nat * nat * jval) : result JacTriplet :=
  let '(row, col, val) := rcv in
  let* a := triplet_addrs m j_full_name row col in
  if negb (Nat.eqb (length (fst a)) (length (snd a))) then
    Raise (ValueError (NonMatchingIdx (class_name m)))
  else
    let* value := triplet_value m j_full_name val in
    Ok (JacTriplet_append_ijv j_full_name (fst a) (snd a) value t).

Fixpoint foldR {A S} (f : S -> A -> result S) (l : list A) (s : S) : result S :=
  match l with
  | [] => Ok s
  | x :: l' => let* s' := f s x in foldR f l' s'
  end.

(** The two nested loops over [jac_full_names] and [zip_ijv]. *)
Definition store_triplets (m : Model) (t : JacTriplet) : result JacTriplet :=
  foldR (fun t' j_full_name =>
           foldR (store_triplet m j_full_name) (zip_ijv (calls m) j_full_name) t')
        jac_full_names t.

Definition store_sparse_pattern (m : Model) : result Model :=
  let m0 := with_triplets m (JacTriplet_clear_ijv (triplets m)) in
  if Nat.eqb (n (data m0)) 0 then Ok m0          (* in_use is not checked *)
  else if negb (address (flags m0)) then Ok m0
  else
    let m1 := if j_num (flags m0) then j_numeric m0 else m0 in
    let t1 := merge_blocks (triplets m1) (od_values (blocks m1)) in
    let* t2 := store_triplets m1 t1 in
    Ok (with_triplets m1 t2).

(** ** The symbolic processor: [SymProcessor] *)

(** A SymPy [Symbol] is identified with its name. *)
Record SymProcessor : Type := mkSymProcessor {
  inputs_dict : odict string;
  vars_dict : odict string;
  iters_dict : odict string;
  non_vars_dict : odict string;
  non_iters_dict : odict string;
  vars_list : list string;
  f_list : list expr;            (* also the entries of f_matrix *)
  g_list : list expr             (* also the entries of g_matrix *)
}.

(** [SymProcessor.__init__]. *)
Definition SymProcessor_init : SymProcessor :=
  mkSymProcessor [] [] [] [] [] [] [] [].

Definition remove_keys {V} (ks : list string) (d : odict V) : odict V :=
  List.filter (fun kv => negb (bool_decide (fst kv ∈ ks))) d.

(** [SymProcessor.generate_symbols]. The bookkeeping of [tex_names], used
    for pretty printing only, is left out; [parent.__dict__[var]] is the
    variable that [all_vars] holds under that name. *)
Definition generate_symbols (sp : SymProcessor) (m : Model) : SymProcessor :=
  let inputs1 :=
    put_all (map (fun var => (var, var)) (all_params_names m)) (inputs_dict sp) in
  let vars1 :=
    put_all (map (fun var => (var, var)) (all_vars_names m)) (vars_dict sp) in
  let inputs2 := put_all (map (fun var => (var, var)) (all_vars_names m)) inputs1 in
  let iters1 :=
    put_all (map (fun kv => (fst kv, fst kv)) (iter_vars m)) (iters_dict sp) in
  let inputs3 := put_all (map (fun key => (key, key)) (od_keys (config m))) inputs2 in
  let inputs4 := od_set "dae_t" "dae_t" inputs3 in
  mkSymProcessor inputs4 vars1 iters1
    (remove_keys (od_keys vars1) inputs4)
    (remove_keys (od_keys iters1) inputs4)
    (od_values vars1) [] [].

(** [SymProcessor._check_expr_symbols]. *)
Definition _check_expr_symbols (sp : SymProcessor) (cls : string) (e : expr)
  : result unit :=
  match List.find (fun item => negb (bool_decide (item ∈ od_values (inputs_dict sp))))
                  (free_symbols e) with
  | Some item => Raise (ValueError (UnknownSymbol cls e item))
  | None => Ok tt
  end.

(** SymPy's structural zero. *)
Definition is_zero (e : expr) : bool :=
  match e with
  | ENum q => Qeq_bool q 0
  | _ => false
  end.

(** [SparseMatrix(M).row_list()]: the non-zero entries, by row then column. *)
Definition row_list (M : list (list expr)) : list (nat * nat * expr) :=
  concat (imap (fun i row =>
            List.filter (fun ije => negb (is_zero (snd ije)))
                        (imap (fun j e => (i, j, e)) row)) M).

(** [l.index(x)]. *)
Fixpoint list_index (x : string) (l : list string) : option nat :=
  match l with
  | [] => None
  | y :: l' => if String.eqb x y then Some 0 else option_map S (list_index x l')
  end.

Section SymPy.

(** [sympy.diff(e, Symbol(name))] and [sympy.lambdify(names, e)]. *)
Variable sym_diff : expr -> string -> expr.
Variable lambdify : list string -> expr -> pyfun.

(** [Matrix(eqs).jacobian(vars)]. *)
Definition jacobian (eqs : list expr) (vars : list string) : list (list expr) :=
  map (fun e => map (sym_diff e) vars) eqs.

(** One pass of the first loop of [generate_equations] over the
    variables [it]: the residuals and the compiled callables. *)
Fixpoint gen_eqs (sp : SymProcessor) (cls : string) (it : odict Var)
  : result (list expr * odict pyfun) :=
  match it with
  | [] => Ok ([], [])
  | (name, instance) :: it' =>
      match e_str instance with
      | None =>
          let* r := gen_eqs sp cls it' in
          Ok (ENum 0 :: fst r, snd r)
      | Some e =>
          let* _u := _check_expr_symbols sp cls e in
          let* r := gen_eqs sp cls it' in
          Ok (e :: fst r, (name, lambdify (od_keys (inputs_dict sp)) e) :: snd r)
      end
  end.

(** The service loop of [generate_equations]. *)
Fixpoint gen_services (sp : SymProcessor) (cls : string) (ss : odict Service)
  : result (odict lam_entry) :=
  match ss with
  | [] => Ok []
  | (name, instance) :: ss' =>
      match s_v_str instance with
      | Some e =>
          let* _u := _check_expr_symbols sp cls e in
          let* r := gen_services sp cls ss' in
          Ok ((name, LFun (lambdify (od_keys (inputs_dict sp)) e)) :: r)
      | None =>
          let* r := gen_services sp cls ss' in
          Ok ((name, LConst (Scalar 0)) :: r)
      end
  end.

Definition set_eq_calls (c : ModelCall) (fl gl : odict pyfun)
    (sl : odict lam_entry) : ModelCall :=
  mkModelCall fl gl (init_lambdify c) (Some sl) (init_std c)
              (ijac c) (jjac c) (vjac c).

(** [SymProcessor.generate_equations]. *)
Definition generate_equations (sp : SymProcessor) (m : Model)
  : result (SymProcessor * ModelCall) :=
  let* f := gen_eqs sp (class_name m) (states_and_ext m) in
  let* g := gen_eqs sp (class_name m) (algebs_and_ext m) in
  let* sl := gen_services sp (class_name m) (services m) in
  Ok (mkSymProcessor (inputs_dict sp) (vars_dict sp) (iters_dict sp)
        (non_vars_dict sp) (non_iters_dict sp) (vars_list sp) (fst f) (fst g),
      set_eq_calls (calls m) (snd f) (snd g) sl).

(** The body of the loop of [generate_jacobians] over the entries of the
    sparse matrix number [idx] (0 for df, 1 for dg). *)
Definition jac_entry (sp : SymProcessor) (m : Model) (idx : nat)
    (c : ModelCall) (item : nat * nat * expr) : result ModelCall :=
  let '(e_idx, v_idx, e_symbolic) := item in
  let* eq_name :=
    of_option IndexError
      (od_keys (if Nat.eqb idx 0 then states_and_ext m else algebs_and_ext m)
         !! e_idx) in
  let* var_name := of_option IndexError (od_keys (vars_dict sp) !! v_idx) in
  let* eqn := of_option KeyError (od_get eq_name (all_vars m)) in
  let* var := of_option KeyError (od_get var_name (all_vars m)) in
  let jname := e_code (kind eqn) +:+ v_code (kind var) in
  Ok (append_ijv jname e_idx v_idx
        (JFun (lambdify (od_keys (inputs_dict sp)) e_symbolic)) c).

(** The loop that puts [diag_eps] on the diagonal of [gy]. *)
Definition jac_diag_eps (sp : SymProcessor) (m : Model) (c : ModelCall)
    (kv : string * Var) : result ModelCall :=
  if Qeq_bool (diag_eps (snd kv)) 0 then Ok c
  else
    let* e_idx :=
      of_option (ValueError (NotInList (fst kv)))
                (list_index (fst kv) (od_keys (algebs_and_ext m))) in
    let* v_idx :=
      of_option (ValueError (NotInList (fst kv)))
                (list_index (fst kv) (od_keys (vars_dict sp))) in
    Ok (append_ijv "gyc" e_idx v_idx (JNum (diag_eps (snd kv))) c).

(** [SymProcessor.generate_jacobians]. *)
Definition generate_jacobians (sp : SymProcessor) (m : Model) (c : ModelCall)
  : result ModelCall :=
  let c0 := clear_ijv c in
  let dg_syms := jacobian (g_list sp) (vars_list sp) in
  let df_syms := jacobian (f_list sp) (vars_list sp) in
  let* c1 := foldR (jac_entry sp m 0) (row_list df_syms) c0 in
  let* c2 := foldR (jac_entry sp m 1) (row_list dg_syms) c1 in
  foldR (jac_diag_eps sp m) (algebs m) c2.

End SymPy.

(** ** Power flow: [andes/routines/powerflow.py] *)

(** [solvers]. *)
Definition solvers : odict string :=
  [("NR", "newton"); ("Newton", "newton"); ("FDPF", "fdpf");
   ("FDBX", "fdpf"); ("FDXB", "fdpf")].

Record SPFConfig : Type := mkSPF {
  method : string;
  tol : Q;
  maxit : Z;
  flatstart : bool;
  spf_iter : nat;          (* system.SPF.iter *)
  spf_solved : bool        (* system.SPF.solved *)
}.

Record Config : Type := mkConfig {
  sparselib : string;
  sparselib_alt : list string;
  error : Q
}.

(** The warnings the routines log. *)
Inductive warning : Type :=
| BlownUp (niter : nat)        (* Blown up in niter iterations. *)
| ReachedMaxIter.              (* Reached maximum number of iterations. *)

Definition Qltb (x y : Q) : bool := negb (Qle_bool y x).

(** [max(abs(inc))]; [max] of an empty sequence raises. *)
Definition max_abs (inc : list Q) : result Q :=
  match inc with
  | [] => Raise (ValueError EmptySequence)
  | x :: l => Ok (fold_left (fun a y => if Qltb a (Qabs y) then Qabs y else a)
                            l (Qabs x))
  end.

Section PowerFlow.

(** The numerical state [system.DAE] is kept abstract. *)
Variable dae : Type.

Record System : Type := mkSystem {
  SPF : SPFConfig;
  sys_config : Config;
  DAE : dae;
  powerflow_solved : bool;   (* system.powerflow.solved *)
  lib : string;              (* the module-level sparse library *)
  warnings : list warning    (* what logger.warning received, in order *)
}.

(** Whether the import of [cvxoptklu] succeeded. *)
Variable KLU : bool.
(** [calc_inc]: one linear solve; it updates [system.DAE] and returns
    the increment. *)
Variable calc_inc : System -> dae * list Q.
(** [dae.x += inc[:dae.n]; dae.y += inc[dae.n:dae.n + dae.m]]. *)
Variable add_inc : dae -> list Q -> dae.
(** The fast decoupled routine and the post-processing. *)
Variable fdpf : System -> result (System * (bool * nat)).
Variable post_processing : System -> System.

Definition set_DAE (s : System) (d : dae) : System :=
  mkSystem (SPF s) (sys_config s) d (powerflow_solved s) (lib s) (warnings s).
Definition set_SPF (s : System) (c : SPFConfig) : System :=
  mkSystem c (sys_config s) (DAE s) (powerflow_solved s) (lib s) (warnings s).
Definition set_config (s : System) (c : Config) : System :=
  mkSystem (SPF s) c (DAE s) (powerflow_solved s) (lib s) (warnings s).
Definition set_lib (s : System) (l : string) : System :=
  mkSystem (SPF s) (sys_config s) (DAE s) (powerflow_solved s) l (warnings s).
Definition set_powerflow_solved (s : System) (b : bool) : System :=
  mkSystem (SPF s) (sys_config s) (DAE s) b (lib s) (warnings s).
Definition warn (s : System) (w : warning) : System :=
  mkSystem (SPF s) (sys_config s) (DAE s) (powerflow_solved s) (lib s)
           (warnings s ++ [w]).

Definition set_iter (c : SPFConfig) (k : nat) : SPFConfig :=
  mkSPF (method c) (tol c) (maxit c) (flatstart c) k (spf_solved c).
Definition set_method (c : SPFConfig) (name : string) : SPFConfig :=
  mkSPF name (tol c) (maxit c) (flatstart c) (spf_iter c) (spf_solved c).
Definition set_solved (c : SPFConfig) (b : bool) : SPFConfig :=
  mkSPF (method c) (tol c) (maxit c) (flatstart c) (spf_iter c) b.
Definition set_error (c : Config) (e : Q) : Config :=
  mkConfig (sparselib c) (sparselib_alt c) e.
Definition set_sparselib (c : Config) (l : string) : Config :=
  mkConfig l (sparselib_alt c) (error c).

(** What [newton] returns, with the list [iter_mis] it built. *)
Record NewtonResult : Type := mkNewtonResult {
  nr_system : System;
  convergence : bool;
  nr_niter : nat;
  iter_mis : list Q
}.

(** The main loop of [newton]; [None] when [fuel] passes are not enough. *)
Fixpoint newton_loop (fuel : nat) (system : System) (niter : nat)
    (mis : list Q) : option (result NewtonResult) :=
  match fuel with
  | O => None
  | S fuel' =>
      let '(dae1, inc) := calc_inc system in
      let system2 := set_DAE system (add_inc dae1 inc) in
      let niter' := S niter in
      let system3 := set_SPF system2 (set_iter (SPF system2) niter') in
      match max_abs inc with
      | Raise e => Some (Raise e)
      | Ok max_mis =>
          let mis' := mis ++ [max_mis] in
          let system4 :=
            set_config system3 (set_error (sys_config system3) max_mis) in
          if Qltb max_mis (tol (SPF system4)) then
            Some (Ok (mkNewtonResult system4 true niter' mis'))
          else if Nat.ltb 5 niter'
                  && Qltb (1000 * default 0%Q (head mis'))%Q max_mis then
            Some (Ok (mkNewtonResult (warn system4 (BlownUp niter'))
                                     false niter' mis'))
          else if Z.ltb (maxit (SPF system4)) (Z.of_nat niter') then
            Some (Ok (mkNewtonResult (warn system4 ReachedMaxIter)
                                     false niter' mis'))
          else newton_loop fuel' system4 niter' mis'
      end
  end.

(** [newton(system)]; the loop needs at most [maxit + 1] passes (one when
    [maxit] is negative), which is the fuel given here. *)
Definition newton (system : System) : option (result NewtonResult) :=
  newton_loop (S (Z.to_nat (maxit (SPF system)))) system 0 [].

(** [newton] as [run] uses it: [convergence, niter = run_powerflow(system)]. *)
Definition newton_routine (s : System)
  : option (result (System * (bool * nat))) :=
  match newton s with
  | Some (Ok r) => Some (Ok (nr_system r, (convergence r, nr_niter r)))
  | Some (Raise e) => Some (Raise e)
  | None => None
  end.

(** The routine of the module that [getattr] finds under [func_name]. *)
Definition routine_of (func_name : string)
  : option (System -> option (result (System * (bool * nat)))) :=
  if String.eqb func_name "newton" then Some newton_routine
  else if String.eqb func_name "fdpf" then Some (fun s => Some (fdpf s))
  else None.

(** The choice of the sparse library at the start of [run]. *)
Definition select_lib (system : System) : System :=
  let cfg := sys_config system in
  if String.eqb (sparselib cfg) "klu" && KLU then set_lib system "klu"
  else set_lib (set_config system (set_sparselib cfg "umfpack")) "umfpack".

(** The end of [run], once the routine has returned. *)
Definition finish_run (out : option (result (System * (bool * nat))))
  : option (result (System * bool)) :=
  match out with
  | None => None
  | Some (Raise e) => Some (Raise e)
  | Some (Ok (system3, (conv, niter))) =>
      let system4 := set_SPF system3 (set_solved (SPF system3) false) in
      let system5 :=
        if conv then post_processing (set_powerflow_solved system4 true)
        else system4 in
      Some (Ok (system5, conv))
  end.

(** [run(system)], the entry function. *)
Definition run (system : System) : option (result (System * bool)) :=
  let cfg := sys_config system in
  if negb (bool_decide (sparselib cfg ∈ sparselib_alt cfg)) then
    Some (Raise (AssertionError (InvalidSparseLib (sparselib cfg))))
  else
    let system1 := select_lib system in
    let system2 :=
      if negb (bool_decide (method (SPF system1) ∈ od_keys solvers)) then
        set_SPF system1 (set_method (SPF system1) "NR")
      else system1 in
    match od_get (method (SPF system2)) solvers with
    | None => Some (Raise TypeError)
    | Some func_name =>
        match routine_of func_name with
        | None => Some (Raise AttributeError)
        | Some run_powerflow => finish_run (run_powerflow system2)
        end
    end.

End PowerFlow.


(** * Further parts of [andes/core/model.py] *)

(** ** The cache of computed attributes: [Cache] *)

Section CacheDefs.

(** [St] is the state of the owner, which the callbacks read when they
    are called (they are bound methods of the owner, called without
    arguments); [V] is what they return. A callback that reads the cache
    itself is outside of this model. *)
Variables (St V : Type).

(** An entry of [_callbacks]: a callable, or anything else. *)
Inductive callback : Type :=
| CallFun (f : St -> result V)
| CallVal (v : V).

(** [cache_dict] is the [__dict__] of the instance but for [_callbacks];
    an attribute holds [None] (Python's [None]) or a value. *)
Record Cache : Type := mkCache {
  _callbacks : odict callback;
  cache_dict : gmap string (option V)
}.

(** [Cache.__init__]. *)
Definition Cache_init : Cache := mkCache [] ∅.

(** [Cache.add_callback]. *)
Definition add_callback (name : string) (cb : callback) (c : Cache) : Cache :=
  mkCache (od_set name cb (_callbacks c)) (cache_dict c).

(** [Cache._call]. *)
Definition _call (c : Cache) (s : St) (name : string) : result (option V) :=
  match od_get name (_callbacks c) with
  | None => Ok None
  | Some (CallFun f) => let* v := f s in Ok (Some v)
  | Some (CallVal v) => Ok (Some v)
  end.

Definition store_attr (c : Cache) (name : string) (v : option V) : Cache :=
  mkCache (_callbacks c) (<[name := v]> (cache_dict c)).

(** The attribute access [cache.item]: the attribute of the instance when
    there is one, [Cache.__getattr__] otherwise. The names of the methods
    of the class and [_callbacks] are not attribute names here. *)
Definition getattr (c : Cache) (s : St) (item : string)
  : result (option V * Cache) :=
  match cache_dict c !! item with
  | Some v => Ok (v, c)
  | None =>
      if bool_decide (item ∈ od_keys (_callbacks c)) then
        let* v := _call c s item in
        Ok (v, store_attr c item v)
      else Raise AttributeError
  end.

(** The argument of [refresh]: [None], a string or a list of strings. *)
Inductive refresh_arg : Type :=
| RefreshAll
| RefreshName (name : string)
| RefreshList (names : list string).

(** [self.__dict__[name] = self._call(name)]. *)
Definition refresh_one (s : St) (c : Cache) (name : string) : result Cache :=
  let* v := _call c s name in Ok (store_attr c name v).

(** [Cache.refresh]. *)
Definition refresh (c : Cache) (s : St) (name : refresh_arg) : result Cache :=
  match name with
  | RefreshAll => foldR (refresh_one s) (od_keys (_callbacks c)) c
  | RefreshName nm => refresh_one s c nm
  | RefreshList l => foldR (refresh_one s) l c
  end.

End CacheDefs.

Arguments CallFun {St V} f.
Arguments CallVal {St V} v.
Arguments mkCache {St V} _ _.
Arguments _callbacks {St V} c.
Arguments cache_dict {St V} c.
Arguments Cache_init {St V}.
Arguments add_callback {St V} name cb c.
Arguments _call {St V} c s name.
Arguments store_attr {St V} c name v.
Arguments getattr {St V} c s item.
Arguments refresh_one {St V} s c name.
Arguments refresh {St V} c s name.

(** ** Search of devices by value: [ModelData.find_idx] *)

(** The argument [keys]: a string or a list of strings. *)
Inductive keys_arg : Type :=
| KeyStr (key : string)
| KeyList (keys : list string).

(** The argument [values]: one Python value, a flat sequence of values or
    a sequence of sequences of values. *)
Inductive values_arg : Type :=
| ValOne (x : pyval)
| ValFlat (l : list pyval)
| ValNested (ll : list (list pyval)).

(** [isinstance(x, Iterable)] for one value: among the values, only a
    string is iterable. *)
Definition is_iterable (x : pyval) : bool :=
  match x with
  | PIdx (IdxStr _) => true
  | _ => false
  end.

(** The characters of a string, each a string of length one. *)
Fixpoint chars (s : string) : list pyval :=
  match s with
  | EmptyString => []
  | String c s' => PIdx (IdxStr (String c EmptyString)) :: chars s'
  end.

(** [list(x)] for one value. *)
Definition py_list (x : pyval) : result (list pyval) :=
  match x with
  | PIdx (IdxStr s) => Ok (chars s)
  | _ => Raise TypeError
  end.

(** The arguments that [zip] receives when [values] is unpacked into it,
    each as a list. *)
Definition rows_of (values : values_arg) : result (list (list pyval)) :=
  match values with
  | ValOne x => let* l := py_list x in mapR py_list l
  | ValFlat l => mapR py_list l
  | ValNested ll => Ok ll
  end.

(** [zip] of the unpacked [rows]: the tuples of the components of equal
    rank, as many as the shortest row has; none without rows. *)
Fixpoint zip_star {A} (rows : list (list A)) : list (list A) :=
  match rows with
  | [] => []
  | r :: rs =>
      match rs with
      | [] => map (fun x => [x]) r
      | _ :: _ => zip_with cons r (zip_star rs)
      end
  end.

(** [i == j] on Python values: numbers by value, strings by content. *)
Definition py_eq (i j : pyval) : bool :=
  match i, j with
  | PNone, PNone => true
  | PIdx (IdxInt a), PIdx (IdxInt b) => Z.eqb a b
  | PIdx (IdxStr a), PIdx (IdxStr b) => String.eqb a b
  | PFloat a, PFloat b => Qeq_bool a b
  | PIdx (IdxInt a), PFloat b => Qeq_bool (inject_Z a) b
  | PFloat a, PIdx (IdxInt b) => Qeq_bool a (inject_Z b)
  | _, _ => false
  end.

(** The messages of the [ValueError]s of [find_idx]. *)
Inductive find_idx_msg : Type :=
| ScalarOrIterable      (* value must be a string, scalar or an iterable *)
| MustBeIterable        (* value must be an iterable *)
| IterableOfIterables   (* if keys is an iterable, values must be an
                           iterable of iterables *)
| SameLength.           (* keys and values must have the same length *)

(** What [find_idx] raises: its own errors, or the exception of a lookup
    or of an operation on its arguments. *)
Inductive find_exn : Type :=
| FindValueError (msg : find_idx_msg)
| FindNotFound (keys : list string) (v_search : list pyval) (cls : string)
| FindRaise (e : exn).

Inductive find_res (A : Type) : Type :=
| Found (a : A)
| Failed (e : find_exn).
Arguments Found {A} a.
Arguments Failed {A} e.

Definition find_bind {A B} (r : find_res A) (k : A -> find_res B) : find_res B :=
  match r with
  | Found a => k a
  | Failed e => Failed e
  end.

Definition find_lift {A} (r : result A) : find_res A :=
  match r with
  | Ok a => Found a
  | Raise e => Failed (FindRaise e)
  end.

Fixpoint find_map {A B} (f : A -> find_res B) (l : list A) : find_res (list B) :=
  match l with
  | [] => Found []
  | x :: l' =>
      find_bind (f x) (fun y => find_bind (find_map f l') (fun ys => Found (y :: ys)))
  end.

(** The first part of [find_idx]: the checks of [values] against [keys],
    which also wrap a flat sequence of values that are not iterable. *)
Definition check_values (keys : keys_arg) (values : values_arg)
  : find_res (list string * values_arg) :=
  match keys with
  | KeyStr key =>
      match values with
      | ValOne PNone => Failed (FindValueError ScalarOrIterable)
      | ValOne (PIdx (IdxStr _)) => Found ([key], values)
      | ValOne _ => Failed (FindRaise TypeError)      (* len() of a number *)
      | ValFlat l =>
          match l with
          | x :: _ =>
              if negb (is_iterable x) then Found ([key], ValNested [l])
              else Found ([key], values)
          | [] => Found ([key], values)
          end
      | ValNested _ => Found ([key], values)
      end
  | KeyList ks =>
      match values with
      | ValOne (PIdx (IdxStr s)) =>
          if negb (Nat.eqb (length ks) (String.length s))
          then Failed (FindValueError SameLength)
          else Found (ks, values)
      | ValOne _ => Failed (FindValueError MustBeIterable)
      | ValFlat l =>
          match l with
          | x :: _ =>
              if negb (is_iterable x)
              then Failed (FindValueError IterableOfIterables)
              else if negb (Nat.eqb (length ks) (length l))
                   then Failed (FindValueError SameLength)
                   else Found (ks, values)
          | [] =>
              if negb (Nat.eqb (length ks) 0)
              then Failed (FindValueError SameLength)
              else Found (ks, values)
          end
      | ValNested ll =>
          if negb (Nat.eqb (length ks) (length ll))
          then Failed (FindValueError SameLength)
          else Found (ks, values)
      end
  end.

(** [self.__dict__[key].v] for the name of a parameter; the other
    attributes of the instance are not looked up in this model. *)
Definition attr_v (m : Model) (key : string) : result (list pyval) :=
  let* p := of_option KeyError (od_get key (params (data m))) in
  Ok (param_v p).

(** [all([i == j for i, j in zip(v_search, v_attr)])]. *)
Definition matches (v_search v_attr : list pyval) : bool :=
  forallb (fun ij => py_eq (fst ij) (snd ij)) (zip v_search v_attr).

(** The position of the first element that satisfies [p]. *)
Fixpoint find_pos {A} (p : A -> bool) (l : list A) : option nat :=
  match l with
  | [] => None
  | x :: l' => if p x then Some 0 else option_map S (find_pos p l')
  end.

(** An element of the list that [find_idx] returns: an idx, or [False]. *)
Inductive found_idx : Type :=
| Idx (x : pyval)
| IdxFalse.

(** The body of the outer loop of [find_idx], for one [v_search]; [tuples]
    is [zip] of the unpacked [v_attrs]. *)
Definition search_one (m : Model) (keys : list string) (allow_missing : bool)
    (tuples : list (list pyval)) (v_search : list pyval) : find_res found_idx :=
  find_bind
    match find_pos (matches v_search) tuples with
    | Some pos =>
        find_lift
          (let* p := of_option AttributeError (od_get "idx" (params (data m))) in
           of_option IndexError (param_v p !! pos))
    | None => Found PNone
    end
    (fun v_idx =>
       match v_idx with
       | PNone =>
           if allow_missing then Found IdxFalse
           else Failed (FindNotFound keys v_search (class_name m))
       | _ => Found (Idx v_idx)
       end).

(** [ModelData.find_idx], on an instance that is a [Model] as well (it
    reads [class_name]). *)
Definition find_idx (m : Model) (keys : keys_arg) (values : values_arg)
    (allow_missing : bool) : find_res (list found_idx) :=
  find_bind (check_values keys values) (fun kv =>
  find_bind (find_lift (mapR (attr_v m) (fst kv))) (fun v_attrs =>
  find_bind (find_lift (rows_of (snd kv))) (fun rows =>
  find_map (search_one m (fst kv) allow_missing (zip_star v_attrs))
           (zip_star rows)))).

(** ** Initializers and the whole code generation:
       [SymProcessor.generate_init], [Model.prepare] *)

Section CodeGeneration.

(** SymPy's [diff] and [lambdify], the latter in its two uses: on a flat
    list of names and one expression, and on the nested argument list
    [(iters, non_iters)] and a matrix of expressions. *)
Variable sym_diff : expr -> string -> expr.
Variable lambdify : list string -> expr -> pyfun.
Variable lambdify_std :
  list string -> list string -> list expr ->
  list (list Q) -> list value -> result (list Q).

(** The body of the loop of [generate_init] for one variable; [acc] holds
    [init_lambda_list] and [init_g_list]. *)
Definition gen_init_step (sp : SymProcessor) (cls : string)
    (acc : odict lam_entry * list expr) (kv : string * Var)
  : result (odict lam_entry * list expr) :=
  let* lam :=
    match v_str (snd kv) with
    | Some e =>
        let* _u := _check_expr_symbols sp cls e in
        Ok (od_set (fst kv) (LFun (lambdify (od_keys (inputs_dict sp)) e))
                   (fst acc))
    | None => Ok (fst acc)
    end in
  let* g :=
    match v_iter (snd kv) with
    | Some e =>
        let* _u := _check_expr_symbols sp cls e in
        Ok (snd acc ++ [e])
    | None => Ok (snd acc)
    end in
  Ok (lam, g).

(** [SymProcessor.generate_init]. What it keeps for display only
    ([init_latex], [init_seq], [init_dstd]) is left out. *)
Definition generate_init (sp : SymProcessor) (m : Model) (c : ModelCall)
  : result ModelCall :=
  let* r := foldR (gen_init_step sp (class_name m)) (all_vars m) ([], []) in
  Ok (mkModelCall (f_lambdify c) (g_lambdify c) (fst r) (s_lambdify c)
        (lambdify_std (od_keys (iters_dict sp)) (od_keys (non_iters_dict sp))
                      (snd r))
        (ijac c) (jjac c) (vjac c)).


End CodeGeneration.


(** * Vocabulary of the statements *)

(** ** Device container *)

(** A container that holds no device yet. *)
Definition fresh (md : ModelData) : Prop :=
  n md = 0 /\ uid md = ∅ /\
  forall src p, od_get src (params md) = Some p -> length (param_v p) = 0.

(** What [add] maintains: [idxs] are the idx added so far, in order. *)
Definition container_inv (md : ModelData) (idxs : list idx_t) : Prop :=
  n md = length idxs /\
  (forall i u, uid md !! i = Some u <-> idxs !! u = Some i) /\
  (forall src p, od_get src (params md) = Some p -> length (param_v p) = n md).

(** The parameter [src] once [alter] has run: [value] written at position
    [u] of [vin], and [v] recomputed for every device. *)
Definition altered (np : NumParam) (u : nat) (value : Q) : NumParam :=
  mkNumParam (np_default np) (<[u := value]> (np_vin np))
             (zip_with Qmult (<[u := value]> (np_vin np)) (np_pu_coeff np))
             (np_pu_coeff np).

(** ** Newton loop *)

(** The test that ends the loop with the warning about a blow-up. *)
Definition blown_up (mis : list Q) (k : nat) (x : Q) : bool :=
  Nat.ltb 5 k && Qltb (1000 * default 0%Q (head mis))%Q x.

(** ** Sparse pattern *)

(** The triplet refers to an equation and a variable of the model, and a
    triplet of a constant Jacobian carries a number. *)
Definition triplet_ok (m : Model) (j : string) (rcv : nat * nat * jval) : bool :=
  match triplet_addrs m j (fst (fst rcv)) (snd (fst rcv)),
        triplet_value m j (snd rcv) with
  | Ok _, Ok _ => true
  | _, _ => false
  end.

(** The row-address and column-address arrays of the triplet differ in
    length. *)
Definition triplet_mismatch (m : Model) (j : string) (rcv : nat * nat * jval)
  : bool :=
  match triplet_addrs m j (fst (fst rcv)) (snd (fst rcv)) with
  | Ok a => negb (Nat.eqb (length (fst a)) (length (snd a)))
  | Raise _ => false
  end.

Definition calls_ok (m : Model) : bool :=
  forallb (fun j => forallb (triplet_ok m j) (zip_ijv (calls m) j)) jac_full_names.

Definition has_mismatch (m : Model) : bool :=
  existsb (fun j => existsb (triplet_mismatch m j) (zip_ijv (calls m) j))
          jac_full_names.

(** The arrays that [store_sparse_pattern] appends for one triplet. *)
Definition row_idx_of (m : Model) (j : string) (rcv : nat * nat * jval) : list nat :=
  match triplet_addrs m j (fst (fst rcv)) (snd (fst rcv)) with
  | Ok a => fst a
  | Raise _ => []
  end.

Definition col_idx_of (m : Model) (j : string) (rcv : nat * nat * jval) : list nat :=
  match triplet_addrs m j (fst (fst rcv)) (snd (fst rcv)) with
  | Ok a => snd a
  | Raise _ => []
  end.

Definition value_of (m : Model) (j : string) (rcv : nat * nat * jval) : list Q :=
  match triplet_value m j (snd rcv) with
  | Ok x => x
  | Raise _ => []
  end.

(** The store on which the loop over the triplets starts: cleared, then
    merged with the triplets of the blocks. *)
Definition pattern_base (m : Model) : JacTriplet :=
  merge_blocks (JacTriplet_clear_ijv (triplets m)) (od_values (blocks m)).

(** The three lists of a store under name [k], after the arrays of the
    triplets [l] of name [j] have been appended. *)
Definition appended (m : Model) (j : string) (l : list (nat * nat * jval))
    (t t' : JacTriplet) : Prop :=
  forall k,
    dd_get (t_ijac t') k
    = dd_get (t_ijac t) k ++ (if decide (k = j) then map (row_idx_of m j) l else [])
    /\ dd_get (t_jjac t') k
       = dd_get (t_jjac t) k ++ (if decide (k = j) then map (col_idx_of m j) l else [])
    /\ dd_get (t_vjac t') k
       = dd_get (t_vjac t) k ++ (if decide (k = j) then map (value_of m j) l else []).

(** The lists of a store after the loops over the names [names]. *)
Definition appended_all (m : Model) (names : list string) (t t' : JacTriplet)
  : Prop :=
  forall k,
    dd_get (t_ijac t') k
    = dd_get (t_ijac t) k
      ++ (if decide (k ∈ names) then map (row_idx_of m k) (zip_ijv (calls m) k)
          else [])
    /\ dd_get (t_jjac t') k
       = dd_get (t_jjac t) k
         ++ (if decide (k ∈ names) then map (col_idx_of m k) (zip_ijv (calls m) k)
             else [])
    /\ dd_get (t_vjac t') k
       = dd_get (t_vjac t) k
         ++ (if decide (k ∈ names) then map (value_of m k) (zip_ijv (calls m) k)
             else []).

(** ** Symbols *)




(** ** Jacobians *)

(** The residual of a variable: its equation, or zero when it has none. *)
Definition residual (x : Var) : expr := default (ENum 0) (e_str x).

(** The (row, col) pairs of the triplets stored under a Jacobian name. *)
Definition pairs (c : ModelCall) (K : string) : list (nat * nat) :=
  zip (dd_get (ijac c) K) (dd_get (jjac c) K).

(** The equations of block number [blk]: 0 for the differential ones, 1
    for the algebraic ones. *)
Definition eqs_of (m : Model) (blk : nat) : odict Var :=
  if Nat.eqb blk 0 then states_and_ext m else algebs_and_ext m.

Definition ecode_of (blk : nat) : string := if Nat.eqb blk 0 then "f" else "g".

(** The Jacobian name under which an entry of block [blk] is filed. *)
Definition key_of (m : Model) (blk : nat) (item : nat * nat * expr) : string :=
  ecode_of blk +:+ match all_vars m !! snd (fst item) with
                   | Some kv => v_code (kind (snd kv))
                   | None => EmptyString
                   end.

(** The row and column that the loop over [diag_eps] computes. *)
Definition eps_row (m : Model) (kv : string * Var) : nat :=
  default 0 (list_index (fst kv) (od_keys (algebs_and_ext m))).
Definition eps_col (m : Model) (kv : string * Var) : nat :=
  default 0 (list_index (fst kv) (all_vars_names m)).


(** Mapping over the result of a fallible computation. *)
Definition result_map {A B} (f : A -> B) (r : result A) : result B :=
  match r with
  | Ok a => Ok (f a)
  | Raise e => Raise e
  end.

Definition with_in_use (m : Model) (b : bool) : Model :=
  mkModel (data m) (class_name m) (vars_decl_order m) (services m)
    (services_ext m) (services_ops m) (services_tc m) (discrete m) (blocks m)
    (flags m) b (config m) (calls m) (triplets m) (dae_t m).


Definition with_config (m : Model) (cfg : odict Q) : Model :=
  mkModel (data m) (class_name m) (vars_decl_order m) (services m)
    (services_ext m) (services_ops m) (services_tc m) (discrete m) (blocks m)
    (flags m) (in_use m) cfg (calls m) (triplets m) (dae_t m).

Definition set_address (f : Flags) (b : bool) : Flags :=
  mkFlags (collate f) (pflow f) (tds f) (series f) (nr_iter f) (f_num f)
          (g_num f) (j_num f) (sys_base f) b (initialized f).

(** [ModelCall.__init__], [JacTriplet.__init__] and [Model.__init__]. *)
Definition ModelCall_init : ModelCall :=
  mkModelCall [] [] [] (Some []) (fun _ _ => Ok []) ∅ ∅ ∅.

Definition JacTriplet_init : JacTriplet := mkJacTriplet ∅ ∅ ∅.

Definition Model_init (cls : string) : Model :=
  mkModel ModelData_init cls [] [] [] [] [] [] [] Flags_init true []
          ModelCall_init JacTriplet_init 0.

(** * Example models *)

(** ** A container with two devices *)

Definition devs_two : list (gmap string pyval) :=
  [ {[ "idx" := PIdx (IdxInt 1); "name" := PIdx (IdxStr "PQ_1");
       "u" := PFloat 1 ]};
    {[ "idx" := PIdx (IdxStr "B") ]} ].

Definition idxs_two : list idx_t := [IdxInt 1; IdxStr "B"].

Definition md_two : ModelData :=
  match add_all devs_two ModelData_init with
  | Ok md => md
  | Raise _ => ModelData_init
  end.

Definition m_two : Model := with_data (Model_init "PQ") md_two.

(** ** A numeric parameter with a stale working value *)

Definition p0_stale : NumParam :=
  mkNumParam 0 [1; 2]%Q [7; 1]%Q [(1 # 2); (1 # 2)]%Q.

Definition m_alter : Model :=
  with_data (Model_init "PQ")
    (mkModelData 2 {[ IdxInt 1 := 0; IdxInt 2 := 1 ]}
       [("idx", DataP [PIdx (IdxInt 1); PIdx (IdxInt 2)]);
        ("u", NumP (mkNumParam 1 [1; 1]%Q [1; 1]%Q [1; 1]%Q));
        ("p0", NumP p0_stale)]).

(** ** A differentiator and a compiler standing for SymPy's *)

Definition sadd (a b : expr) : expr :=
  if is_zero a then b else if is_zero b then a else EAdd a b.

Definition smul (a b : expr) : expr :=
  if is_zero a || is_zero b then ENum 0 else EMul a b.

Fixpoint deriv (e : expr) (x : string) : expr :=
  match e with
  | ENum _ => ENum 0
  | ESym s => if String.eqb s x then ENum 1 else ENum 0
  | EAdd a b => sadd (deriv a x) (deriv b x)
  | EMul a b => sadd (smul (deriv a x) b) (smul a (deriv b x))
  | EPow a (ENum k) => smul (smul (ENum k) (EPow a (ENum (k - 1)))) (deriv a x)
  | EPow a b => if is_zero (deriv a x) && is_zero (deriv b x) then ENum 0
                else EFun "Derivative" e
  | EFun f a => smul (EFun (f +:+ "'") a) (deriv a x)
  end.

(** A compiler whose callables evaluate sums, products and inverses of
    scalars. *)
Fixpoint eval_scalar (e : expr) (kwargs : odict value) : result Q :=
  match e with
  | ENum q => Ok q
  | ESym s => match od_get s kwargs with
              | Some (Scalar q) => Ok q
              | Some (Array _) => Raise TypeError
              | None => Raise KeyError
              end
  | EAdd a b =>
      let* x := eval_scalar a kwargs in
      let* y := eval_scalar b kwargs in Ok (x + y)%Q
  | EMul a b =>
      let* x := eval_scalar a kwargs in
      let* y := eval_scalar b kwargs in Ok (x * y)%Q
  | EPow a (ENum k) =>
      let* x := eval_scalar a kwargs in
      if Qeq_bool k (-1) then
        if Qeq_bool x 0 then Raise ZeroDivisionError else Ok (/ x)%Q
      else Raise TypeError
  | _ => Raise TypeError
  end.

(** A symbol evaluates to the input of that name, any other expression to
    a scalar. *)
Definition lambdify_scalar (names : list string) (e : expr) : pyfun :=
  fun kwargs =>
    match e with
    | ESym s => of_option KeyError (od_get s kwargs)
    | _ => let* q := eval_scalar e kwargs in Ok (Scalar q)
    end.

(** ** A load with a voltage limiter

    The variables [a] and [v] of the bus, the powers [p0] and [q0], the
    limiter [vcmp] with its three flags and the config option [pq2z]. *)



(** ** A model with one state and two algebraic variables *)

Definition m_xy : Model :=
  with_vars (Model_init "Toy")
    [("y", mkVar Algeb None None
             (Some (EAdd (ESym "x") (EMul (ENum (-1)) (ESym "y"))))
             (1 # 1000000) [] []);
     ("x", mkVar State None None
             (Some (EMul (ENum (-1)) (ESym "x"))) 0 [] []);
     ("z", mkVar Algeb None None None 0 [] [])].

Definition sp_xy : SymProcessor :=
  match generate_equations lambdify_scalar
          (generate_symbols SymProcessor_init m_xy) m_xy with
  | Ok r => fst r
  | Raise _ => SymProcessor_init
  end.

Definition c_xy : ModelCall :=
  match generate_equations lambdify_scalar
          (generate_symbols SymProcessor_init m_xy) m_xy with
  | Ok r => snd r
  | Raise _ => ModelCall_init
  end.

(** ** Models for the storage of the sparsity pattern *)

(** One state [x] and one algebraic variable [y], the triplets that the
    equations [x' = -x] and [0 = x - y] generate, and [diag_eps] on [y]. *)
Definition calls_pattern : ModelCall :=
  append_ijv "gyc" 0 1 (JNum (1 # 1000000))
    (append_ijv "gy" 0 1 (JFun (fun _ => Ok (Scalar (-1))))
       (append_ijv "gx" 0 0 (JFun (fun _ => Ok (Scalar 1)))
          (append_ijv "fx" 0 0 (JFun (fun _ => Ok (Scalar (-1))))
             (clear_ijv ModelCall_init)))).

Definition vars_pattern (ax ay : list nat) : odict Var :=
  [("x", mkVar State None None (Some (EMul (ENum (-1)) (ESym "x"))) 0
               (map (fun _ => 0%Q) ax) ax);
   ("y", mkVar Algeb None None
               (Some (EAdd (ESym "x") (EMul (ENum (-1)) (ESym "y"))))
               (1 # 1000000) (map (fun _ => 0%Q) ay) ay)].

Definition m_pattern (k : nat) (ax ay : list nat) (addr use : bool) : Model :=
  with_in_use
    (with_flags
       (with_calls
          (with_vars
             (with_data (Model_init "Toy")
                (mkModelData k ∅ [("idx", DataP (repeat PNone k))]))
             (vars_pattern ax ay))
          calls_pattern)
       (set_address Flags_init addr))
    use.

(** Two devices, addresses assigned, in use. *)
Definition m_stored : Model := m_pattern 2 [0; 1] [2; 3] true true.
(** Two devices, addresses assigned, marked as not in use. *)
Definition m_unused : Model := m_pattern 2 [0; 1] [2; 3] true false.
(** No device. *)
Definition m_empty : Model := m_pattern 0 [] [] true true.
(** Two devices, the addresses of [y] one short. *)
Definition m_short : Model := m_pattern 2 [0; 1] [2] true true.

(** ** Models for service resolution and initialisation *)

Definition svc_const5 : odict lam_entry :=
  [("s", LFun (fun _ => Ok (Scalar 5)))].

Definition m_service (use : bool) : Model :=
  with_in_use
    (with_calls
       (with_services
          (with_data (Model_init "Toy")
             (mkModelData 2 ∅ [("idx", DataP [PNone; PNone])]))
          [("s", mkService (Some (ENum 5)) (Array [0; 0]%Q) None)])
       (mkModelCall [] [] [] (Some svc_const5) (fun _ _ => Ok []) ∅ ∅ ∅))
    use.

Definition with_services_ext (m : Model) (ss : odict value) : Model :=
  mkModel (data m) (class_name m) (vars_decl_order m) (services m) ss
    (services_ops m) (services_tc m) (discrete m) (blocks m) (flags m)
    (in_use m) (config m) (calls m) (triplets m) (dae_t m).

(** Two algebraic variables [x] and [y] of two devices, the config option
    [c] with value zero and the external service [w], which holds three
    values. The initializer of [x] is the expression [e], compiled. *)
Definition m_init (e : expr) : Model :=
  with_services_ext
    (with_config
       (with_calls
          (with_vars
             (with_data (Model_init "Toy")
                (mkModelData 2 ∅ [("idx", DataP [PNone; PNone])]))
             [("x", mkVar Algeb (Some e) None None 0 [0; 0]%Q []);
              ("y", mkVar Algeb (Some (ENum 5)) None None 0 [0; 0]%Q [])])
          (mkModelCall [] []
             [("x", LFun (lambdify_scalar [] e));
              ("y", LFun (lambdify_scalar [] (ENum 5)))]
             (Some []) (fun _ _ => Ok []) ∅ ∅ ∅))
       [("c", 0%Q)])
    [("w", Array [1; 2; 3]%Q)].

(** The initializer [c ** -1] divides by zero. *)
Definition m_init_zerodiv : Model := m_init (EPow (ESym "c") (ENum (-1))).
(** The initializer [w] yields three values for two devices. *)
Definition m_init_shape : Model := m_init (ESym "w").

(** A stand-in for the iterative solver: it returns its initial guess. *)
Definition nk_id (F : list Q -> result (list Q)) (x0 : list Q)
  : result (list Q) := Ok x0.

(** ** Power-flow runs *)

(** A solve whose sixth increment is 5000 times the others; the numerical
    state only counts the passes. *)
Definition calc_inc_blowup (s : System nat) : nat * list Q :=
  (S (DAE nat s), [if Nat.eqb (DAE nat s) 5 then 5000%Q else 1%Q]).

Definition add_inc_none (d : nat) (inc : list Q) : nat := d.

Definition sys_blowup (method_name lib_name : string) : System nat :=
  mkSystem nat (mkSPF method_name (1 # 1000) 5 false 0 false)
           (mkConfig lib_name ["umfpack"; "klu"] 0) 0 false "umfpack" [].

Definition fdpf_none (s : System nat) : result (System nat * (bool * nat)) :=
  Ok (s, (true, 1)).


(** The models once resolved, initialised or stored (the models themselves
    when the call raises). *)
Definition or_self (m : Model) (r : result Model) : Model :=
  match r with
  | Ok m' => m'
  | Raise _ => m
  end.

Definition m_service_done : Model := or_self (m_service true) (s_update (m_service true)).
(** [m_init_shape] after the sequential pass of [init]. *)
Definition m_init_shape_done : Model :=
  with_vars m_init_shape
    [("x", mkVar Algeb (Some (ESym "w")) None None 0 [0; 0]%Q []);
     ("y", mkVar Algeb (Some (ENum 5)) None None 0 [5; 5]%Q [])].


(** * Vocabulary and examples of the further properties *)

(** ** Triplets of [ModelCall] *)

(** A sequence of calls of [append_ijv], each given as the name and the
    triplet it appends. *)
Definition append_many (apps : list (string * (nat * nat * jval)))
    (c : ModelCall) : ModelCall :=
  fold_left (fun c' a => append_ijv (fst a) (fst (fst (snd a)))
                                    (snd (fst (snd a))) (snd (snd a)) c')
            apps c.

(** The triplets that a sequence of calls appends under the name [K]. *)
Definition appended_under (K : string)
    (apps : list (string * (nat * nat * jval))) : list (nat * nat * jval) :=
  map snd (List.filter (fun a => String.eqb (fst a) K) apps).

(** ** Device container *)

(** [u] is the last position at which [idxs] holds [i]. *)
Definition last_position (idxs : list idx_t) (i : idx_t) (u : nat) : Prop :=
  idxs !! u = Some i /\ forall u', u < u' -> idxs !! u' <> Some i.

(** Two devices added under the same idx, and a third one. *)
Definition devs_dup : list (gmap string pyval) :=
  [ {[ "idx" := PIdx (IdxInt 7) ]};
    {[ "idx" := PIdx (IdxStr "B") ]};
    {[ "idx" := PIdx (IdxInt 7) ]} ].

Definition idxs_dup : list idx_t := [IdxInt 7; IdxStr "B"; IdxInt 7].

(** ** Power-flow runs *)

(** A linear solve whose increment stays at one, and one whose increment
    vanishes at the third pass; the state counts the solves. *)
Definition calc_inc_steady (s : System nat) : nat * list Q :=
  (S (DAE nat s), [1%Q]).


(** A system with [maxit = 3] that asks for KLU. *)
Definition sys_three : System nat :=
  mkSystem nat (mkSPF "Newton" (1 # 1000) 3 false 0 false)
           (mkConfig "klu" ["umfpack"; "klu"] 0) 0 false "umfpack" [].

Definition nr_steady : NewtonResult nat :=
  match newton nat calc_inc_steady add_inc_none sys_three with
  | Some (Ok r) => r
  | _ => mkNewtonResult nat sys_three false 0 []
  end.


(** The sparse library that [run] ends up with: KLU when it is asked for
    and could be imported, UMFPACK in every other case. *)
Definition selected_lib (KLU : bool) (name : string) : string :=
  if String.eqb name "klu" && KLU then "klu" else "umfpack".

(** ** Symbols and code generation *)


(** A compiler for [init_std] that stands for SymPy's: the residuals are
    not evaluated. *)
Definition lambdify_std_none (iters non_iters : list string) (es : list expr)
    (vars_input : list (list Q)) (params : list value) : result (list Q) :=
  Ok (concat vars_input).

(** A machine with the states [delta] and [omega] and the algebraic
    variable [vf], the config option [w0] and the service [d0]. [delta]
    has an explicit initializer, [omega] an iterative one; [e] is the
    equation of [omega]. *)
Definition m_gen (e : expr) : Model :=
  with_services
    (with_config
       (with_vars (Model_init "Gen")
          [("delta", mkVar State (Some (ESym "d0")) None
                       (Some (ESym "omega")) 0 [] []);
           ("omega", mkVar State None
                       (Some (EAdd (ESym "omega") (EMul (ENum (-1)) (ESym "w0"))))
                       (Some e) 0 [] []);
           ("vf", mkVar Algeb None None None 0 [] [])])
       [("w0", 1%Q)])
    [("d0", mkService (Some (EMul (ENum 2) (ESym "w0"))) (Scalar 0) None)].

(** The equation of [omega] mentions known names only, or the unknown
    name [ghost]. *)
Definition m_gen_ok : Model := m_gen (EMul (ENum (-1)) (ESym "delta")).

(** ** A cache *)

(** The owner's state is a number; [double] is a callable that doubles it,
    [fixed] is registered with a value that is not callable. *)
Definition cache_double : Cache nat nat :=
  add_callback "fixed" (CallVal 7)
    (add_callback "double" (CallFun (fun s => Ok (2 * s))) Cache_init).

(** ** Search of devices *)

(** [pos] is the position of the first of the values [vs] that is equal
    to [x]; no value of [vs] is equal to [x]. *)
Definition first_match (vs : list pyval) (x : pyval) (pos : nat) : Prop :=
  (exists y, vs !! pos = Some y /\ py_eq x y = true) /\
  forall k y, k < pos -> vs !! k = Some y -> py_eq x y = false.

Definition no_match (vs : list pyval) (x : pyval) : Prop :=
  forall y, y ∈ vs -> py_eq x y = false.

(** What [find_idx] returns for the searched value [x], given the values
    [vs] of the parameter and the idx [ids] of the devices. *)
Definition found_for (vs ids : list pyval) (allow_missing : bool)
    (x : pyval) (r : found_idx) : Prop :=
  (exists pos i, first_match vs x pos /\ ids !! pos = Some i /\ r = Idx i) \/
  (no_match vs x /\ allow_missing = true /\ r = IdxFalse).

(** Two buses with their names. *)
Definition m_named : Model :=
  with_data (Model_init "Bus")
    (mkModelData 2 {[ IdxInt 1 := 0; IdxInt 2 := 1 ]}
       [("idx", DataP [PIdx (IdxInt 1); PIdx (IdxInt 2)]);
        ("u", NumP (mkNumParam 1 [1; 1]%Q [1; 1]%Q [1; 1]%Q));
        ("name", DataP [PIdx (IdxStr "Bus1"); PIdx (IdxStr "Bus2")])]).

(** ** Iterative initialisation *)

(** Two devices; [x] and [z] are initialised iteratively, [y] is not. The
    config option [y0] has the name of no variable, [z] has the name of
    the variable [z]. *)
Definition m_iter : Model :=
  with_config
    (with_vars
       (with_data (Model_init "Toy")
          (mkModelData 2 ∅ [("idx", DataP [PNone; PNone])]))
       [("x", mkVar Algeb None (Some (ESym "x")) None 0 [0; 0]%Q []);
        ("y", mkVar Algeb None None None 0 [5; 5]%Q []);
        ("z", mkVar Algeb None (Some (ESym "z")) None 0 [0; 0]%Q [])])
    [("y0", 1%Q); ("z", 9%Q)].


(** ** Services with a numeric function of their own *)

(** Two devices and the service [k], whose numeric function returns the
    scalar three; no expression has been compiled. *)
Definition m_numeric : Model :=
  with_services
    (with_data (Model_init "Toy")
       (mkModelData 2 ∅ [("idx", DataP [PNone; PNone])]))
    [("k", mkService None (Array [0; 0]%Q) (Some (fun _ => Ok (Scalar 3))))].


(** * Properties *)

(** ** Ordered dictionaries and fallible computations *)

Lemma od_get_set_eq {V} (k : string) (v : V) (d : odict V) :
  od_get k (od_set k v d) = Some v.
Proof.
  induction d as [|[k' v'] d IH]; simpl.
  - by rewrite String.eqb_refl.
  - destruct (String.eqb k k') eqn:E; simpl; rewrite E; [done | exact IH].
Qed.

Lemma od_get_set_ne {V} (k k' : string) (v : V) (d : odict V) :
  k <> k' -> od_get k' (od_set k v d) = od_get k' d.
Proof.
  intros Hne. induction d as [|[k0 v0] d IH]; simpl.
  - destruct (String.eqb k' k) eqn:E; [|done].
    apply String.eqb_eq in E. congruence.
  - destruct (String.eqb k k0) eqn:E; simpl.
    + apply String.eqb_eq in E. subst k0.
      destruct (String.eqb k' k) eqn:E'; [|done].
      apply String.eqb_eq in E'. congruence.
    + by rewrite IH.
Qed.

Lemma od_get_is_Some {V} (k : string) (d : odict V) :
  k ∈ od_keys d <-> is_Some (od_get k d).
Proof.
  induction d as [|[k' v'] d IH]; simpl.
  - split; [intros H; inversion H | intros [? ?]; discriminate].
  - destruct (String.eqb k k') eqn:E.
    + apply String.eqb_eq in E. subst. split; [eauto | intros _; left].
    + apply String.eqb_neq in E. rewrite <- IH. unfold od_keys. simpl.
      rewrite elem_of_cons. intuition congruence.
Qed.

Lemma od_keys_set_in {V} (k : string) (v : V) (d : odict V) :
  k ∈ od_keys d -> od_keys (od_set k v d) = od_keys d.
Proof.
  induction d as [|[k' v'] d IH]; simpl; intros Hin.
  - inversion Hin.
  - destruct (String.eqb k k') eqn:E; [done|].
    apply String.eqb_neq in E. unfold od_keys in *. simpl in *.
    apply elem_of_cons in Hin as [?|Hin]; [congruence|].
    by rewrite IH.
Qed.

Lemma bind_Ok {A B} (r : result A) (k : A -> result B) (b : B) :
  bind r k = Ok b -> exists a, r = Ok a /\ k a = Ok b.
Proof. destruct r; simpl; [eauto | discriminate]. Qed.

(** ** The device container *)

Lemma fresh_inv (md : ModelData) : fresh md -> container_inv md [].
Proof.
  intros (Hn & Hu & Hp). split; [exact Hn | split].
  - intros i u. rewrite Hu, lookup_empty, lookup_nil. split; discriminate.
  - intros src p Hs. rewrite Hn. eauto.
Qed.

Lemma param_add_length (x : pyval) (p p' : Param) :
  param_add x p = Ok p' -> length (param_v p') = S (length (param_v p)).
Proof.
  destruct p as [v|np]; simpl.
  - intros [= <-]. simpl. rewrite length_app. simpl. lia.
  - intros H. apply bind_Ok in H as (q & _ & [= <-]). simpl.
    rewrite !length_map, length_app. simpl. lia.
Qed.

Lemma add_params_get (kw : gmap string pyval) (ps ps' : odict Param)
    (src : string) (p' : Param) :
  add_params kw ps = Ok ps' -> od_get src ps' = Some p' ->
  exists p x, od_get src ps = Some p /\ param_add x p = Ok p'.
Proof.
  revert ps'. induction ps as [|[name inst] ps IH]; simpl; intros ps' H Hg.
  - injection H as <-. discriminate.
  - apply bind_Ok in H as (inst' & Hi & H).
    apply bind_Ok in H as (rest & Hr & [= <-]). simpl in Hg.
    destruct (String.eqb src name); [injection Hg as <-; eauto | eauto].
Qed.

Lemma add_inv (kw : gmap string pyval) (md md' : ModelData)
    (idxs : list idx_t) (i : idx_t) :
  container_inv md idxs -> kw !! "idx" = Some (PIdx i) -> i ∉ idxs ->
  add kw md = Ok md' -> container_inv md' (idxs ++ [i]).
Proof.
  intros (Hn & Hu & Hp) Hkw Hni Hadd. unfold add in Hadd. rewrite Hkw in Hadd.
  apply bind_Ok in Hadd as (ps & Hps & [= <-]). split; [|split]; simpl.
  - rewrite length_app. simpl. lia.
  - intros j u. split; intros Hl.
    + destruct (decide (i = j)) as [<-|Hne].
      * rewrite lookup_insert_eq in Hl. injection Hl as <-.
        rewrite Hn. rewrite lookup_app_r by lia. by rewrite Nat.sub_diag.
      * rewrite lookup_insert_ne in Hl by done. apply Hu in Hl.
        by rewrite lookup_app_l by (by eapply lookup_lt_Some).
    + destruct (decide (i = j)) as [<-|Hne].
      * rewrite lookup_insert_eq. f_equal.
        destruct (decide (u < length idxs)) as [Hlt|Hge].
        -- rewrite lookup_app_l in Hl by done.
           exfalso. apply Hni. eapply list_elem_of_lookup_2. exact Hl.
        -- rewrite lookup_app_r in Hl by lia.
           destruct (u - length idxs) as [|k] eqn:E; [lia | by destruct k].
      * rewrite lookup_insert_ne by done. apply Hu.
        destruct (decide (u < length idxs)) as [Hlt|Hge].
        -- by rewrite lookup_app_l in Hl.
        -- rewrite lookup_app_r in Hl by lia.
           destruct (u - length idxs) as [|k]; simpl in Hl;
             [congruence | by destruct k].
  - intros src p Hg.
    destruct (add_params_get _ _ _ _ _ Hps Hg) as (p0 & x & Hg0 & Hx).
    apply param_add_length in Hx. rewrite Hx. f_equal. exact (Hp _ _ Hg0).
Qed.

Lemma add_all_inv (devs : list (gmap string pyval)) :
  forall (md md' : ModelData) (pre idxs : list idx_t),
    container_inv md pre ->
    Forall2 (fun kw i => kw !! "idx" = Some (PIdx i)) devs idxs ->
    NoDup (pre ++ idxs) ->
    add_all devs md = Ok md' -> container_inv md' (pre ++ idxs).
Proof.
  induction devs as [|kw devs IH]; intros md md' pre idxs Hinv HF Hnd Hadd.
  - inversion HF; subst. simpl in Hadd. injection Hadd as <-.
    by rewrite app_nil_r.
  - inversion HF as [|? i ? idxs' Hkw HF']; subst. simpl in Hadd.
    apply bind_Ok in Hadd as (md1 & H1 & Hrest).
    replace (pre ++ i :: idxs') with ((pre ++ [i]) ++ idxs')
      by (by rewrite <- app_assoc).
    eapply IH; [ | exact HF' | by rewrite <- app_assoc | exact Hrest ].
    eapply add_inv; [exact Hinv | exact Hkw | | exact H1].
    apply NoDup_app in Hnd as (_ & Hd & _). intros Hin.
    apply (Hd _ Hin). left.
Qed.

(** C4. After adding devices with pairwise distinct idx to an empty
    container, one at a time, [uid] is a bijection between the idx and the
    positions [0 .. N-1] that sends each idx to its insertion position:
    [idx2uid] of the k-th idx is [k], and [get(src, idx)] is the value that
    parameter [src] holds at position [k]. *)
Theorem add_all_idx2uid_bijection
    (m : Model) (md0 : ModelData) (devs : list (gmap string pyval))
    (idxs : list idx_t) :
  fresh md0 ->
  Forall2 (fun kw i => kw !! "idx" = Some (PIdx i)) devs idxs ->
  NoDup idxs ->
  add_all devs md0 = Ok (data m) ->
  n (data m) = length devs /\
  (forall i u, uid (data m) !! i = Some u <-> idxs !! u = Some i) /\
  (forall i, i ∈ idxs -> exists u, uid (data m) !! i = Some u /\ u < length devs) /\
  (forall u, u < length devs -> exists i, i ∈ idxs /\ uid (data m) !! i = Some u) /\
  (forall i j u, uid (data m) !! i = Some u -> uid (data m) !! j = Some u -> i = j) /\
  (forall k i, idxs !! k = Some i -> idx2uid m (ArgOne i) = Ok (UOne k)) /\
  (forall k i src p, idxs !! k = Some i ->
     od_get src (params (data m)) = Some p ->
     exists x, param_v p !! k = Some x /\ get m src (ArgOne i) = Ok (GOne x)).
Proof.
  intros Hf HF Hnd Hadd.
  destruct (add_all_inv devs md0 (data m) [] idxs (fresh_inv _ Hf) HF Hnd Hadd)
    as (Hn & Hu & Hp). simpl in *.
  assert (Hlen : length devs = length idxs) by (by eapply Forall2_length).
  assert (Hi2u : forall k i, idxs !! k = Some i ->
                 idx2uid m (ArgOne i) = Ok (UOne k)).
  { intros k i Hk. unfold idx2uid. apply Hu in Hk. by rewrite Hk. }
  repeat split.
  - lia.
  - apply Hu.
  - apply Hu.
  - intros i Hin. apply list_elem_of_lookup in Hin as (u & Hk).
    exists u. split; [by apply Hu|]. rewrite Hlen. by eapply lookup_lt_Some.
  - intros u Hlt. rewrite Hlen in Hlt.
    destruct (lookup_lt_is_Some_2 idxs u Hlt) as (i & Hk).
    exists i. split; [by eapply list_elem_of_lookup_2 | by apply Hu].
  - intros i j u Hi Hj. apply Hu in Hi. apply Hu in Hj. congruence.
  - exact Hi2u.
  - intros k i src p Hk Hg.
    assert (Hlt : k < length (param_v p)).
    { rewrite (Hp _ _ Hg), Hn. by eapply lookup_lt_Some. }
    destruct (lookup_lt_is_Some_2 _ _ Hlt) as (x & Hx).
    exists x. split; [exact Hx|].
    unfold get. rewrite (Hi2u _ _ Hk). simpl. rewrite Hg. simpl.
    by rewrite Hx.
Qed.


Lemma od_set_set {V} (k : string) (v1 v2 : V) (d : odict V) :
  od_set k v2 (od_set k v1 d) = od_set k v2 d.
Proof.
  induction d as [|[k' v'] d IH]; simpl.
  - by rewrite String.eqb_refl.
  - destruct (String.eqb k k') eqn:E; simpl; rewrite E; [done | by rewrite IH].
Qed.

Lemma od_keys_set_get {V} (k : string) (v v0 : V) (d : odict V) :
  od_get k d = Some v0 -> od_keys (od_set k v d) = od_keys d.
Proof. intros H. apply od_keys_set_in, od_get_is_Some. eauto. Qed.

(** C10. [alter(src, idx, value)] on a numeric parameter writes [value]
    into [vin] at position [idx2uid(idx)] only, recomputes [v] of every
    device as [vin * pu_coeff] (so the other devices are refreshed from
    their unchanged raw inputs), and leaves every other parameter, every
    variable and the rest of the model as they were. *)
Theorem alter_refreshes_all_devices
    (m : Model) (src : string) (np : NumParam) (idx : idx_t) (u : nat)
    (value : Q) :
  od_get src (params (data m)) = Some (NumP np) ->
  uid (data m) !! idx = Some u ->
  u < length (np_vin np) ->
  length (np_pu_coeff np) = length (np_vin np) ->
  length (np_v np) = length (np_vin np) ->
  exists m',
    alter m src (ArgOne idx) value = Ok m' /\
    od_get src (params (data m')) = Some (NumP (altered np u value)) /\
    np_vin (altered np u value) !! u = Some value /\
    (forall k, k <> u -> np_vin (altered np u value) !! k = np_vin np !! k) /\
    (forall k, k < length (np_vin np) ->
       exists x c, np_vin (altered np u value) !! k = Some x /\
                   np_pu_coeff np !! k = Some c /\
                   np_v (altered np u value) !! k = Some (x * c)%Q) /\
    (forall other, other <> src ->
       od_get other (params (data m')) = od_get other (params (data m))) /\
    od_keys (params (data m')) = od_keys (params (data m)) /\
    m' = with_data m (mkModelData (n (data m)) (uid (data m))
                                  (params (data m'))).
Proof.
  intros Hg Hu Hlt Hc Hv.
  assert (Hset : set m src (ArgOne idx) "vin" value =
                 Ok (with_data m (mkModelData (n (data m)) (uid (data m))
                       (od_set src
                          (NumP (mkNumParam (np_default np)
                                   (<[u := value]> (np_vin np)) (np_v np)
                                   (np_pu_coeff np)))
                          (params (data m)))))).
  { unfold set, idx2uid. rewrite Hu. simpl. rewrite Hg. simpl.
    unfold list_set. apply Nat.ltb_lt in Hlt. by rewrite Hlt. }
  eexists. split.
  { unfold alter. rewrite Hset. simpl. rewrite od_get_set_eq. simpl.
    unfold np_mul. rewrite length_insert, <- Hc, Nat.eqb_refl. simpl.
    unfold np_assign_all. rewrite length_zip_with, length_insert, Hc, Hv.
    rewrite Nat.min_id, Nat.eqb_refl. simpl. rewrite od_set_set. reflexivity. }
  simpl. split; [apply od_get_set_eq|].
  split; [by apply list_lookup_insert_eq|].
  split; [intros k Hk; by apply list_lookup_insert_ne|].
  split.
  { intros k Hk.
    destruct (lookup_lt_is_Some_2 (<[u := value]> (np_vin np)) k) as (x & Hx);
      [by rewrite length_insert|].
    destruct (lookup_lt_is_Some_2 (np_pu_coeff np) k) as (c & Hcx); [lia|].
    exists x, c. split; [exact Hx | split; [exact Hcx|]].
    rewrite lookup_zip_with, Hx. simpl. by rewrite Hcx. }
  split; [intros other Hne; by apply od_get_set_ne|].
  split; [by eapply od_keys_set_get|].
  reflexivity.
Qed.


(** ** The Newton loop *)



Lemma lookup_snoc_last {A} (l : list A) (x y : A) (k : nat) :
  k = length l -> (l ++ [x]) !! k = Some y -> y = x.
Proof.
  intros -> H. rewrite lookup_app_r in H by lia.
  rewrite Nat.sub_diag in H. simpl in H. congruence.
Qed.

Section PowerFlowFacts.

Context {dae : Type}.
Variable calc_inc : System dae -> dae * list Q.
Variable add_inc : dae -> list Q -> dae.

(** How a finished run relates to the mismatches it recorded: every
    pass before the last met none of the three exit tests, and the last
    pass met the first of them that holds. *)
Lemma newton_loop_spec (fuel : nat) :
  forall (system : System dae) (niter : nat) (mis : list Q)
         (r : NewtonResult dae),
    length mis = niter ->
    newton_loop dae calc_inc add_inc fuel system niter mis = Some (Ok r) ->
    (exists x new, iter_mis dae r = mis ++ x :: new) /\
    nr_niter dae r = length (iter_mis dae r) /\
    (forall k x, niter < k < nr_niter dae r ->
       iter_mis dae r !! (k - 1) = Some x ->
       Qltb x (tol (SPF dae system)) = false /\
       blown_up (iter_mis dae r) k x = false /\
       Z.ltb (maxit (SPF dae system)) (Z.of_nat k) = false) /\
    (forall x, iter_mis dae r !! (nr_niter dae r - 1) = Some x ->
       (Qltb x (tol (SPF dae system)) = true /\ convergence dae r = true /\
        warnings dae (nr_system dae r) = warnings dae system) \/
       (Qltb x (tol (SPF dae system)) = false /\
        blown_up (iter_mis dae r) (nr_niter dae r) x = true /\
        convergence dae r = false /\
        warnings dae (nr_system dae r)
        = warnings dae system ++ [BlownUp (nr_niter dae r)]) \/
       (Qltb x (tol (SPF dae system)) = false /\
        blown_up (iter_mis dae r) (nr_niter dae r) x = false /\
        Z.ltb (maxit (SPF dae system)) (Z.of_nat (nr_niter dae r)) = true /\
        convergence dae r = false /\
        warnings dae (nr_system dae r)
        = warnings dae system ++ [ReachedMaxIter])).
Proof.
  induction fuel as [|fuel IH]; intros system niter mis r Hlen H;
    [discriminate|].
  simpl in H. destruct (calc_inc system) as [dae1 inc].
  destruct (max_abs inc) as [max_mis|e]; [|discriminate].
  simpl in H.
  assert (Hfin : forall sys' conv,
            r = mkNewtonResult dae sys' conv (S niter) (mis ++ [max_mis]) ->
            (exists x new, iter_mis dae r = mis ++ x :: new) /\
            nr_niter dae r = length (iter_mis dae r) /\
            (forall k x, niter < k < nr_niter dae r ->
               iter_mis dae r !! (k - 1) = Some x ->
               Qltb x (tol (SPF dae system)) = false /\
               blown_up (iter_mis dae r) k x = false /\
               Z.ltb (maxit (SPF dae system)) (Z.of_nat k) = false)).
  { intros sys' conv ->. simpl. split; [by eexists _, [] | split].
    - rewrite length_app. simpl. lia.
    - intros k x Hk. lia. }
  destruct (Qltb max_mis (tol (SPF dae system))) eqn:Htol.
  { injection H as <-. destruct (Hfin _ _ eq_refl) as (H1 & H2 & H3).
    split; [exact H1 | split; [exact H2 | split; [exact H3|]]].
    simpl. intros x Hx. apply lookup_snoc_last in Hx as ->; [|lia].
    left. done. }
  destruct (Nat.ltb 5 (S niter)
            && Qltb (1000 * default 0 (head (mis ++ [max_mis])))%Q max_mis)
    eqn:Hblow.
  { injection H as <-. destruct (Hfin _ _ eq_refl) as (H1 & H2 & H3).
    split; [exact H1 | split; [exact H2 | split; [exact H3|]]].
    simpl. intros x Hx. apply lookup_snoc_last in Hx as ->; [|lia].
    right. left. done. }
  destruct (Z.ltb (maxit (SPF dae system)) (Z.of_nat (S niter))) eqn:Hmax.
  { injection H as <-. destruct (Hfin _ _ eq_refl) as (H1 & H2 & H3).
    split; [exact H1 | split; [exact H2 | split; [exact H3|]]].
    simpl. intros x Hx. apply lookup_snoc_last in Hx as ->; [|lia].
    right. right. done. }
  apply IH in H; [|rewrite length_app; simpl; lia].
  simpl in H. destruct H as ((x0 & new & Hmis) & Hn & Hmid & Hend).
  assert (Hhead : head (iter_mis dae r) = head (mis ++ [max_mis])).
  { rewrite Hmis. destruct mis; done. }
  split; [exists max_mis, (x0 :: new); by rewrite Hmis, <- app_assoc|].
  split; [exact Hn|]. split; [|exact Hend].
  intros k x Hk Hx. destruct (decide (k = S niter)) as [->|Hne].
  - rewrite Hmis in Hx. rewrite lookup_app_l in Hx
      by (rewrite length_app; simpl; lia).
    apply lookup_snoc_last in Hx as ->; [|lia].
    unfold blown_up. rewrite Hhead. done.
  - apply Hmid; [lia | exact Hx].
Qed.



End PowerFlowFacts.


(** ** The entry function of the power flow *)

Section RunFacts.

Context {dae : Type}.
Variable KLU : bool.
Variable calc_inc : System dae -> dae * list Q.
Variable add_inc : dae -> list Q -> dae.
Variable fdpf : System dae -> result (System dae * (bool * nat)).
Variable post_processing : System dae -> System dae.

Lemma select_lib_method (system : System dae) :
  method (SPF dae (select_lib dae KLU system)) = method (SPF dae system).
Proof. unfold select_lib. by destruct (_ && _). Qed.

(** C8. Once the sparse library has passed the assertion, a method name
    outside of NR, Newton, FDPF, FDBX and FDXB is replaced by NR and the
    run is that of the Newton routine; a name among the five is kept and
    the run is that of the routine [solvers] maps it to. *)
Theorem run_method_fallback (system : System dae) :
  sparselib (sys_config dae system) ∈ sparselib_alt (sys_config dae system) ->
  let system1 := select_lib dae KLU system in
  (method (SPF dae system) ∉ ["NR"; "Newton"; "FDPF"; "FDBX"; "FDXB"] ->
   let system2 := set_SPF dae system1 (set_method (SPF dae system1) "NR") in
   method (SPF dae system2) = "NR" /\
   run dae KLU calc_inc add_inc fdpf post_processing system
   = finish_run dae post_processing
       (newton_routine dae calc_inc add_inc system2)) /\
  (method (SPF dae system) ∈ ["NR"; "Newton"; "FDPF"; "FDBX"; "FDXB"] ->
   method (SPF dae system1) = method (SPF dae system) /\
   exists func_name routine,
     od_get (method (SPF dae system)) solvers = Some func_name /\
     routine_of dae calc_inc add_inc fdpf func_name = Some routine /\
     run dae KLU calc_inc add_inc fdpf post_processing system
     = finish_run dae post_processing (routine system1)).
Proof.
  intros Hlib system1. unfold run.
  rewrite (bool_decide_eq_true_2 _ Hlib). simpl.
  fold system1. pose proof (select_lib_method system) as Hm.
  fold system1 in Hm. split.
  - intros Hnot. rewrite Hm.
    rewrite (bool_decide_eq_false_2 _ Hnot). simpl. done.
  - intros Hin. split; [exact Hm|]. rewrite Hm.
    rewrite (bool_decide_eq_true_2 _ Hin). simpl. rewrite Hm.
    set_unfold in Hin.
    destruct Hin as [->|[->|[->|[->|[->|[]]]]]]; simpl; eauto.
Qed.

End RunFacts.


(** ** Storage of the sparsity pattern *)

Lemma dd_get_append {A} (d : gmap string (list A)) (k k' : string) (x : A) :
  dd_get (dd_append d k x) k'
  = if decide (k' = k) then dd_get d k' ++ [x] else dd_get d k'.
Proof.
  unfold dd_append, dd_get. destruct (decide (k' = k)) as [->|Hne].
  - by rewrite lookup_insert_eq.
  - by rewrite lookup_insert_ne.
Qed.

Lemma store_triplet_cases (m : Model) (j : string) (t : JacTriplet)
    (rcv : nat * nat * jval) :
  triplet_ok m j rcv = true ->
  store_triplet m j t rcv
  = if triplet_mismatch m j rcv
    then Raise (ValueError (NonMatchingIdx (class_name m)))
    else Ok (JacTriplet_append_ijv j (row_idx_of m j rcv) (col_idx_of m j rcv)
                                   (value_of m j rcv) t).
Proof.
  destruct rcv as [[row col] val].
  unfold triplet_ok, triplet_mismatch, row_idx_of, col_idx_of, value_of,
    store_triplet. simpl.
  destruct (triplet_addrs m j row col) as [a|e]; [|discriminate]. simpl.
  destruct (triplet_value m j val) as [x|e]; [|discriminate]. simpl.
  intros _. by destruct (negb _).
Qed.

Lemma store_inner_ok (m : Model) (j : string) (l : list (nat * nat * jval)) :
  forall t,
    forallb (triplet_ok m j) l = true ->
    existsb (triplet_mismatch m j) l = false ->
    exists t', foldR (store_triplet m j) l t = Ok t' /\ appended m j l t t'.
Proof.
  induction l as [|rcv l IH]; intros t Hok Hmis; simpl in *.
  - exists t. split; [done|]. intros k. destruct (decide (k = j));
      by rewrite !app_nil_r.
  - apply andb_true_iff in Hok as [Hok1 Hok].
    apply orb_false_iff in Hmis as [Hmis1 Hmis].
    rewrite (store_triplet_cases _ _ _ _ Hok1), Hmis1. simpl.
    destruct (IH (JacTriplet_append_ijv j (row_idx_of m j rcv)
                    (col_idx_of m j rcv) (value_of m j rcv) t) Hok Hmis)
      as (t' & Hrun & Happ).
    exists t'. split; [exact Hrun|]. intros k.
    destruct (Happ k) as (Hi & Hj & Hv). rewrite Hi, Hj, Hv. simpl.
    rewrite !dd_get_append.
    destruct (decide (k = j)); by rewrite <- ?app_assoc, ?app_nil_r.
Qed.

Lemma store_inner_raise (m : Model) (j : string) (l : list (nat * nat * jval)) :
  forall t,
    forallb (triplet_ok m j) l = true ->
    existsb (triplet_mismatch m j) l = true ->
    foldR (store_triplet m j) l t
    = Raise (ValueError (NonMatchingIdx (class_name m))).
Proof.
  induction l as [|rcv l IH]; intros t Hok Hmis; simpl in *; [discriminate|].
  apply andb_true_iff in Hok as [Hok1 Hok].
  rewrite (store_triplet_cases _ _ _ _ Hok1).
  destruct (triplet_mismatch m j rcv); simpl in *; [done|]. by apply IH.
Qed.

Lemma store_outer_ok (m : Model) (names : list string) :
  NoDup names ->
  forall t,
    forallb (fun j => forallb (triplet_ok m j) (zip_ijv (calls m) j)) names = true ->
    existsb (fun j => existsb (triplet_mismatch m j) (zip_ijv (calls m) j)) names
    = false ->
    exists t',
      foldR (fun t' j => foldR (store_triplet m j) (zip_ijv (calls m) j) t')
            names t = Ok t'
      /\ appended_all m names t t'.
Proof.
  induction 1 as [|j names Hnin Hnd IH]; intros t Hok Hmis; simpl in *.
  - exists t. split; [done|]. intros k. by rewrite !app_nil_r.
  - apply andb_true_iff in Hok as [Hok1 Hok].
    apply orb_false_iff in Hmis as [Hmis1 Hmis].
    destruct (store_inner_ok m j _ t Hok1 Hmis1) as (t1 & Hrun1 & Happ1).
    rewrite Hrun1. simpl.
    destruct (IH t1 Hok Hmis) as (t' & Hrun & Happ).
    exists t'. split; [exact Hrun|]. intros k.
    destruct (Happ k) as (Hi & Hj & Hv). destruct (Happ1 k) as (Hi1 & Hj1 & Hv1).
    rewrite Hi, Hj, Hv, Hi1, Hj1, Hv1.
    repeat case_decide; subst; rewrite ?app_nil_r; try done;
      exfalso; match goal with
               | H : ~ _ ∈ _ :: _ |- _ => apply H; rewrite elem_of_cons; tauto
               | H : _ ∈ _ :: _ |- _ =>
                   apply elem_of_cons in H as [?|?]; done
               end.
Qed.

Lemma store_outer_raise (m : Model) (names : list string) :
  forall t,
    forallb (fun j => forallb (triplet_ok m j) (zip_ijv (calls m) j)) names = true ->
    existsb (fun j => existsb (triplet_mismatch m j) (zip_ijv (calls m) j)) names
    = true ->
    foldR (fun t' j => foldR (store_triplet m j) (zip_ijv (calls m) j) t')
          names t
    = Raise (ValueError (NonMatchingIdx (class_name m))).
Proof.
  induction names as [|j names IH]; intros t Hok Hmis; simpl in *;
    [discriminate|].
  apply andb_true_iff in Hok as [Hok1 Hok].
  destruct (existsb (triplet_mismatch m j) (zip_ijv (calls m) j)) eqn:E.
  - by rewrite (store_inner_raise m j _ t Hok1 E).
  - destruct (store_inner_ok m j _ t Hok1 E) as (t1 & Hrun1 & _).
    rewrite Hrun1. simpl. by apply IH.
Qed.

Lemma jac_full_names_NoDup : NoDup jac_full_names.
Proof. apply (bool_decide_unpack _). vm_compute. exact I. Qed.

Lemma store_sparse_pattern_unfold (m : Model) :
  n (data m) <> 0 -> address (flags m) = true ->
  store_sparse_pattern m
  = bind (store_triplets m (pattern_base m))
         (fun t2 => Ok (with_triplets m t2)).
Proof.
  intros Hn Ha. unfold store_sparse_pattern. simpl.
  apply Nat.eqb_neq in Hn. rewrite Hn, Ha. simpl.
  unfold j_numeric. destruct (j_num (flags m)); reflexivity.
Qed.

(** C5. When the pattern of a model with devices and assigned addresses is
    stored, and every compiled triplet refers to an equation and a variable
    of the model: a triplet whose row-address and column-address arrays
    differ in length makes the operation raise the error about non-matching
    indices; when no triplet does, no error is raised and the arrays of
    every triplet are appended, in order, to the lists of its Jacobian. *)
Theorem store_sparse_pattern_fail_fast (m : Model) :
  n (data m) <> 0 ->
  address (flags m) = true ->
  calls_ok m = true ->
  (has_mismatch m = true ->
   store_sparse_pattern m = Raise (ValueError (NonMatchingIdx (class_name m))))
  /\
  (has_mismatch m = false ->
   exists t',
     store_sparse_pattern m = Ok (with_triplets m t') /\
     forall j, j ∈ jac_full_names ->
       dd_get (t_ijac t') j
       = dd_get (t_ijac (pattern_base m)) j
         ++ map (row_idx_of m j) (zip_ijv (calls m) j)
       /\ dd_get (t_jjac t') j
          = dd_get (t_jjac (pattern_base m)) j
            ++ map (col_idx_of m j) (zip_ijv (calls m) j)
       /\ dd_get (t_vjac t') j
          = dd_get (t_vjac (pattern_base m)) j
            ++ map (value_of m j) (zip_ijv (calls m) j)).
Proof.
  intros Hn Ha Hok. rewrite (store_sparse_pattern_unfold m Hn Ha).
  unfold store_triplets, calls_ok, has_mismatch in *. split; intros Hmis.
  - by rewrite (store_outer_raise m _ _ Hok Hmis).
  - destruct (store_outer_ok m _ jac_full_names_NoDup (pattern_base m) Hok Hmis)
      as (t' & Hrun & Happ).
    exists t'. rewrite Hrun. split; [done|]. intros j Hj.
    destruct (Happ j) as (Hi & Hjj & Hv).
    by repeat case_decide.
Qed.


(** ** Models that are skipped *)

Lemma JacTriplet_clear_get (t : JacTriplet) (K : string) :
  K ∈ jac_full_names ->
  dd_get (t_ijac (JacTriplet_clear_ijv t)) K = [] /\
  dd_get (t_jjac (JacTriplet_clear_ijv t)) K = [] /\
  dd_get (t_vjac (JacTriplet_clear_ijv t)) K = [].
Proof.
  intros HK. unfold JacTriplet_clear_ijv, dd_get.
  induction jac_full_names as [|k ks IH]; [inversion HK|]. simpl.
  destruct (decide (K = k)) as [->|Hne].
  - by rewrite !lookup_insert_eq.
  - rewrite !lookup_insert_ne by done. apply IH.
    apply elem_of_cons in HK as [?|?]; done.
Qed.

(** C6, as the code has it. For a model without devices the assembly is
    skipped: the store is cleared and nothing is appended, whatever the
    flags. The mark [in_use] is not consulted: the pattern of a model is
    stored in the same way whether it is marked as in use or not. *)
Theorem store_sparse_pattern_skips_without_devices (m : Model) :
  (n (data m) = 0 ->
   store_sparse_pattern m
   = Ok (with_triplets m (JacTriplet_clear_ijv (triplets m))) /\
   forall K, K ∈ jac_full_names ->
     dd_get (t_ijac (JacTriplet_clear_ijv (triplets m))) K = [] /\
     dd_get (t_jjac (JacTriplet_clear_ijv (triplets m))) K = [] /\
     dd_get (t_vjac (JacTriplet_clear_ijv (triplets m))) K = []) /\
  (forall b,
     store_sparse_pattern (with_in_use m b)
     = result_map (fun m' => with_in_use m' b) (store_sparse_pattern m)).
Proof.
  split.
  - intros Hn. split.
    + unfold store_sparse_pattern. simpl. by rewrite Hn.
    + intros K HK. by apply JacTriplet_clear_get.
  - intros b. unfold store_sparse_pattern. simpl.
    destruct (Nat.eqb (n (data m)) 0); [done|].
    destruct (address (flags m)); simpl; [|done].
    unfold j_numeric.
    replace (if j_num (flags m)
             then with_triplets (with_in_use m b) (JacTriplet_clear_ijv (triplets m))
             else with_triplets (with_in_use m b) (JacTriplet_clear_ijv (triplets m)))
      with (with_triplets (with_in_use m b) (JacTriplet_clear_ijv (triplets m)))
      by (by destruct (j_num (flags m))).
    replace (if j_num (flags m)
             then with_triplets m (JacTriplet_clear_ijv (triplets m))
             else with_triplets m (JacTriplet_clear_ijv (triplets m)))
      with (with_triplets m (JacTriplet_clear_ijv (triplets m)))
      by (by destruct (j_num (flags m))).
    simpl.
    change (store_triplets
              (with_triplets (with_in_use m b) (JacTriplet_clear_ijv (triplets m))))
      with (store_triplets
              (with_triplets m (JacTriplet_clear_ijv (triplets m)))).
    by destruct (store_triplets _ _).
Qed.


(** ** Loops over ordered dictionaries *)

Lemma od_loop_app {A} (f : odict A -> string -> A -> result A)
    (l1 l2 : odict A) :
  forall acc,
    od_loop f acc (l1 ++ l2)
    = bind (od_loop (fun cur => f (cur ++ l2)) acc l1)
           (fun d1 => od_loop f d1 l2).
Proof.
  induction l1 as [|[k x] l1 IH]; intros acc; simpl; [done|].
  rewrite <- app_assoc. simpl.
  destruct (f (acc ++ (k, x) :: l1 ++ l2) k x) as [x'|e]; simpl; [|done].
  apply IH.
Qed.

(** The loop keeps what is done, and maps every remaining instance to the
    result of the body on it, in some state of the dictionary. *)
Lemma od_loop_shape {A} (f : odict A -> string -> A -> result A)
    (todo : odict A) :
  forall acc res,
    od_loop f acc todo = Ok res ->
    exists todo',
      res = acc ++ todo' /\
      Forall2 (fun kx kx' => fst kx = fst kx' /\
                             exists cur, f cur (fst kx) (snd kx) = Ok (snd kx'))
              todo todo'.
Proof.
  induction todo as [|[k x] todo IH]; intros acc res H; simpl in H.
  - injection H as <-. exists []. by rewrite app_nil_r.
  - apply bind_Ok in H as (x' & Hx & H).
    destruct (IH _ _ H) as (todo' & -> & HF).
    exists ((k, x') :: todo'). split; [by rewrite <- app_assoc|].
    constructor; [simpl; eauto | exact HF].
Qed.

Lemma od_loop_head {A} (f : odict A -> string -> A -> result A)
    (acc rest res : odict A) (k : string) (x : A) :
  od_loop f acc ((k, x) :: rest) = Ok res ->
  exists x', f (acc ++ (k, x) :: rest) k x = Ok x' /\
             res !! length acc = Some (k, x').
Proof.
  simpl. intros H. apply bind_Ok in H as (x' & Hx & H).
  exists x'. split; [exact Hx|].
  destruct (od_loop_shape _ _ _ _ H) as (todo' & -> & _).
  rewrite <- app_assoc. rewrite lookup_app_r by lia.
  by rewrite Nat.sub_diag.
Qed.

(** An instance on which the body does nothing, whatever the state of the
    dictionary, is found unchanged at its position. *)
Lemma od_loop_fixed {A} (f : odict A -> string -> A -> result A)
    (todo res : odict A) (i : nat) (k : string) (x : A) :
  od_loop f [] todo = Ok res ->
  todo !! i = Some (k, x) ->
  (forall cur, f cur k x = Ok x) ->
  res !! i = Some (k, x).
Proof.
  intros H Hi Hf. destruct (od_loop_shape _ _ _ _ H) as (todo' & -> & HF).
  simpl. destruct (Forall2_lookup_l _ _ _ _ _ HF Hi) as ([k' x'] & Hi' & Hk & cur & Hx).
  simpl in *. subst k'. rewrite Hf in Hx. by injection Hx as <-.
Qed.

Lemma Qmult_1_r_eq (c : Q) : (c * 1)%Q = c.
Proof.
  destruct c as [a b]. unfold Qmult. simpl.
  by rewrite Z.mul_1_r, Pos.mul_1_r.
Qed.

Lemma times_ones_repeat (c : Q) (k : nat) : times_ones c k = repeat c k.
Proof.
  unfold times_ones. induction k as [|k IH]; simpl; [done|].
  by rewrite Qmult_1_r_eq, IH.
Qed.

(** ** Service resolution *)

(** C9, as the code has it. In a model with devices that is in use, when
    the loop over the services reaches a service whose entry of
    [s_lambdify] is a callable and which has no numeric function of its
    own: if the callable returns a scalar, the service ends up with the
    vector of [n] copies of that scalar; if it returns an array, the
    service ends up with that array. *)
Theorem s_update_broadcasts_scalars
    (m m' : Model) (sl : odict lam_entry) (pre pre' post : odict Service)
    (name : string) (instance : Service) (f : pyfun) (x : value) :
  n (data m) <> 0 ->
  in_use m = true ->
  s_lambdify (calls m) = Some sl ->
  services m = pre ++ (name, instance) :: post ->
  od_loop (fun cur => s_update_lambdify
                        (with_services m (cur ++ (name, instance) :: post)) sl)
          [] pre = Ok pre' ->
  od_get name sl = Some (LFun f) ->
  s_v_numeric instance = None ->
  f (get_inputs (with_services m (pre' ++ (name, instance) :: post))) = Ok x ->
  s_update m = Ok m' ->
  exists instance',
    services m' !! length pre = Some (name, instance') /\
    s_v instance' = match x with
                    | Scalar c => Array (repeat c (n (data m)))
                    | Array l => Array l
                    end.
Proof.
  intros Hn Hu Hsl Hss Hpre Hf Hnum Hx Hrun.
  unfold s_update in Hrun. apply Nat.eqb_neq in Hn. rewrite Hn, Hu, Hsl in Hrun.
  simpl in Hrun.
  assert (Hne : Nat.eqb (length sl) 0 = false).
  { destruct sl; [discriminate | done]. }
  rewrite Hne in Hrun. simpl in Hrun.
  apply bind_Ok in Hrun as (ss1 & H1 & Hrun).
  apply bind_Ok in Hrun as (ss2 & H2 & [= <-]).
  unfold s_numeric. simpl.
  rewrite Hss, od_loop_app, Hpre in H1. simpl in H1.
  assert (Hlen : length pre' = length pre).
  { destruct (od_loop_shape _ _ _ _ Hpre) as (todo' & -> & HF).
    simpl. symmetry. by eapply Forall2_length. }
  pose proof H1 as H1'.
  apply bind_Ok in H1' as (inst1 & Hi1 & _).
  unfold s_update_lambdify in Hi1. rewrite Hf in Hi1. simpl in Hi1.
  rewrite Hx in Hi1. simpl in Hi1. injection Hi1 as <-.
  destruct (od_loop_head _ _ _ _ _ _ H1) as (inst1 & Hi1 & Hpos).
  unfold s_update_lambdify in Hi1. rewrite Hf in Hi1. simpl in Hi1.
  rewrite Hx in Hi1. simpl in Hi1. injection Hi1 as <-.
  eexists. split.
  - rewrite <- Hlen. eapply od_loop_fixed; [exact H2 | exact Hpos |].
    intros cur. unfold s_update_numeric. simpl. by rewrite Hnum.
  - simpl. destruct x as [c|l]; [by rewrite times_ones_repeat | done].
Qed.


(** ** Initialisation *)

Section InitFacts.

Variable newton_krylov :
  (list Q -> result (list Q)) -> list Q -> result (list Q).

(** C7, as the code has it. When the sequential pass of [init] reaches a
    variable whose initializer raises [ValueError] (in the call or in
    the assignment of its result), the variable keeps its value and the
    pass goes on with the remaining variables in declaration order; if
    no other step raises, [init] returns with the flag [initialized]
    set. *)
Theorem init_swallows_ValueError
    (m m1 m3 : Model) (pre pre' post vs : odict Var) (name : string)
    (instance : Var) (e : expr) (f : pyfun) (msg : errmsg) :
  s_update m = Ok m1 ->
  vars_decl_order m1 = pre ++ (name, instance) :: post ->
  od_loop (fun cur => init_one (with_vars m1 (cur ++ (name, instance) :: post)))
          [] pre = Ok pre' ->
  v_str instance = Some e ->
  od_get name (init_lambdify (calls m1)) = Some (LFun f) ->
  bind (f (get_inputs (with_vars m1 (pre' ++ (name, instance) :: post))))
       (np_assign (var_v instance)) = Raise (ValueError msg) ->
  od_loop (fun cur => init_one (with_vars m1 cur))
          (pre' ++ [(name, instance)]) post = Ok vs ->
  (if nr_iter (flags m1) then init_iter newton_krylov (with_vars m1 vs)
   else Ok (with_vars m1 vs)) = Ok m3 ->
  init_one (with_vars m1 (pre' ++ (name, instance) :: post)) name instance
  = Ok instance /\
  od_loop (fun cur => init_one (with_vars m1 cur)) [] (vars_decl_order m1)
  = Ok vs /\
  vs !! length pre = Some (name, instance) /\
  init newton_krylov m = Ok (with_flags m3 (set_initialized (flags m3) true)) /\
  initialized (flags (with_flags m3 (set_initialized (flags m3) true))) = true.
Proof.
  intros Hs Hv Hpre He Hf Hraise Hpost Hiter.
  assert (Hone : init_one (with_vars m1 (pre' ++ (name, instance) :: post))
                          name instance = Ok instance).
  { unfold init_one. rewrite He. simpl. rewrite Hf. simpl.
    unfold bind in Hraise. simpl in Hraise.
    destruct (f _) as [x|e0]; simpl in *.
    - by rewrite Hraise.
    - by injection Hraise as ->. }
  assert (Hloop : od_loop (fun cur => init_one (with_vars m1 cur)) []
                          (vars_decl_order m1) = Ok vs).
  { rewrite Hv, od_loop_app, Hpre. simpl. rewrite Hone. simpl. exact Hpost. }
  assert (Hlen : length pre' = length pre).
  { destruct (od_loop_shape _ _ _ _ Hpre) as (todo' & -> & HF).
    simpl. symmetry. by eapply Forall2_length. }
  split; [exact Hone | split; [exact Hloop | split]].
  - destruct (od_loop_shape _ _ _ _ Hpost) as (todo' & -> & _).
    rewrite <- app_assoc, lookup_app_r by lia.
    by rewrite Hlen, Nat.sub_diag.
  - unfold init. rewrite Hs. simpl. rewrite Hloop. simpl.
    unfold v_numeric.
    destruct (nr_iter (flags m1)); rewrite Hiter; simpl; done.
Qed.

End InitFacts.


(** ** The symbol table *)






Lemma map_fst_diag (ks : list string) : map fst (map (fun k : string => (k, k)) ks) = ks.
Proof. induction ks; simpl; congruence. Qed.







(** ** Generation of the Jacobians *)

Lemma od_set_fresh {V} (k : string) (v : V) (d : odict V) :
  k ∉ od_keys d -> od_set k v d = d ++ [(k, v)].
Proof.
  induction d as [|[k0 v0] d IH]; simpl; intros Hn; [done|].
  apply not_elem_of_cons in Hn as [Hne Hn].
  destruct (String.eqb k k0) eqn:E.
  - apply String.eqb_eq in E. done.
  - by rewrite IH.
Qed.

Lemma put_all_NoDup {V} (kvs : list (string * V)) :
  forall d,
    NoDup (od_keys d ++ map fst kvs) -> put_all kvs d = d ++ kvs.
Proof.
  unfold put_all. induction kvs as [|[k v] kvs IH]; intros d Hnd; simpl.
  - by rewrite app_nil_r.
  - simpl in Hnd.
    assert (Hk : k ∉ od_keys d).
    { apply NoDup_app in Hnd as (_ & Hd & _). intros Hin.
      apply (Hd _ Hin). left. }
    rewrite (od_set_fresh _ _ _ Hk), IH.
    + by rewrite <- app_assoc.
    + unfold od_keys. rewrite map_app, <- app_assoc. exact Hnd.
Qed.

Lemma od_get_lookup {V} (d : odict V) (i : nat) (k : string) (v : V) :
  NoDup (od_keys d) -> d !! i = Some (k, v) -> od_get k d = Some v.
Proof.
  revert i. induction d as [|[k0 v0] d IH]; intros i Hnd Hi; [done|].
  simpl in *. apply NoDup_cons in Hnd as [Hn Hnd].
  destruct i as [|i]; simpl in Hi.
  - injection Hi as -> ->. by rewrite String.eqb_refl.
  - destruct (String.eqb k k0) eqn:E.
    + apply String.eqb_eq in E. subst k0. exfalso. apply Hn.
      apply list_elem_of_lookup. exists i. unfold od_keys.
      by rewrite list_lookup_fmap, Hi.
    + by eapply IH.
Qed.

Lemma all_vars_split (m : Model) :
  all_vars m = states_and_ext m ++ algebs_and_ext m.
Proof. unfold all_vars, states_and_ext, algebs_and_ext. by rewrite <- app_assoc. Qed.

Lemma eqs_of_kind (m : Model) (blk : nat) (kv : string * Var) :
  kv ∈ eqs_of m blk -> e_code (kind (snd kv)) = ecode_of blk.
Proof.
  unfold eqs_of, ecode_of, states_and_ext, algebs_and_ext, states, states_ext,
    algebs, algebs_ext, of_kind.
  destruct (Nat.eqb blk 0); rewrite elem_of_app, !list_elem_of_In, !filter_In;
    intros [[_ H]|[_ H]]; apply bool_decide_eq_true in H; by rewrite H.
Qed.

Lemma eqs_of_all_vars (m : Model) (blk i : nat) (kv : string * Var) :
  eqs_of m blk !! i = Some kv ->
  exists j, all_vars m !! j = Some kv.
Proof.
  rewrite all_vars_split. unfold eqs_of. destruct (Nat.eqb blk 0); intros H.
  - exists i. by apply lookup_app_l_Some.
  - exists (length (states_and_ext m) + i).
    rewrite lookup_app_r by lia. by replace (_ + i - _) with i by lia.
Qed.

Lemma row_list_spec (M : list (list expr)) (i j : nat) (e : expr) :
  (i, j, e) ∈ row_list M <->
  exists row, M !! i = Some row /\ row !! j = Some e /\ is_zero e = false.
Proof.
  unfold row_list. rewrite list_elem_of_In, in_concat. split.
  - intros (l & Hl & Hin). apply list_elem_of_In in Hl.
    apply elem_of_lookup_imap in Hl as (i' & row & -> & Hrow).
    apply filter_In in Hin as [Hin Hnz]. apply list_elem_of_In in Hin.
    apply elem_of_lookup_imap in Hin as (j' & e' & [= -> -> ->] & He).
    exists row. simpl in Hnz. apply negb_true_iff in Hnz. done.
  - intros (row & Hrow & He & Hnz). eexists. split.
    + apply list_elem_of_In.
      apply (elem_of_lookup_imap_2
               (fun i row => List.filter (fun ije => negb (is_zero (snd ije)))
                               (imap (fun j e => (i, j, e)) row)) _ _ _ Hrow).
    + apply filter_In. split.
      * apply list_elem_of_In.
        apply (elem_of_lookup_imap_2 (fun j e => (i, j, e)) _ _ _ He).
      * simpl. by rewrite Hnz.
Qed.

Lemma clear_ijv_get (c : ModelCall) (K : string) :
  K ∈ jac_full_names ->
  dd_get (ijac (clear_ijv c)) K = [] /\ dd_get (jjac (clear_ijv c)) K = [].
Proof.
  intros HK. unfold clear_ijv, dd_get.
  induction jac_full_names as [|k ks IH]; [inversion HK|]. simpl.
  destruct (decide (K = k)) as [->|Hne].
  - by rewrite !lookup_insert_eq.
  - rewrite !lookup_insert_ne by done. apply IH.
    apply elem_of_cons in HK as [?|?]; done.
Qed.

Lemma pairs_append (c : ModelCall) (k K : string) (i j : nat) (v : jval) :
  length (dd_get (ijac c) K) = length (dd_get (jjac c) K) ->
  pairs (append_ijv k i j v c) K
  = pairs c K ++ (if decide (k = K) then [(i, j)] else [])
  /\ length (dd_get (ijac (append_ijv k i j v c)) K)
     = length (dd_get (jjac (append_ijv k i j v c)) K).
Proof.
  intros Hlen. unfold pairs. simpl. rewrite !dd_get_append.
  repeat case_decide; subst; try done.
  - rewrite zip_with_app by done.
    rewrite !length_app. simpl. split; [done | lia].
  - by rewrite app_nil_r.
Qed.

(** A loop each pass of which appends one triplet, or nothing. *)
Lemma foldR_append_pairs {A} (step : ModelCall -> A -> result ModelCall)
    (keep : A -> bool) (key : A -> string) (row col : A -> nat)
    (val : A -> jval) (l : list A) (K : string) :
  forall c,
    (forall c0 item, item ∈ l ->
       step c0 item = Ok (if keep item
                          then append_ijv (key item) (row item) (col item)
                                          (val item) c0
                          else c0)) ->
    length (dd_get (ijac c) K) = length (dd_get (jjac c) K) ->
    exists c',
      foldR step l c = Ok c' /\
      length (dd_get (ijac c') K) = length (dd_get (jjac c') K) /\
      forall p, p ∈ pairs c' K <->
                p ∈ pairs c K \/
                exists item, item ∈ l /\ keep item = true /\ key item = K /\
                             p = (row item, col item).
Proof.
  induction l as [|x l IH]; intros c Hstep Hlen; simpl.
  - exists c. split; [done | split; [done|]]. intros p. split; [by left|].
    intros [?|(item & Hin & _)]; [done | inversion Hin].
  - rewrite (Hstep c x) by left. simpl.
    set (c1 := if keep x then append_ijv (key x) (row x) (col x) (val x) c else c).
    assert (H1 : length (dd_get (ijac c1) K) = length (dd_get (jjac c1) K) /\
                 forall p, p ∈ pairs c1 K <->
                           p ∈ pairs c K \/
                           (keep x = true /\ key x = K /\ p = (row x, col x))).
    { unfold c1. destruct (keep x).
      - destruct (pairs_append c (key x) K (row x) (col x) (val x) Hlen)
          as [Hp Hl]. split; [exact Hl|]. intros p. rewrite Hp, elem_of_app.
        destruct (decide (key x = K)).
        + rewrite list_elem_of_singleton. intuition congruence.
        + split; [intros [?|H]; [by left | inversion H] | intuition congruence].
      - split; [exact Hlen|]. intuition congruence. }
    destruct H1 as [Hl1 Hp1].
    destruct (IH c1) as (c' & Hrun & Hl' & Hp'); [|exact Hl1|].
    { intros c0 item Hin. apply Hstep. by right. }
    exists c'. split; [exact Hrun | split; [exact Hl'|]].
    intros p. rewrite Hp', Hp1. split.
    + intros [[?|(Hk & Hkey & ->)]|(item & Hin & H)].
      * by left.
      * right. exists x. split; [left|done].
      * right. exists item. split; [by right | exact H].
    + intros [?|(item & Hin & Hk & Hkey & ->)]; [by left; left|].
      apply elem_of_cons in Hin as [->|Hin].
      * left; right. done.
      * right. exists item. done.
Qed.


Lemma list_index_is_Some (x : string) (l : list string) :
  x ∈ l -> exists i, list_index x l = Some i.
Proof.
  induction l as [|y l IH]; intros Hin; [inversion Hin|]. simpl.
  destruct (String.eqb x y) eqn:E; [eauto|].
  apply String.eqb_neq in E. apply elem_of_cons in Hin as [?|Hin]; [done|].
  destruct (IH Hin) as (i & ->). simpl. eauto.
Qed.

Lemma generate_symbols_vars (m : Model) :
  NoDup (all_vars_names m) ->
  let sp := generate_symbols SymProcessor_init m in
  od_keys (vars_dict sp) = all_vars_names m /\ vars_list sp = all_vars_names m.
Proof.
  intros Hnd. simpl. rewrite put_all_NoDup.
  - simpl. unfold od_keys, od_values. rewrite !map_map. simpl.
    rewrite !map_id. done.
  - simpl. by rewrite map_fst_diag.
Qed.

Section JacobianFacts.

Variable sym_diff : expr -> string -> expr.
Variable lambdify : list string -> expr -> pyfun.

Lemma gen_eqs_fst (sp : SymProcessor) (cls : string) (it : odict Var) :
  forall r,
    gen_eqs lambdify sp cls it = Ok r ->
    fst r = map (fun kv => residual (snd kv)) it.
Proof.
  induction it as [|[name inst] it IH]; intros r H; simpl in H.
  - by injection H as <-.
  - unfold residual at 1. simpl. destruct (e_str inst) as [e|].
    + apply bind_Ok in H as (u & _ & H). apply bind_Ok in H as (r' & Hr & H).
      injection H as <-. simpl. by rewrite (IH _ Hr).
    + apply bind_Ok in H as (r' & Hr & H).
      injection H as <-. simpl. by rewrite (IH _ Hr).
Qed.

Lemma generate_equations_fields (sp0 sp : SymProcessor) (m : Model)
    (c1 : ModelCall) :
  generate_equations lambdify sp0 m = Ok (sp, c1) ->
  inputs_dict sp = inputs_dict sp0 /\ vars_dict sp = vars_dict sp0 /\
  vars_list sp = vars_list sp0 /\
  f_list sp = map (fun kv => residual (snd kv)) (states_and_ext m) /\
  g_list sp = map (fun kv => residual (snd kv)) (algebs_and_ext m).
Proof.
  unfold generate_equations. intros H.
  apply bind_Ok in H as (f & Hf & H). apply bind_Ok in H as (g & Hg & H).
  apply bind_Ok in H as (sl & _ & H). injection H as <- <-. simpl.
  by rewrite (gen_eqs_fst _ _ _ _ Hf), (gen_eqs_fst _ _ _ _ Hg).
Qed.

Lemma jacobian_lookup (eqs : odict Var) (vars : list string)
    (i j : nat) (e : expr) :
  (exists row, jacobian sym_diff (map (fun kv => residual (snd kv)) eqs) vars !! i
               = Some row /\ row !! j = Some e) <->
  exists kv vname, eqs !! i = Some kv /\ vars !! j = Some vname /\
                   e = sym_diff (residual (snd kv)) vname.
Proof.
  unfold jacobian. split.
  - intros (row & Hrow & He).
    rewrite !list_lookup_fmap in Hrow.
    destruct (eqs !! i) as [kv|]; [|done]. simpl in Hrow.
    injection Hrow as <-. rewrite list_lookup_fmap in He.
    destruct (vars !! j) as [vname|]; [|done]. simpl in He.
    injection He as <-. eauto.
  - intros (kv & vname & Hkv & Hv & ->). eexists. split.
    + rewrite !list_lookup_fmap, Hkv. simpl. reflexivity.
    + by rewrite list_lookup_fmap, Hv.
Qed.

Lemma jac_entry_append (sp : SymProcessor) (m : Model) (blk : nat)
    (c : ModelCall) (item : nat * nat * expr) :
  NoDup (all_vars_names m) ->
  od_keys (vars_dict sp) = all_vars_names m ->
  item ∈ row_list (jacobian sym_diff
                     (map (fun kv => residual (snd kv)) (eqs_of m blk))
                     (all_vars_names m)) ->
  jac_entry lambdify sp m blk c item
  = Ok (append_ijv (key_of m blk item) (fst (fst item)) (snd (fst item))
          (JFun (lambdify (od_keys (inputs_dict sp)) (snd item))) c).
Proof.
  intros Hnd Hvd Hin. destruct item as [[i j] e].
  apply row_list_spec in Hin as (row & Hrow & He & _).
  destruct (proj1 (jacobian_lookup _ _ _ _ _) (ex_intro _ row (conj Hrow He)))
    as ([ename eqn] & vname & Hkv & Hv & ->).
  unfold all_vars_names, od_keys in Hv. rewrite list_lookup_fmap in Hv.
  destruct (all_vars m !! j) as [[vn var]|] eqn:Hj; [|done].
  simpl in Hv. injection Hv as <-.
  destruct (eqs_of_all_vars m blk i _ Hkv) as (i' & Hi').
  assert (H1 : od_keys (eqs_of m blk) !! i = Some ename).
  { unfold od_keys. by rewrite list_lookup_fmap, Hkv. }
  assert (H2 : od_keys (vars_dict sp) !! j = Some vn).
  { rewrite Hvd. unfold all_vars_names, od_keys.
    by rewrite list_lookup_fmap, Hj. }
  assert (H3 : e_code (kind eqn) = ecode_of blk).
  { apply (eqs_of_kind m blk (ename, eqn)).
    apply list_elem_of_lookup. eauto. }
  unfold jac_entry, key_of. simpl. fold (eqs_of m blk).
  rewrite H1, H2. simpl.
  rewrite (od_get_lookup _ _ _ _ Hnd Hi'), (od_get_lookup _ _ _ _ Hnd Hj).
  simpl. by rewrite Hj, H3.
Qed.

Lemma jac_diag_eps_append (sp : SymProcessor) (m : Model) (c : ModelCall)
    (kv : string * Var) :
  od_keys (vars_dict sp) = all_vars_names m ->
  kv ∈ algebs m ->
  jac_diag_eps sp m c kv
  = Ok (if negb (Qeq_bool (diag_eps (snd kv)) 0)
        then append_ijv "gyc" (eps_row m kv) (eps_col m kv)
                        (JNum (diag_eps (snd kv))) c
        else c).
Proof.
  intros Hvd Hin. unfold jac_diag_eps, eps_row, eps_col.
  destruct (Qeq_bool _ _); simpl; [done|]. rewrite Hvd.
  assert (H1 : fst kv ∈ od_keys (algebs_and_ext m)).
  { unfold od_keys, algebs_and_ext. rewrite map_app, elem_of_app. left.
    apply list_elem_of_fmap. eauto. }
  assert (H2 : fst kv ∈ all_vars_names m).
  { unfold all_vars_names. rewrite all_vars_split. unfold od_keys in *.
    rewrite map_app, elem_of_app. by right. }
  destruct (list_index_is_Some _ _ H1) as (i & ->).
  destruct (list_index_is_Some _ _ H2) as (j & ->). done.
Qed.

(** The pairs stored under every Jacobian name once [generate_jacobians]
    has run: those of the non-zero entries of the two symbolic Jacobians,
    filed under the name of their block, and those of [diag_eps]. *)
Lemma generate_jacobians_pairs (sp : SymProcessor) (m : Model)
    (c c1 : ModelCall) :
  NoDup (all_vars_names m) ->
  generate_equations lambdify (generate_symbols SymProcessor_init m) m
  = Ok (sp, c1) ->
  exists c',
    generate_jacobians sym_diff lambdify sp m c = Ok c' /\
    forall K p, K ∈ jac_full_names ->
      (p ∈ pairs c' K <->
       (exists blk item,
          (blk = 0 \/ blk = 1) /\
          item ∈ row_list (jacobian sym_diff
                             (map (fun kv => residual (snd kv)) (eqs_of m blk))
                             (all_vars_names m)) /\
          key_of m blk item = K /\ p = (fst (fst item), snd (fst item))) \/
       (exists kv, kv ∈ algebs m /\ Qeq_bool (diag_eps (snd kv)) 0 = false /\
                   "gyc" = K /\ p = (eps_row m kv, eps_col m kv))).
Proof.
  intros Hnd Hgen.
  destruct (generate_symbols_vars m Hnd) as [Hvd0 Hvl0].
  destruct (generate_equations_fields _ _ _ _ Hgen)
    as (_ & Hvd & Hvl & Hf & Hg).
  assert (Hvd' : od_keys (vars_dict sp) = all_vars_names m) by (by rewrite Hvd).
  rewrite Hvl0 in Hvl. clear Hvd0 Hvl0.
  unfold generate_jacobians. rewrite Hf, Hg, Hvl.
  assert (Hall : forall K, K ∈ jac_full_names ->
    exists c',
      (let* c1 := foldR (jac_entry lambdify sp m 0)
                    (row_list (jacobian sym_diff
                       (map (fun kv => residual (snd kv)) (states_and_ext m))
                       (all_vars_names m))) (clear_ijv c) in
       let* c2 := foldR (jac_entry lambdify sp m 1)
                    (row_list (jacobian sym_diff
                       (map (fun kv => residual (snd kv)) (algebs_and_ext m))
                       (all_vars_names m))) c1 in
       foldR (jac_diag_eps sp m) (algebs m) c2) = Ok c' /\
      forall p,
        (p ∈ pairs c' K <->
         (exists blk item,
            (blk = 0 \/ blk = 1) /\
            item ∈ row_list (jacobian sym_diff
                               (map (fun kv => residual (snd kv)) (eqs_of m blk))
                               (all_vars_names m)) /\
            key_of m blk item = K /\ p = (fst (fst item), snd (fst item))) \/
         (exists kv, kv ∈ algebs m /\ Qeq_bool (diag_eps (snd kv)) 0 = false /\
                     "gyc" = K /\ p = (eps_row m kv, eps_col m kv)))).
  { intros K HK. destruct (clear_ijv_get c K HK) as [Hi0 Hj0].
    destruct (foldR_append_pairs (jac_entry lambdify sp m 0) (fun _ => true)
                (key_of m 0) (fun it => fst (fst it)) (fun it => snd (fst it))
                (fun it => JFun (lambdify (od_keys (inputs_dict sp)) (snd it)))
                (row_list (jacobian sym_diff
                   (map (fun kv => residual (snd kv)) (eqs_of m 0))
                   (all_vars_names m))) K (clear_ijv c))
      as (ca & Hra & Hla & Hpa).
    { intros c0 item Hin. by apply jac_entry_append. }
    { by rewrite Hi0, Hj0. }
    destruct (foldR_append_pairs (jac_entry lambdify sp m 1) (fun _ => true)
                (key_of m 1) (fun it => fst (fst it)) (fun it => snd (fst it))
                (fun it => JFun (lambdify (od_keys (inputs_dict sp)) (snd it)))
                (row_list (jacobian sym_diff
                   (map (fun kv => residual (snd kv)) (eqs_of m 1))
                   (all_vars_names m))) K ca)
      as (cb & Hrb & Hlb & Hpb).
    { intros c0 item Hin. by apply jac_entry_append. }
    { exact Hla. }
    destruct (foldR_append_pairs (jac_diag_eps sp m)
                (fun kv => negb (Qeq_bool (diag_eps (snd kv)) 0))
                (fun _ => "gyc") (eps_row m) (eps_col m)
                (fun kv => JNum (diag_eps (snd kv))) (algebs m) K cb)
      as (cc & Hrc & _ & Hpc).
    { intros c0 kv Hin. by apply jac_diag_eps_append. }
    { exact Hlb. }
    exists cc. split.
    { change (states_and_ext m) with (eqs_of m 0).
      change (algebs_and_ext m) with (eqs_of m 1).
      rewrite Hra. simpl. rewrite Hrb. simpl. exact Hrc. }
    intros p. rewrite Hpc, Hpb, Hpa. unfold pairs at 1. rewrite Hi0. simpl.
    split.
    - intros [[[H|(item & Hin & _ & Hk & ->)]|(item & Hin & _ & Hk & ->)]
             |(kv & Hin & Hk & Hkey & ->)].
      + inversion H.
      + left. exists 0, item. eauto.
      + left. exists 1, item. eauto.
      + right. exists kv. apply negb_true_iff in Hk. eauto.
    - intros [(blk & item & [->| ->] & Hin & Hk & ->)|(kv & Hin & Hk & Hkey & ->)].
      + left; left; right. exists item. eauto.
      + left; right. exists item. eauto.
      + right. exists kv. rewrite Hk. eauto. }
  destruct (Hall "fx") as (c' & Hrun & _);
    [apply (bool_decide_unpack _); by vm_compute|].
  exists c'. split; [exact Hrun|]. intros K p HK.
  destruct (Hall K HK) as (c'' & Hrun' & Hp). rewrite Hrun in Hrun'.
  injection Hrun' as <-. apply Hp.
Qed.


Lemma list_index_lookup (x : string) (l : list string) (i : nat) :
  list_index x l = Some i -> l !! i = Some x.
Proof.
  revert i. induction l as [|y l IH]; intros i H; [done|]. simpl in H.
  destruct (String.eqb x y) eqn:E.
  - apply String.eqb_eq in E. by injection H as <-; subst.
  - destruct (list_index x l) as [k|]; [|done]. injection H as <-.
    simpl. by apply IH.
Qed.

Lemma row_list_jacobian (m : Model) (blk i j : nat) (e : expr) :
  (i, j, e) ∈ row_list (jacobian sym_diff
                          (map (fun kv => residual (snd kv)) (eqs_of m blk))
                          (all_vars_names m)) <->
  exists kv kv', eqs_of m blk !! i = Some kv /\ all_vars m !! j = Some kv' /\
                 e = sym_diff (residual (snd kv)) (fst kv') /\
                 is_zero e = false.
Proof.
  rewrite row_list_spec. split.
  - intros (row & Hrow & He & Hnz).
    destruct (proj1 (jacobian_lookup _ _ _ _ _) (ex_intro _ row (conj Hrow He)))
      as (kv & vname & Hkv & Hv & ->).
    unfold all_vars_names, od_keys in Hv. rewrite list_lookup_fmap in Hv.
    destruct (all_vars m !! j) as [kv'|] eqn:Hj; [|done].
    injection Hv as <-. exists kv, kv'. done.
  - intros (kv & kv' & Hkv & Hj & -> & Hnz).
    destruct (proj2 (jacobian_lookup (eqs_of m blk) (all_vars_names m) i j
                       (sym_diff (residual (snd kv)) (fst kv'))))
      as (row & Hrow & He).
    { exists kv, (fst kv'). split; [done | split; [|done]].
      unfold all_vars_names, od_keys. by rewrite list_lookup_fmap, Hj. }
    exists row. done.
Qed.

(** C2. Once the equations of a model have been processed, the
    generation of the Jacobians files under each of [fx], [fy], [gx] and
    [gy] exactly the (row, col) pairs of the equations of that kind and
    the variables of that kind whose symbolic derivative is structurally
    non-zero; under [gyc] exactly the diagonal positions of the algebraic
    variables with a non-zero [diag_eps]; and nothing under the other
    constant Jacobians. *)
Theorem generate_jacobians_exact (sp : SymProcessor) (m : Model)
    (c c1 : ModelCall) :
  NoDup (all_vars_names m) ->
  generate_equations lambdify (generate_symbols SymProcessor_init m) m
  = Ok (sp, c1) ->
  exists c',
    generate_jacobians sym_diff lambdify sp m c = Ok c' /\
    (forall blk vc i j,
       blk = 0 \/ blk = 1 -> vc = "x" \/ vc = "y" ->
       ((i, j) ∈ pairs c' (ecode_of blk +:+ vc) <->
        exists kv kv',
          eqs_of m blk !! i = Some kv /\ all_vars m !! j = Some kv' /\
          v_code (kind (snd kv')) = vc /\
          is_zero (sym_diff (residual (snd kv)) (fst kv')) = false)) /\
    (forall i j,
       (i, j) ∈ pairs c' "gyc" <->
       exists kv, kv ∈ algebs m /\ Qeq_bool (diag_eps (snd kv)) 0 = false /\
                  i = eps_row m kv /\ j = eps_col m kv) /\
    (forall kv, kv ∈ algebs m ->
       od_keys (algebs_and_ext m) !! eps_row m kv = Some (fst kv) /\
       all_vars_names m !! eps_col m kv = Some (fst kv)) /\
    (forall K, K ∈ ["fxc"; "fyc"; "gxc"] -> pairs c' K = []).
Proof.
  intros Hnd Hgen.
  destruct (generate_jacobians_pairs sp m c c1 Hnd Hgen) as (c' & Hrun & Hp).
  exists c'. split; [exact Hrun|]. split; [|split; [|split]].
  - intros blk vc i j Hblk Hvc.
    assert (HK : ecode_of blk +:+ vc ∈ jac_full_names).
    { destruct Hblk as [-> | ->], Hvc as [-> | ->];
        apply (bool_decide_unpack _); by vm_compute. }
    rewrite (Hp _ _ HK). split.
    + intros [(blk' & [[i' j'] e] & Hblk' & Hin & Hkey & [= -> ->])
             |(kv & _ & _ & Hkey & _)].
      * apply row_list_jacobian in Hin as (kv & kv' & Hkv & Hj & -> & Hnz).
        unfold key_of in Hkey. simpl in Hkey. rewrite Hj in Hkey.
        assert (blk' = blk /\ v_code (kind (snd kv')) = vc) as [-> Hv].
        { destruct Hblk as [-> | ->], Hblk' as [-> | ->]; simpl in Hkey;
            try discriminate; injection Hkey as Hkey; done. }
        exists kv, kv'. done.
      * exfalso. destruct Hblk as [-> | ->], Hvc as [-> | ->]; discriminate.
    + intros (kv & kv' & Hkv & Hj & Hv & Hnz). left.
      exists blk, (i, j, sym_diff (residual (snd kv)) (fst kv')).
      split; [exact Hblk|]. split; [|split; [|done]].
      * apply row_list_jacobian. exists kv, kv'. done.
      * unfold key_of. simpl. by rewrite Hj, Hv.
  - intros i j. rewrite (Hp "gyc"); [|apply (bool_decide_unpack _); by vm_compute].
    split.
    + intros [(blk & [[i' j'] e] & Hblk & Hin & Hkey & _)
             |(kv & Hin & Hk & _ & [= -> ->])].
      * exfalso. apply row_list_jacobian in Hin as (kv & kv' & _ & Hj & _).
        unfold key_of in Hkey. simpl in Hkey. rewrite Hj in Hkey.
        destruct Hblk as [-> | ->], (kind (snd kv')); discriminate.
      * exists kv. done.
    + intros (kv & Hin & Hk & -> & ->). right. exists kv. done.
  - intros kv Hin. unfold eps_row, eps_col.
    assert (H1 : fst kv ∈ od_keys (algebs_and_ext m)).
    { unfold od_keys, algebs_and_ext. rewrite map_app, elem_of_app. left.
      apply list_elem_of_fmap. eauto. }
    assert (H2 : fst kv ∈ all_vars_names m).
    { unfold all_vars_names. rewrite all_vars_split. unfold od_keys in *.
      rewrite map_app, elem_of_app. by right. }
    destruct (list_index_is_Some _ _ H1) as (i & Hi).
    destruct (list_index_is_Some _ _ H2) as (j & Hj).
    rewrite Hi, Hj. simpl. split; by apply list_index_lookup.
  - intros K HK.
    assert (HK' : K ∈ jac_full_names).
    { set_unfold in HK. destruct HK as [->|[->|[->|[]]]];
        apply (bool_decide_unpack _); by vm_compute. }
    apply elem_of_nil_inv. intros p Hin. apply (Hp _ _ HK') in Hin.
    destruct Hin as [(blk & [[i' j'] e] & Hblk & Hin & Hkey & _)
                    |(kv & _ & _ & Hkey & _)].
    + apply row_list_jacobian in Hin as (kv & kv' & _ & Hj & _).
      unfold key_of in Hkey. simpl in Hkey. rewrite Hj in Hkey.
      set_unfold in HK.
      destruct HK as [->|[->|[->|[]]]], Hblk as [-> | ->], (kind (snd kv'));
        discriminate.
    + set_unfold in HK. destruct HK as [->|[->|[->|[]]]]; discriminate.
Qed.

End JacobianFacts.


(** * The statements on the example models *)

(** ** Device container *)

Lemma two_devices_positions :
  n (data m_two) = 2 /\
  idx2uid m_two (ArgOne (IdxStr "B")) = Ok (UOne 1) /\
  exists x, get m_two "name" (ArgOne (IdxStr "B")) = Ok (GOne x).
Proof.
  assert (Hf : fresh ModelData_init).
  { split; [reflexivity | split; [reflexivity|]].
    intros src p. simpl.
    destruct (String.eqb src "idx"); [intros [= <-]; reflexivity|].
    destruct (String.eqb src "u"); [intros [= <-]; reflexivity|].
    destruct (String.eqb src "name"); [intros [= <-]; reflexivity|].
    discriminate. }
  assert (HF : Forall2 (fun kw i => kw !! "idx" = Some (PIdx i))
                       devs_two idxs_two).
  { repeat constructor; vm_compute; reflexivity. }
  assert (Hnd : NoDup idxs_two).
  { apply (bool_decide_unpack _). vm_compute. exact I. }
  assert (Hadd : add_all devs_two ModelData_init = Ok (data m_two)).
  { vm_compute. reflexivity. }
  destruct (add_all_idx2uid_bijection m_two ModelData_init devs_two idxs_two
              Hf HF Hnd Hadd) as (Hn & _ & _ & _ & _ & Hi & Hg).
  split; [exact Hn | split].
  - apply (Hi 1). reflexivity.
  - destruct (Hg 1 (IdxStr "B") "name"
                 (DataP [PIdx (IdxStr "PQ_1"); PIdx (IdxStr "B")]))
      as (x & _ & Hx); [reflexivity | vm_compute; reflexivity |].
    exists x. exact Hx.
Defined.

Lemma stale_value_refreshed :
  exists m',
    alter m_alter "p0" (ArgOne (IdxInt 2)) 4%Q = Ok m' /\
    od_get "p0" (params (data m'))
    = Some (NumP (mkNumParam 0 [1; 4]%Q [1 * (1 # 2); 4 * (1 # 2)]%Q
                             [(1 # 2); (1 # 2)]%Q)) /\
    od_get "u" (params (data m')) = od_get "u" (params (data m_alter)).
Proof.
  destruct (alter_refreshes_all_devices m_alter "p0" p0_stale (IdxInt 2) 1 4%Q)
    as (m' & Hrun & Hp & _ & _ & _ & Hother & _).
  - reflexivity.
  - vm_compute. reflexivity.
  - simpl. lia.
  - reflexivity.
  - reflexivity.
  - exists m'. split; [exact Hrun | split; [exact Hp|]].
    apply Hother. discriminate.
Defined.

(** ** Newton loop *)


(** ** Sparse pattern *)

Lemma pattern_stored_or_refused :
  store_sparse_pattern m_short = Raise (ValueError (NonMatchingIdx "Toy")) /\
  exists t',
    store_sparse_pattern m_stored = Ok (with_triplets m_stored t') /\
    dd_get (t_ijac t') "gx" = [[2; 3]] /\ dd_get (t_jjac t') "gx" = [[0; 1]].
Proof.
  split.
  - apply (proj1 (store_sparse_pattern_fail_fast m_short
                    ltac:(simpl; lia) eq_refl eq_refl)).
    vm_compute. reflexivity.
  - destruct (proj2 (store_sparse_pattern_fail_fast m_stored
                       ltac:(simpl; lia) eq_refl eq_refl))
      as (t' & Hrun & Hall); [vm_compute; reflexivity|].
    exists t'. split; [exact Hrun|].
    destruct (Hall "gx") as (Hi & Hj & _).
    + apply (bool_decide_unpack _). vm_compute. exact I.
    + split; [exact Hi | exact Hj].
Defined.

(** C5 as stated fails on a model without devices: its triplets all have
    matching (empty) address arrays and no error is raised, but the
    triplet of [fx] is not appended. *)
Lemma store_sparse_pattern_not_appended :
  n (data m_empty) = 0 /\
  has_mismatch m_empty = false /\
  length (zip_ijv (calls m_empty) "fx") = 1 /\
  exists m', store_sparse_pattern m_empty = Ok m' /\
             dd_get (t_ijac (triplets m')) "fx" = [].
Proof.
  split; [reflexivity | split; [vm_compute; reflexivity | split]].
  - vm_compute. reflexivity.
  - eexists. split; [reflexivity|]. vm_compute. reflexivity.
Qed.

Lemma empty_model_cleared :
  store_sparse_pattern m_empty
  = Ok (with_triplets m_empty (JacTriplet_clear_ijv (triplets m_empty))) /\
  store_sparse_pattern (with_in_use m_stored false)
  = result_map (fun m' => with_in_use m' false) (store_sparse_pattern m_stored).
Proof.
  split.
  - apply (proj1 (store_sparse_pattern_skips_without_devices m_empty)).
    reflexivity.
  - apply (proj2 (store_sparse_pattern_skips_without_devices m_stored)).
Defined.

(** C6 as stated fails on a model that is marked as not in use, has
    devices and has its addresses assigned: its triplets are appended. *)
Lemma store_sparse_pattern_ignores_in_use :
  in_use m_unused = false /\
  exists m', store_sparse_pattern m_unused = Ok m' /\
             dd_get (t_ijac (triplets m')) "fx" = [[0; 1]] /\
             dd_get (t_jjac (triplets m')) "fx" = [[0; 1]].
Proof.
  split; [reflexivity|]. eexists. split; [vm_compute; reflexivity|].
  split; vm_compute; reflexivity.
Qed.

(** ** Service resolution *)

Lemma constant_service_broadcast :
  exists instance',
    services m_service_done !! 0 = Some ("s", instance') /\
    s_v instance' = Array [5; 5]%Q.
Proof.
  apply (s_update_broadcasts_scalars (m_service true) m_service_done svc_const5
           [] [] [] "s" (mkService (Some (ENum 5)) (Array [0; 0]%Q) None)
           (fun _ => Ok (Scalar 5)) (Scalar 5)).
  - simpl. lia.
  - reflexivity.
  - reflexivity.
  - reflexivity.
  - reflexivity.
  - reflexivity.
  - reflexivity.
  - reflexivity.
  - vm_compute. reflexivity.
Defined.

(** C9 as stated fails on a model that has devices and is marked as not in
    use: the service whose callable returns the scalar 5 keeps the value
    it had. *)
Lemma s_update_skips_unused_model :
  n (data (m_service false)) = 2 /\
  (exists f, od_get "s" svc_const5 = Some (LFun f) /\
             f (get_inputs (m_service false)) = Ok (Scalar 5)) /\
  s_update (m_service false) = Ok (m_service false) /\
  od_get "s" (services (m_service false))
  = Some (mkService (Some (ENum 5)) (Array [0; 0]%Q) None).
Proof.
  split; [reflexivity | split; [|split; reflexivity]].
  eexists. split; reflexivity.
Qed.

(** ** Initialisation *)

Lemma shape_error_recovered :
  init nk_id m_init_shape
  = Ok (with_flags m_init_shape_done
          (set_initialized (flags m_init_shape_done) true)) /\
  od_get "x" (vars_decl_order m_init_shape_done)
  = Some (mkVar Algeb (Some (ESym "w")) None None 0 [0; 0]%Q []) /\
  od_get "y" (vars_decl_order m_init_shape_done)
  = Some (mkVar Algeb (Some (ENum 5)) None None 0 [5; 5]%Q []).
Proof.
  destruct (init_swallows_ValueError nk_id m_init_shape m_init_shape
              m_init_shape_done [] [] 
              [("y", mkVar Algeb (Some (ENum 5)) None None 0 [0; 0]%Q [])]
              (vars_decl_order m_init_shape_done) "x"
              (mkVar Algeb (Some (ESym "w")) None None 0 [0; 0]%Q [])
              (ESym "w") (lambdify_scalar [] (ESym "w")) ShapeMismatch)
    as (_ & _ & _ & Hrun & _).
  - vm_compute. reflexivity.
  - reflexivity.
  - reflexivity.
  - reflexivity.
  - reflexivity.
  - vm_compute. reflexivity.
  - vm_compute. reflexivity.
  - vm_compute. reflexivity.
  - split; [exact Hrun | split; vm_compute; reflexivity].
Defined.

(** C7 as stated fails on an initializer that divides by zero: the
    [ZeroDivisionError] is not swallowed and [init] raises it. *)
Lemma init_raises_ZeroDivisionError :
  lambdify_scalar [] (EPow (ESym "c") (ENum (-1))) (get_inputs m_init_zerodiv)
  = Raise ZeroDivisionError /\
  init nk_id m_init_zerodiv = Raise ZeroDivisionError.
Proof. split; vm_compute; reflexivity. Qed.

(** ** Entry function *)

Lemma unknown_method_runs_newton :
  run nat false calc_inc_blowup add_inc_none fdpf_none (fun s => s)
      (sys_blowup "XYZ" "umfpack")
  = finish_run nat (fun s => s)
      (newton_routine nat calc_inc_blowup add_inc_none
         (sys_blowup "NR" "umfpack")) /\
  exists func_name routine,
    od_get "FDPF" solvers = Some func_name /\
    routine_of nat calc_inc_blowup add_inc_none fdpf_none func_name
    = Some routine /\
    run nat false calc_inc_blowup add_inc_none fdpf_none (fun s => s)
        (sys_blowup "FDPF" "umfpack")
    = finish_run nat (fun s => s) (routine (sys_blowup "FDPF" "umfpack")).
Proof.
  split.
  - apply (proj1 (run_method_fallback false calc_inc_blowup add_inc_none
                    fdpf_none (fun s => s) (sys_blowup "XYZ" "umfpack")
                    ltac:(apply (bool_decide_unpack _); vm_compute; exact I))).
    apply (bool_decide_unpack _). vm_compute. exact I.
  - apply (proj2 (run_method_fallback false calc_inc_blowup add_inc_none
                    fdpf_none (fun s => s) (sys_blowup "FDPF" "umfpack")
                    ltac:(apply (bool_decide_unpack _); vm_compute; exact I))).
    apply (bool_decide_unpack _). vm_compute. exact I.
Defined.

(** C8 as stated fails on a run whose sparse library is not among the
    permitted ones: the assertion at the top of [run] fails before the
    method name is looked at. *)
Lemma run_fails_on_sparselib :
  ("XYZ" ∉ od_keys solvers) /\
  run nat false calc_inc_blowup add_inc_none fdpf_none (fun s => s)
      (sys_blowup "XYZ" "cholmod")
  = Some (Raise (AssertionError (InvalidSparseLib "cholmod"))).
Proof.
  split; [apply (bool_decide_unpack _); vm_compute; exact I|].
  vm_compute. reflexivity.
Qed.

(** ** Symbols *)



(** ** Jacobians *)

Lemma toy_jacobian_pairs :
  exists c',
    generate_jacobians deriv lambdify_scalar sp_xy m_xy c_xy = Ok c' /\
    ((0, 1) ∈ pairs c' "gy" <->
     exists kv kv',
       eqs_of m_xy 1 !! 0 = Some kv /\ all_vars m_xy !! 1 = Some kv' /\
       v_code (kind (snd kv')) = "y" /\
       is_zero (deriv (residual (snd kv)) (fst kv')) = false).
Proof.
  destruct (generate_jacobians_exact deriv lambdify_scalar sp_xy m_xy c_xy c_xy)
    as (c' & Hrun & Hfg & _).
  - apply (bool_decide_unpack _). vm_compute. exact I.
  - vm_compute. reflexivity.
  - exists c'. split; [exact Hrun|].
    apply (Hfg 1 "y" 0 1); right; reflexivity.
Defined.


(** * Further properties of the code *)

(** ** Fallible maps and folds *)

Lemma mapR_Ok {A B} (f : A -> result B) (l : list A) (ys : list B) :
  mapR f l = Ok ys <-> Forall2 (fun x y => f x = Ok y) l ys.
Proof.
  revert ys. induction l as [|x l IH]; intros ys; simpl.
  - split; [intros [= <-]; constructor | intros H; by inversion H].
  - split.
    + intros H. apply bind_Ok in H as (y & Hy & H).
      apply bind_Ok in H as (ys' & Hys & [= <-]).
      constructor; [exact Hy | by apply IH].
    + intros H. inversion H as [|? y ? ys' Hy Hys]; subst.
      rewrite Hy. simpl. apply IH in Hys. by rewrite Hys.
Qed.

Lemma mapR_Raise {A B} (f : A -> result B) (l : list A) (e : exn) :
  (forall x e', f x = Raise e' -> e' = e) ->
  (exists x, x ∈ l /\ exists e', f x = Raise e') ->
  mapR f l = Raise e.
Proof.
  intros Hf. induction l as [|x l IH]; intros (x0 & Hin & e' & Hx0).
  - inversion Hin.
  - simpl. destruct (f x) as [y|e1] eqn:Hx; simpl.
    + apply elem_of_cons in Hin as [->|Hin]; [congruence|].
      rewrite IH; [done | eauto].
    + by rewrite (Hf _ _ Hx).
Qed.

Lemma list_set_Ok {A} (l l' : list A) (i : nat) (x : A) :
  list_set l i x = Ok l' <-> i < length l /\ l' = <[i := x]> l.
Proof.
  unfold list_set. destruct (Nat.ltb i (length l)) eqn:E.
  - apply Nat.ltb_lt in E. split; [intros [= <-]; done | intros [_ ->]; done].
  - apply Nat.ltb_ge in E. split; [discriminate | intros [? _]; lia].
Qed.

Lemma zip_with_repeat_l (x : Q) (l : list Q) :
  zip_with Qmult (repeat x (length l)) l = map (Qmult x) l.
Proof. induction l as [|y l IH]; simpl; [done | by rewrite IH]. Qed.

Lemma np_assign_all_length (dst src v : list Q) :
  np_assign_all dst src = Ok v -> length v = length dst.
Proof.
  unfold np_assign_all. destruct (Nat.eqb (length src) (length dst)) eqn:E.
  - apply Nat.eqb_eq in E. by intros [= <-].
  - destruct src as [|x [|? ?]]; try discriminate.
    intros [= <-]. by rewrite repeat_length.
Qed.

Lemma np_assign_all_dst (dst dst' src : list Q) :
  length dst = length dst' -> np_assign_all dst src = np_assign_all dst' src.
Proof. unfold np_assign_all. by intros ->. Qed.


(** ** Lookup and update by idx *)

(** X1. [get(src, idx)] on a list of idx is [get] on each idx: it succeeds
    exactly when every single lookup does, and returns their values in the
    order of the list; one unknown idx and the call raises [KeyError],
    with no partial result. *)
Theorem get_list_pointwise
    (m : Model) (src : string) (p : Param) (l : list idx_t) :
  od_get src (params (data m)) = Some p ->
  (forall xs,
     get m src (ArgMany l) = Ok (GMany xs) <->
     Forall2 (fun i x => get m src (ArgOne i) = Ok (GOne x)) l xs) /\
  ((exists i, i ∈ l /\ uid (data m) !! i = None) ->
   idx2uid m (ArgMany l) = Raise KeyError /\
   get m src (ArgMany l) = Raise KeyError).
Proof.
  intros Hp. split.
  - intros xs. unfold get. simpl. rewrite Hp. simpl. split.
    + intros H. apply bind_Ok in H as (u & Hu & H).
      apply bind_Ok in Hu as (us & Hus & [= <-]).
      apply bind_Ok in H as (xs' & Hxs & [= <-]).
      apply mapR_Ok in Hus. apply mapR_Ok in Hxs.
      revert xs' Hxs. induction Hus as [|i u l us Hi Hus IH]; intros xs' Hxs.
      * inversion Hxs. constructor.
      * inversion Hxs as [|? x ? xs0 Hx Hxs0]; subst. constructor; [|by apply IH].
        destruct (uid (data m) !! i) as [u'|]; [|done]. simpl in *.
        injection Hi as ->. destruct (param_v p !! u); [|done].
        simpl in *. by injection Hx as ->.
    + intros HF.
      assert (exists us,
                Forall2 (fun i u => of_option KeyError (uid (data m) !! i) = Ok u) l us
                /\ Forall2 (fun u x => of_option IndexError (param_v p !! u) = Ok x)
                           us xs) as (us & H1 & H2).
      { induction HF as [|i x l xs Hi HF IH].
        - exists []. split; constructor.
        - destruct IH as (us & H1 & H2).
          destruct (uid (data m) !! i) as [u|] eqn:Hu; [|done]. simpl in Hi.
          destruct (param_v p !! u) as [x'|] eqn:Hx; [|done]. simpl in Hi.
          injection Hi as ->. exists (u :: us).
          split; constructor; try done; simpl; by rewrite ?Hu, ?Hx. }
      apply mapR_Ok in H1. apply mapR_Ok in H2. rewrite H1. simpl.
      by rewrite H2.
  - intros (i & Hin & Hi).
    assert (H : mapR (fun i => of_option KeyError (uid (data m) !! i)) l
                = Raise KeyError).
    { apply mapR_Raise.
      - intros x e'. by destruct (uid (data m) !! x); [|intros [= <-]].
      - exists i. split; [exact Hin|]. rewrite Hi. by exists KeyError. }
    unfold get, idx2uid. by rewrite H.
Qed.

Lemma get_list_pointwise_on_two_devices :
  exists xs,
    get m_two "name" (ArgMany [IdxStr "B"; IdxInt 1]) = Ok (GMany xs) /\
    Forall2 (fun i x => get m_two "name" (ArgOne i) = Ok (GOne x))
            [IdxStr "B"; IdxInt 1] xs /\
    get m_two "name" (ArgMany [IdxStr "B"; IdxInt 5]) = Raise KeyError.
Proof.
  destruct (get_list_pointwise m_two "name"
              (DataP [PIdx (IdxStr "PQ_1"); PIdx (IdxStr "B")])
              [IdxStr "B"; IdxInt 1]) as [H _]; [vm_compute; reflexivity|].
  destruct (get_list_pointwise m_two "name"
              (DataP [PIdx (IdxStr "PQ_1"); PIdx (IdxStr "B")])
              [IdxStr "B"; IdxInt 5]) as [_ H']; [vm_compute; reflexivity|].
  exists [PIdx (IdxStr "B"); PIdx (IdxStr "PQ_1")].
  assert (Hg : get m_two "name" (ArgMany [IdxStr "B"; IdxInt 1])
               = Ok (GMany [PIdx (IdxStr "B"); PIdx (IdxStr "PQ_1")])).
  { vm_compute. reflexivity. }
  split; [exact Hg | split].
  - apply H. exact Hg.
  - apply H'. exists (IdxInt 5). split.
    + apply list_elem_of_In. simpl. tauto.
    + vm_compute. reflexivity.
Defined.

(** X2. [set] and [get] round trip: once [set(src, idx, 'v', value)] has
    returned, [get(src, idx)] is [value]; [get] for a device at another
    position and [get] on any other parameter return what they returned
    before. *)
Theorem set_then_get
    (m m' : Model) (src : string) (idx : idx_t) (value : Q) :
  set m src (ArgOne idx) "v" value = Ok m' ->
  get m' src (ArgOne idx) = Ok (GOne (PFloat value)) /\
  (forall j u u',
     uid (data m) !! idx = Some u -> uid (data m) !! j = Some u' -> u' <> u ->
     get m' src (ArgOne j) = get m src (ArgOne j)) /\
  (forall other a, other <> src -> get m' other a = get m other a).
Proof.
  intros H. unfold set in H. apply bind_Ok in H as (ur & Hur & H).
  apply bind_Ok in H as (p & Hp & H).
  simpl in Hur. apply bind_Ok in Hur as (u & Hu & [= <-]).
  destruct (uid (data m) !! idx) as [u0|] eqn:Huid; [|done].
  simpl in Hu. injection Hu as ->.
  destruct (od_get src (params (data m))) as [p0|] eqn:Hsrc; [|done].
  simpl in Hp. injection Hp as ->.
  assert (Hex : exists p',
            m' = with_data m (mkModelData (n (data m)) (uid (data m))
                                (od_set src p' (params (data m)))) /\
            param_v p' = <[u := PFloat value]> (param_v p) /\
            u < length (param_v p)).
  { destruct p as [v|np]; simpl in H.
    - apply bind_Ok in H as (v' & Hv & [= <-]).
      apply list_set_Ok in Hv as [Hlt ->]. by eexists (DataP _).
    - apply bind_Ok in H as (np' & Hnp & [= <-]).
      apply bind_Ok in Hnp as (a & Ha & [= <-]). simpl in Ha.
      apply list_set_Ok in Ha as [Hlt ->]. eexists (NumP _).
      split; [reflexivity|]. simpl.
      rewrite length_map. split; [|done].
      by rewrite list_fmap_insert. }
  destruct Hex as (p' & -> & Hv & Hlt). split; [|split].
  - unfold get. simpl. rewrite Huid. simpl. rewrite od_get_set_eq. simpl.
    by rewrite Hv, list_lookup_insert_eq.
  - intros j u1 u2 [= <-] Hj Hne. unfold get. simpl. rewrite Hj. simpl.
    rewrite od_get_set_eq, Hsrc. simpl.
    by rewrite Hv, list_lookup_insert_ne.
  - intros other a Hne. unfold get.
    replace (idx2uid (with_data m _) a) with (idx2uid m a) by (by destruct a).
    simpl. by rewrite od_get_set_ne.
Qed.

Lemma set_then_get_on_p0 :
  exists m',
    set m_alter "p0" (ArgOne (IdxInt 2)) "v" 9%Q = Ok m' /\
    get m' "p0" (ArgOne (IdxInt 2)) = Ok (GOne (PFloat 9%Q)) /\
    get m' "p0" (ArgOne (IdxInt 1)) = get m_alter "p0" (ArgOne (IdxInt 1)).
Proof.
  destruct (set m_alter "p0" (ArgOne (IdxInt 2)) "v" 9%Q) as [m'|e] eqn:E;
    [|vm_compute in E; discriminate].
  destruct (set_then_get m_alter m' "p0" (IdxInt 2) 9%Q E) as (H1 & H2 & _).
  exists m'. split; [reflexivity | split; [exact H1|]].
  apply (H2 (IdxInt 1) 1 0); [vm_compute; reflexivity .. | lia].
Defined.

(** X3. With [None] for idx nothing fails: [idx2uid] returns [None], and
    indexing the array by [None] addresses all of it, so [alter] writes
    [value] into the raw input of every device of the parameter and
    recomputes every working value from it. *)
Theorem alter_None_overwrites_every_device
    (m : Model) (src : string) (np : NumParam) (value : Q) :
  od_get src (params (data m)) = Some (NumP np) ->
  length (np_pu_coeff np) = length (np_vin np) ->
  length (np_v np) = length (np_vin np) ->
  idx2uid m ArgNone = Ok UNone /\
  alter m src ArgNone value
  = Ok (with_data m
          (mkModelData (n (data m)) (uid (data m))
             (od_set src
                (NumP (mkNumParam (np_default np)
                         (repeat value (length (np_vin np)))
                         (map (Qmult value) (np_pu_coeff np))
                         (np_pu_coeff np)))
                (params (data m))))).
Proof.
  intros Hp Hc Hv. split; [reflexivity|].
  unfold alter, set. simpl. rewrite Hp. simpl. rewrite od_get_set_eq. simpl.
  unfold np_mul. rewrite repeat_length, <- Hc, Nat.eqb_refl. simpl.
  rewrite zip_with_repeat_l. unfold np_assign_all.
  rewrite length_map, Hc, Hv, Nat.eqb_refl. simpl.
  by rewrite od_set_set.
Qed.

Lemma alter_None_on_p0 :
  exists m',
    alter m_alter "p0" ArgNone 4%Q = Ok m' /\
    od_get "p0" (params (data m'))
    = Some (NumP (mkNumParam 0 [4; 4]%Q [4 * (1 # 2); 4 * (1 # 2)]%Q
                             [(1 # 2); (1 # 2)]%Q)).
Proof.
  destruct (alter_None_overwrites_every_device m_alter "p0" p0_stale 4%Q)
    as [_ H]; [reflexivity ..|].
  eexists. split; [exact H|]. reflexivity.
Defined.

(** X4. [alter] twice on the same device: the second call decides. The
    model after [alter(src, idx, v1)] and then [alter(src, idx, v2)] is
    the model after [alter(src, idx, v2)] alone. *)
Theorem alter_twice_last_wins
    (m m1 : Model) (src : string) (idx : idx_t) (v1 v2 : Q) :
  alter m src (ArgOne idx) v1 = Ok m1 ->
  alter m1 src (ArgOne idx) v2 = alter m src (ArgOne idx) v2.
Proof.
  intros H. unfold alter in H. apply bind_Ok in H as (ms & Hset & H).
  apply bind_Ok in H as (p1 & Hp1 & H).
  unfold set in Hset. apply bind_Ok in Hset as (ur & Hur & Hset).
  apply bind_Ok in Hset as (p & Hp & Hset).
  simpl in Hur. destruct (uid (data m) !! idx) as [u|] eqn:Hu; [|done].
  simpl in Hur. injection Hur as <-.
  destruct (od_get src (params (data m))) as [p0|] eqn:Hsrc; [|done].
  simpl in Hp. injection Hp as ->.
  destruct p as [v|np]; [done|]. simpl in Hset.
  apply bind_Ok in Hset as (np' & Hnp & [= <-]).
  apply bind_Ok in Hnp as (a & Ha & [= <-]). simpl in Ha.
  apply list_set_Ok in Ha as [Hlt ->].
  simpl in Hp1. rewrite od_get_set_eq in Hp1. simpl in Hp1.
  injection Hp1 as <-. simpl in H.
  apply bind_Ok in H as (prod & Hprod & H).
  apply bind_Ok in H as (v' & Hv' & [= <-]).
  apply np_assign_all_length in Hv'.
  unfold alter, set. simpl. rewrite Hu. simpl.
  rewrite od_get_set_eq, Hsrc. simpl.
  unfold list_set. rewrite length_insert.
  apply Nat.ltb_lt in Hlt. rewrite Hlt. simpl.
  rewrite !od_get_set_eq. simpl.
  rewrite list_insert_insert_eq.
  destruct (np_mul (<[u := v2]> (np_vin np)) (np_pu_coeff np)) as [prod2|e];
    simpl; [|done].
  rewrite (np_assign_all_dst v' (np_v np)) by done.
  destruct (np_assign_all (np_v np) prod2) as [v2'|e]; simpl; [|done].
  by rewrite !od_set_set.
Qed.

Lemma alter_twice_on_p0 :
  exists m1,
    alter m_alter "p0" (ArgOne (IdxInt 2)) 4%Q = Ok m1 /\
    alter m1 "p0" (ArgOne (IdxInt 2)) 6%Q
    = alter m_alter "p0" (ArgOne (IdxInt 2)) 6%Q.
Proof.
  destruct (alter m_alter "p0" (ArgOne (IdxInt 2)) 4%Q) as [m1|e] eqn:E;
    [|vm_compute in E; discriminate].
  exists m1. split; [reflexivity|].
  exact (alter_twice_last_wins m_alter m1 "p0" (IdxInt 2) 4%Q 6%Q E).
Defined.

(** ** Devices added under one idx *)

Lemma add_last_position (kw : gmap string pyval) (md md' : ModelData)
    (pre : list idx_t) (i : idx_t) :
  n md = length pre ->
  (forall j u, uid md !! j = Some u <-> last_position pre j u) ->
  kw !! "idx" = Some (PIdx i) ->
  add kw md = Ok md' ->
  n md' = length (pre ++ [i]) /\
  (forall j u, uid md' !! j = Some u <-> last_position (pre ++ [i]) j u).
Proof.
  intros Hn Hu Hkw Hadd. unfold add in Hadd. rewrite Hkw in Hadd.
  apply bind_Ok in Hadd as (ps & _ & [= <-]). simpl. split.
  { rewrite length_app. simpl. lia. }
  intros j u. unfold last_position. destruct (decide (i = j)) as [<-|Hne].
  - rewrite lookup_insert_eq. split.
    + intros [= <-]. rewrite Hn. split.
      * rewrite lookup_app_r by lia. by rewrite Nat.sub_diag.
      * intros u' Hlt. rewrite lookup_ge_None_2; [done|].
        rewrite length_app. simpl. lia.
    + intros [Hl Hlast]. f_equal. rewrite Hn.
      destruct (decide (u < length pre)) as [Hlt|Hge].
      * exfalso. apply (Hlast (length pre) Hlt).
        rewrite lookup_app_r by lia. by rewrite Nat.sub_diag.
      * apply lookup_lt_Some in Hl. rewrite length_app in Hl. simpl in Hl. lia.
  - rewrite lookup_insert_ne by done. rewrite Hu. unfold last_position. split.
    + intros [Hl Hlast]. pose proof (lookup_lt_Some _ _ _ Hl) as Hlt. split.
      * by rewrite lookup_app_l.
      * intros u' Hu'. destruct (decide (u' < length pre)) as [Hlt'|Hge].
        -- rewrite lookup_app_l by done. by apply Hlast.
        -- rewrite lookup_app_r by lia.
           destruct (u' - length pre) as [|k]; simpl; [congruence|by destruct k].
    + intros [Hl Hlast].
      assert (Hlt : u < length pre).
      { destruct (decide (u < length pre)) as [|Hge]; [done|].
        rewrite lookup_app_r in Hl by lia.
        destruct (u - length pre) as [|k]; simpl in Hl;
          [congruence | by destruct k]. }
      rewrite lookup_app_l in Hl by done. split; [exact Hl|].
      intros u' Hu' Hl'. apply (Hlast u' Hu').
      rewrite lookup_app_l; [exact Hl' | by eapply lookup_lt_Some].
Qed.

Lemma add_all_last_position (devs : list (gmap string pyval)) :
  forall (md md' : ModelData) (pre idxs : list idx_t),
    n md = length pre ->
    (forall j u, uid md !! j = Some u <-> last_position pre j u) ->
    Forall2 (fun kw i => kw !! "idx" = Some (PIdx i)) devs idxs ->
    add_all devs md = Ok md' ->
    n md' = length (pre ++ idxs) /\
    (forall j u, uid md' !! j = Some u <-> last_position (pre ++ idxs) j u).
Proof.
  induction devs as [|kw devs IH]; intros md md' pre idxs Hn Hu HF Hadd.
  - inversion HF; subst. simpl in Hadd. injection Hadd as <-.
    by rewrite app_nil_r.
  - inversion HF as [|? i ? idxs' Hkw HF']; subst. simpl in Hadd.
    apply bind_Ok in Hadd as (md1 & H1 & Hrest).
    destruct (add_last_position _ _ _ _ _ Hn Hu Hkw H1) as [Hn1 Hu1].
    replace (pre ++ i :: idxs') with ((pre ++ [i]) ++ idxs')
      by (by rewrite <- app_assoc).
    by eapply IH.
Qed.

(** X5. Devices added under an idx that is already taken: [add] does not
    refuse them. Every device gets a position and [n] counts them all, but
    an idx resolves to the device added last under it, and the earlier
    ones cannot be reached by idx any more. *)
Theorem add_all_duplicate_idx_last_wins
    (md0 md : ModelData) (devs : list (gmap string pyval))
    (idxs : list idx_t) :
  fresh md0 ->
  Forall2 (fun kw i => kw !! "idx" = Some (PIdx i)) devs idxs ->
  add_all devs md0 = Ok md ->
  n md = length devs /\
  (forall i u, uid md !! i = Some u <-> last_position idxs i u) /\
  (forall u u' i, u < u' -> idxs !! u = Some i -> idxs !! u' = Some i ->
     forall j, uid md !! j <> Some u).
Proof.
  intros (Hn & Hu & _) HF Hadd.
  destruct (add_all_last_position devs md0 md [] idxs) as [Hn' Hu'];
    [done | | done | done |].
  { intros j u. rewrite Hu, lookup_empty. unfold last_position.
    rewrite lookup_nil. split; [discriminate | by intros [? _]]. }
  simpl in *. split; [by rewrite (Forall2_length _ _ _ HF) | split; [exact Hu'|]].
  intros u u' i Hlt Hi Hi' j Hj. apply Hu' in Hj as [Hj Hlast].
  rewrite Hi in Hj. injection Hj as <-. by apply (Hlast u' Hlt).
Qed.

Lemma add_all_duplicate_idx_on_three_devices :
  exists md,
    add_all devs_dup ModelData_init = Ok md /\
    n md = 3 /\
    uid md !! IdxInt 7 = Some 2 /\
    forall j, uid md !! j <> Some 0.
Proof.
  destruct (add_all devs_dup ModelData_init) as [md|e] eqn:E;
    [|vm_compute in E; discriminate].
  assert (Hf : fresh ModelData_init).
  { split; [reflexivity | split; [reflexivity|]].
    intros src p. simpl.
    destruct (String.eqb src "idx"); [intros [= <-]; reflexivity|].
    destruct (String.eqb src "u"); [intros [= <-]; reflexivity|].
    destruct (String.eqb src "name"); [intros [= <-]; reflexivity|].
    discriminate. }
  assert (HF : Forall2 (fun kw i => kw !! "idx" = Some (PIdx i))
                       devs_dup idxs_dup).
  { repeat constructor; vm_compute; reflexivity. }
  destruct (add_all_duplicate_idx_last_wins ModelData_init md devs_dup idxs_dup
              Hf HF E) as (Hn & Hu & Hno).
  exists md. split; [reflexivity | split; [exact Hn | split]].
  - apply Hu. split; [reflexivity|]. intros u' Hlt.
    rewrite lookup_ge_None_2; [discriminate | simpl; lia].
  - apply (Hno 0 2 (IdxInt 7)); [lia | reflexivity | reflexivity].
Defined.

(** ** The triplets of [ModelCall] *)

Lemma clear_ijv_vjac (c : ModelCall) (K : string) :
  K ∈ jac_full_names -> dd_get (vjac (clear_ijv c)) K = [].
Proof.
  intros HK. unfold clear_ijv, dd_get.
  induction jac_full_names as [|k ks IH]; [inversion HK|]. simpl.
  destruct (decide (K = k)) as [->|Hne].
  - by rewrite lookup_insert_eq.
  - rewrite lookup_insert_ne by done. apply IH.
    apply elem_of_cons in HK as [?|?]; done.
Qed.

Lemma clear_ijv_other (c : ModelCall) (K : string) :
  K ∉ jac_full_names ->
  dd_get (ijac (clear_ijv c)) K = dd_get (ijac c) K /\
  dd_get (jjac (clear_ijv c)) K = dd_get (jjac c) K /\
  dd_get (vjac (clear_ijv c)) K = dd_get (vjac c) K.
Proof.
  intros HK. unfold clear_ijv, dd_get.
  induction jac_full_names as [|k ks IH]; [done|]. simpl.
  apply not_elem_of_cons in HK as [Hne HK].
  rewrite !lookup_insert_ne by done. by apply IH.
Qed.

Lemma zip3_snoc {A B C} (la : list A) (lb : list B) (lc : list C)
    (a : A) (b : B) (c : C) :
  length la = length lb -> length lb = length lc ->
  zip3 (la ++ [a]) (lb ++ [b]) (lc ++ [c]) = zip3 la lb lc ++ [(a, b, c)].
Proof.
  revert lb lc. induction la as [|x la IH]; intros [|y lb] [|z lc] H1 H2;
    simpl in *; try done.
  rewrite IH by lia. done.
Qed.

Lemma append_many_zip (apps : list (string * (nat * nat * jval))) (K : string) :
  forall c,
    length (dd_get (ijac c) K) = length (dd_get (jjac c) K) ->
    length (dd_get (jjac c) K) = length (dd_get (vjac c) K) ->
    zip_ijv (append_many apps c) K = zip_ijv c K ++ appended_under K apps.
Proof.
  unfold append_many, appended_under.
  induction apps as [|[k [[i j] v]] apps IH]; intros c H1 H2; simpl.
  - by rewrite app_nil_r.
  - rewrite IH.
    + unfold zip_ijv at 1. simpl. rewrite !dd_get_append.
      destruct (decide (K = k)) as [->|Hne].
      * rewrite String.eqb_refl. rewrite zip3_snoc by done.
        by rewrite <- app_assoc.
      * apply not_eq_sym in Hne. apply String.eqb_neq in Hne. by rewrite Hne.
    + simpl. rewrite !dd_get_append. destruct (decide (K = k)); [|done].
      rewrite !length_app. simpl. lia.
    + simpl. rewrite !dd_get_append. destruct (decide (K = k)); [|done].
      rewrite !length_app. simpl. lia.
Qed.

(** X6. [clear_ijv], [append_ijv] and [zip_ijv] round trip: after
    [clear_ijv], whatever the store held before, [zip_ijv] of each of the
    eight Jacobian names returns exactly the triplets appended under that
    name since, in the order of the calls. The lists kept under any other
    name are not cleared. *)
Theorem clear_append_zip_round_trip
    (c : ModelCall) (apps : list (string * (nat * nat * jval))) (K : string) :
  (K ∈ jac_full_names ->
   zip_ijv (clear_ijv c) K = [] /\
   zip_ijv (append_many apps (clear_ijv c)) K = appended_under K apps) /\
  (K ∉ jac_full_names -> zip_ijv (clear_ijv c) K = zip_ijv c K).
Proof.
  split; intros HK.
  - destruct (clear_ijv_get c K HK) as [Hi Hj].
    pose proof (clear_ijv_vjac c K HK) as Hv.
    assert (H0 : zip_ijv (clear_ijv c) K = []).
    { unfold zip_ijv. by rewrite Hi, Hj, Hv. }
    split; [exact H0|].
    rewrite append_many_zip; [by rewrite H0 | by rewrite Hi, Hj | by rewrite Hj, Hv].
  - destruct (clear_ijv_other c K HK) as (Hi & Hj & Hv).
    unfold zip_ijv. by rewrite Hi, Hj, Hv.
Qed.

Lemma clear_append_zip_on_two_names :
  zip_ijv (append_many [("gy", (0, 1, JNum 2)); ("fx", (0, 0, JNum 1));
                        ("gy", (1, 1, JNum 3))]
             (clear_ijv c_xy)) "gy"
  = [(0, 1, JNum 2); (1, 1, JNum 3)].
Proof.
  destruct (clear_append_zip_round_trip c_xy
              [("gy", (0, 1, JNum 2)); ("fx", (0, 0, JNum 1));
               ("gy", (1, 1, JNum 3))] "gy") as [H _].
  destruct H as [_ H]; [apply (bool_decide_unpack _); vm_compute; exact I|].
  exact H.
Defined.


(** ** The Newton loop and the entry function, once more *)

Section NewtonFacts.

Context {dae : Type}.
Variable calc_inc : System dae -> dae * list Q.
Variable add_inc : dae -> list Q -> dae.

(** What the loop writes into the system and what it leaves alone. *)
Lemma newton_loop_frame (fuel : nat) :
  forall (system : System dae) (niter : nat) (mis : list Q)
         (r : NewtonResult dae),
    newton_loop dae calc_inc add_inc fuel system niter mis = Some (Ok r) ->
    spf_iter (SPF dae (nr_system dae r)) = nr_niter dae r /\
    last (iter_mis dae r) = Some (error (sys_config dae (nr_system dae r))) /\
    method (SPF dae (nr_system dae r)) = method (SPF dae system) /\
    tol (SPF dae (nr_system dae r)) = tol (SPF dae system) /\
    maxit (SPF dae (nr_system dae r)) = maxit (SPF dae system) /\
    flatstart (SPF dae (nr_system dae r)) = flatstart (SPF dae system) /\
    spf_solved (SPF dae (nr_system dae r)) = spf_solved (SPF dae system) /\
    sparselib (sys_config dae (nr_system dae r))
    = sparselib (sys_config dae system) /\
    sparselib_alt (sys_config dae (nr_system dae r))
    = sparselib_alt (sys_config dae system) /\
    powerflow_solved dae (nr_system dae r) = powerflow_solved dae system /\
    lib dae (nr_system dae r) = lib dae system.
Proof.
  induction fuel as [|fuel IH]; intros system niter mis r H; [discriminate|].
  simpl in H. destruct (calc_inc system) as [dae1 inc].
  destruct (max_abs inc) as [max_mis|e]; [|discriminate].
  simpl in H.
  destruct (Qltb max_mis (tol (SPF dae system))).
  { injection H as <-. simpl. rewrite last_snoc. done. }
  destruct (_ && _).
  { injection H as <-. simpl. rewrite last_snoc. done. }
  destruct (Z.ltb _ _).
  { injection H as <-. simpl. rewrite last_snoc. done. }
  apply IH in H. simpl in H. exact H.
Qed.

(** The passes of a run are counted from one, each records one mismatch,
    and the loop is left at the latest after pass [maxit + 1]. *)
Lemma newton_passes_bounds (system : System dae) (r : NewtonResult dae) :
  newton dae calc_inc add_inc system = Some (Ok r) ->
  1 <= nr_niter dae r /\
  (Z.of_nat (nr_niter dae r) <= Z.max 1 (maxit (SPF dae system) + 1))%Z /\
  length (iter_mis dae r) = nr_niter dae r.
Proof.
  intros Hrun. unfold newton in Hrun.
  destruct (newton_loop_spec _ _ _ system 0 [] r eq_refl Hrun)
    as ((x0 & new & Hmis) & Hn & Hmid & _).
  assert (H1 : 1 <= nr_niter dae r).
  { rewrite Hn, Hmis. simpl. lia. }
  split; [exact H1 | split; [|done]].
  destruct (decide (nr_niter dae r = 1)) as [->|Hne]; [lia|].
  destruct (lookup_lt_is_Some_2 (iter_mis dae r) (nr_niter dae r - 1 - 1))
    as (x & Hx); [lia|].
  destruct (Hmid (nr_niter dae r - 1) x ltac:(lia) Hx) as (_ & _ & Hmax).
  apply Z.ltb_ge in Hmax. lia.
Qed.

(** X7. The number of passes of [newton]: at least one and at most
    [maxit + 1] (one when [maxit] is not positive). On return, one
    mismatch has been recorded per pass, [SPF.iter] is the number of
    passes and [config.error] is the mismatch of the last pass. *)
Theorem newton_iteration_count (system : System dae) (r : NewtonResult dae) :
  newton dae calc_inc add_inc system = Some (Ok r) ->
  1 <= nr_niter dae r /\
  (Z.of_nat (nr_niter dae r) <= Z.max 1 (maxit (SPF dae system) + 1))%Z /\
  length (iter_mis dae r) = nr_niter dae r /\
  spf_iter (SPF dae (nr_system dae r)) = nr_niter dae r /\
  last (iter_mis dae r) = Some (error (sys_config dae (nr_system dae r))).
Proof.
  intros Hrun.
  destruct (newton_passes_bounds system r Hrun) as (H1 & Hle & Hlen).
  unfold newton in Hrun.
  destruct (newton_loop_frame _ _ _ _ _ Hrun) as (Hit & Hlast & _).
  done.
Qed.


End NewtonFacts.

Lemma newton_iteration_count_on_steady_run :
  nr_niter nat nr_steady = 4 /\
  spf_iter (SPF nat (nr_system nat nr_steady)) = 4 /\
  length (iter_mis nat nr_steady) = 4.
Proof.
  destruct (newton_iteration_count calc_inc_steady add_inc_none sys_three
              nr_steady)
    as (_ & _ & Hlen & Hit & _).
  - vm_compute. reflexivity.
  - split; [reflexivity | split; [exact Hit | exact Hlen]].
Defined.


Section RunOutcome.

Context {dae : Type}.
Variable KLU : bool.
Variable calc_inc : System dae -> dae * list Q.
Variable add_inc : dae -> list Q -> dae.
Variable fdpf : System dae -> result (System dae * (bool * nat)).
Variable post_processing : System dae -> System dae.

Lemma select_lib_fields (system : System dae) :
  sparselib (sys_config dae (select_lib dae KLU system))
  = selected_lib KLU (sparselib (sys_config dae system)) /\
  lib dae (select_lib dae KLU system)
  = selected_lib KLU (sparselib (sys_config dae system)) /\
  powerflow_solved dae (select_lib dae KLU system) = powerflow_solved dae system.
Proof.
  unfold select_lib, selected_lib.
  destruct (String.eqb (sparselib (sys_config dae system)) "klu") eqn:E;
    destruct KLU; simpl; try done.
  apply String.eqb_eq in E. by rewrite E.
Qed.

Lemma finish_newton_routine (system s' : System dae) (conv : bool) :
  finish_run dae post_processing (newton_routine dae calc_inc add_inc system)
  = Some (Ok (s', conv)) ->
  exists s'',
    s' = (if conv then post_processing s'' else s'') /\
    powerflow_solved dae s''
    = (if conv then true else powerflow_solved dae system) /\
    spf_solved (SPF dae s'') = false /\
    sparselib (sys_config dae s'') = sparselib (sys_config dae system) /\
    lib dae s'' = lib dae system /\
    method (SPF dae s'') = method (SPF dae system).
Proof.
  unfold finish_run, newton_routine, newton.
  destruct (newton_loop dae calc_inc add_inc _ system 0 []) as [[r|e]|] eqn:E;
    [|discriminate ..].
  destruct (newton_loop_frame _ _ _ _ _ _ _ E)
    as (_ & _ & Hm & _ & _ & _ & _ & Hs & _ & Hp & Hl).
  intros [= <- <-]. destruct (convergence dae r); eexists; (split; [reflexivity|]);
    simpl; done.
Qed.

Lemma run_newton_dispatch (system : System dae) :
  sparselib (sys_config dae system) ∈ sparselib_alt (sys_config dae system) ->
  method (SPF dae system) ∉ ["FDPF"; "FDBX"; "FDXB"] ->
  exists system2,
    run dae KLU calc_inc add_inc fdpf post_processing system
    = finish_run dae post_processing
        (newton_routine dae calc_inc add_inc system2) /\
    sparselib (sys_config dae system2)
    = sparselib (sys_config dae (select_lib dae KLU system)) /\
    lib dae system2 = lib dae (select_lib dae KLU system) /\
    powerflow_solved dae system2
    = powerflow_solved dae (select_lib dae KLU system) /\
    method (SPF dae system2)
    = (if bool_decide (method (SPF dae system) ∈ ["NR"; "Newton"])
       then method (SPF dae system) else "NR").
Proof.
  intros Hlib Hfd. unfold run.
  rewrite (bool_decide_eq_true_2 _ Hlib). simpl.
  pose proof (select_lib_method KLU system) as Hm.
  set (system1 := select_lib dae KLU system) in *. rewrite Hm.
  destruct (decide (method (SPF dae system) ∈ ["NR"; "Newton"])) as [Hin|Hnin].
  - rewrite (bool_decide_eq_true_2 _ Hin).
    assert (Hk : method (SPF dae system)
                 ∈ ["NR"; "Newton"; "FDPF"; "FDBX"; "FDXB"]).
    { rewrite !elem_of_cons in Hin. rewrite !elem_of_cons. tauto. }
    rewrite (bool_decide_eq_true_2 _ Hk). simpl. rewrite Hm.
    exists system1. split; [|by rewrite Hm].
    rewrite !elem_of_cons in Hin.
    destruct Hin as [->|[->|Hin]]; [done | done | inversion Hin].
  - rewrite (bool_decide_eq_false_2 _ Hnin).
    assert (Hk : method (SPF dae system)
                 ∉ ["NR"; "Newton"; "FDPF"; "FDBX"; "FDXB"]).
    { rewrite !elem_of_cons in Hnin. rewrite !elem_of_cons in Hfd.
      rewrite !elem_of_cons. tauto. }
    rewrite (bool_decide_eq_false_2 _ Hk). simpl.
    eexists. split; [reflexivity|]. done.
Qed.

(** X9. A run that ends in the Newton routine (any method name but
    FDPF, FDBX and FDXB) and returns: the configured sparse library was
    among the accepted ones; the library in use is KLU when it was asked
    for and could be imported and UMFPACK otherwise, and [config.sparselib]
    is rewritten to say so; [SPF.solved] is reset to [False]; and
    [powerflow.solved] is set, and the post-processing run, exactly when
    the run converged. *)
Theorem run_newton_outcome (system s' : System dae) (conv : bool) :
  method (SPF dae system) ∉ ["FDPF"; "FDBX"; "FDXB"] ->
  run dae KLU calc_inc add_inc fdpf post_processing system
  = Some (Ok (s', conv)) ->
  sparselib (sys_config dae system) ∈ sparselib_alt (sys_config dae system) /\
  exists s'',
    s' = (if conv then post_processing s'' else s'') /\
    powerflow_solved dae s''
    = (if conv then true else powerflow_solved dae system) /\
    spf_solved (SPF dae s'') = false /\
    sparselib (sys_config dae s'')
    = selected_lib KLU (sparselib (sys_config dae system)) /\
    lib dae s'' = selected_lib KLU (sparselib (sys_config dae system)) /\
    method (SPF dae s'')
    = (if bool_decide (method (SPF dae system) ∈ ["NR"; "Newton"])
       then method (SPF dae system) else "NR").
Proof.
  intros Hfd H.
  assert (Hlib : sparselib (sys_config dae system)
                 ∈ sparselib_alt (sys_config dae system)).
  { unfold run in H.
    destruct (decide (sparselib (sys_config dae system)
                      ∈ sparselib_alt (sys_config dae system))) as [|Hn];
      [done|].
    rewrite (bool_decide_eq_false_2 _ Hn) in H. discriminate. }
  split; [exact Hlib|].
  destruct (run_newton_dispatch system Hlib Hfd)
    as (system2 & Hrun & Hs2 & Hl2 & Hp2 & Hm2).
  rewrite Hrun in H.
  destruct (select_lib_fields system) as (Hs & Hl & Hp).
  destruct (finish_newton_routine _ _ _ H)
    as (s'' & -> & Hps & Hss & Hsl & Hlib' & Hmeth).
  exists s''. split; [done|].
  rewrite Hps, Hss, Hsl, Hlib', Hmeth, Hs2, Hl2, Hp2, Hm2, Hs, Hl, Hp. done.
Qed.

End RunOutcome.

Lemma run_newton_outcome_on_steady_run :
  exists s',
    run nat false calc_inc_steady add_inc_none fdpf_none (fun s => s) sys_three
    = Some (Ok (s', false)) /\
    sparselib (sys_config nat s') = "umfpack" /\
    lib nat s' = "umfpack" /\
    powerflow_solved nat s' = false /\
    method (SPF nat s') = "Newton".
Proof.
  destruct (run nat false calc_inc_steady add_inc_none fdpf_none (fun s => s)
              sys_three) as [[[s' conv]|e]|] eqn:E;
    [|vm_compute in E; discriminate ..].
  assert (Hc : conv = false) by (vm_compute in E; congruence).
  subst conv.
  destruct (run_newton_outcome false calc_inc_steady add_inc_none fdpf_none
              (fun s => s) sys_three s' false) as (_ & s'' & -> & Hp & _ & Hs & Hl & Hm);
    [apply (bool_decide_unpack _); vm_compute; exact I | exact E |].
  exists s''. split; [reflexivity|].
  split; [exact Hs | split; [exact Hl | split; [exact Hp | exact Hm]]].
Defined.


(** ** Symbols, inputs and code generation *)













Section CodeGenerationFacts.

Variable sym_diff : expr -> string -> expr.
Variable lambdify : list string -> expr -> pyfun.
Variable lambdify_std :
  list string -> list string -> list expr ->
  list (list Q) -> list value -> result (list Q).



Lemma gen_init_step_cases (sp : SymProcessor) (cls : string)
    (acc : odict lam_entry * list expr) (name : string) (inst : Var) :
  (exists acc',
     gen_init_step lambdify sp cls acc (name, inst) = Ok acc' /\
     fst acc' = match v_str inst with
                | Some e => od_set name
                              (LFun (lambdify (od_keys (inputs_dict sp)) e))
                              (fst acc)
                | None => fst acc
                end /\
     snd acc' = snd acc ++ option_list (v_iter inst) /\
     forall e, v_str inst = Some e \/ v_iter inst = Some e ->
               _check_expr_symbols sp cls e = Ok tt) \/
  (exists e ex,
     (v_str inst = Some e \/ v_iter inst = Some e) /\
     _check_expr_symbols sp cls e = Raise ex /\
     gen_init_step lambdify sp cls acc (name, inst) = Raise ex).
Proof.
  unfold gen_init_step. simpl.
  destruct (v_str inst) as [e1|].
  - destruct (_check_expr_symbols sp cls e1) as [[]|ex] eqn:Hc1; simpl;
      [|right; exists e1, ex; eauto].
    destruct (v_iter inst) as [e2|].
    + destruct (_check_expr_symbols sp cls e2) as [[]|ex] eqn:Hc2; simpl;
        [|right; exists e2, ex; eauto].
      left. eexists. split; [done|]. split; [done|]. split; [done|].
      intros e [[= <-]|[= <-]]; done.
    + simpl. left. eexists. split; [done|]. split; [done|].
      split; [by rewrite app_nil_r|]. intros e [[= <-]|?]; done.
  - simpl. destruct (v_iter inst) as [e2|].
    + destruct (_check_expr_symbols sp cls e2) as [[]|ex] eqn:Hc2; simpl;
        [|right; exists e2, ex; eauto].
      left. eexists. split; [done|]. split; [done|]. split; [done|].
      intros e [?|[= <-]]; done.
    + simpl. left. eexists. split; [done|]. split; [done|].
      split; [by rewrite app_nil_r|]. intros e [?|?]; done.
Qed.

Lemma gen_init_cases (sp : SymProcessor) (cls : string) (vs : odict Var) :
  forall acc,
    (exists r,
       foldR (gen_init_step lambdify sp cls) vs acc = Ok r /\
       (forall kv e, kv ∈ vs ->
          v_str (snd kv) = Some e \/ v_iter (snd kv) = Some e ->
          _check_expr_symbols sp cls e = Ok tt) /\
       snd r = snd acc ++ omap (fun kv => v_iter (snd kv)) vs /\
       (NoDup (od_keys vs) ->
        forall name,
          od_get name (fst r)
          = match od_get name vs with
            | Some var =>
                match v_str var with
                | Some e => Some (LFun (lambdify (od_keys (inputs_dict sp)) e))
                | None => od_get name (fst acc)
                end
            | None => od_get name (fst acc)
            end)) \/
    (exists kv e ex,
       kv ∈ vs /\ (v_str (snd kv) = Some e \/ v_iter (snd kv) = Some e) /\
       _check_expr_symbols sp cls e = Raise ex /\
       foldR (gen_init_step lambdify sp cls) vs acc = Raise ex).
Proof.
  induction vs as [|[name inst] vs IH]; intros acc; simpl.
  - left. exists acc. split; [done|]. split; [intros kv e H; inversion H|].
    split; [by rewrite app_nil_r | done].
  - destruct (gen_init_step_cases sp cls acc name inst)
      as [(acc' & -> & Hf & Hs' & Hck')|(e & ex & Hse & Hck & ->)]; simpl;
      [|right; exists (name, inst), e, ex; split; [left | done]].
    destruct (IH acc')
      as [(r & -> & Hall & Hs & Hg)|(kv & e & ex & Hin & Hse & Hck & ->)];
      [|right; exists kv, e, ex; split; [by right | done]].
    left. exists r. split; [done|]. split; [|split].
    + intros kv e Hin Hse.
      apply elem_of_cons in Hin as [->|Hin]; [by apply Hck' | by eapply Hall].
    + rewrite Hs, Hs', <- app_assoc. f_equal.
      by destruct (v_iter inst).
    + intros Hnd name0. apply NoDup_cons in Hnd as [Hn Hnd].
      rewrite (Hg Hnd name0), Hf.
      destruct (String.eqb name0 name) eqn:E.
      * apply String.eqb_eq in E. subst name0.
        destruct (od_get name vs) eqn:Hv.
        { exfalso. apply Hn, od_get_is_Some. eauto. }
        destruct (v_str inst); [by rewrite od_get_set_eq | done].
      * apply String.eqb_neq in E.
        destruct (v_str inst); [|done].
        rewrite od_get_set_ne; [done | congruence].
Qed.

(** X12. What [generate_init] stores: a callable initializer under the
    name of exactly the variables that have an explicit initializer
    [v_str] (so the lookup of [init] finds one for each of them); the
    iterative initializers [v_iter], in the order of the variables, as the
    one callable [init_std]; and nothing else of the calls is touched. *)
Theorem generate_init_entries
    (sp : SymProcessor) (m : Model) (c c' : ModelCall) :
  NoDup (all_vars_names m) ->
  generate_init lambdify lambdify_std sp m c = Ok c' ->
  (forall name,
     od_get name (init_lambdify c')
     = match od_get name (all_vars m) with
       | Some var =>
           option_map (fun e => LFun (lambdify (od_keys (inputs_dict sp)) e))
                      (v_str var)
       | None => None
       end) /\
  init_std c'
  = lambdify_std (od_keys (iters_dict sp)) (od_keys (non_iters_dict sp))
                 (omap (fun kv => v_iter (snd kv)) (all_vars m)) /\
  f_lambdify c' = f_lambdify c /\ g_lambdify c' = g_lambdify c /\
  s_lambdify c' = s_lambdify c /\
  ijac c' = ijac c /\ jjac c' = jjac c /\ vjac c' = vjac c.
Proof.
  intros Hnd H. unfold generate_init in H.
  apply bind_Ok in H as (r & Hr & [= <-]). simpl.
  destruct (gen_init_cases sp (class_name m) (all_vars m) ([], []))
    as [(r' & Hr' & _ & Hs & Hg)|(kv & e & ex & _ & _ & _ & Hx)];
    [|congruence].
  rewrite Hr in Hr'. injection Hr' as <-. rewrite Hs. simpl.
  split; [|done]. intros name. rewrite (Hg Hnd name).
  destruct (od_get name (all_vars m)) as [var|]; [|done].
  by destruct (v_str var).
Qed.





End CodeGenerationFacts.

Lemma generate_init_entries_on_machine :
  exists c',
    generate_init lambdify_scalar lambdify_std_none
      (generate_symbols SymProcessor_init m_gen_ok) m_gen_ok ModelCall_init
    = Ok c' /\
    (exists f, od_get "delta" (init_lambdify c') = Some (LFun f)) /\
    od_get "omega" (init_lambdify c') = None /\
    s_lambdify c' = s_lambdify ModelCall_init.
Proof.
  destruct (generate_init lambdify_scalar lambdify_std_none
              (generate_symbols SymProcessor_init m_gen_ok) m_gen_ok
              ModelCall_init) as [c'|e] eqn:E;
    [|vm_compute in E; discriminate].
  destruct (generate_init_entries lambdify_scalar lambdify_std_none
              (generate_symbols SymProcessor_init m_gen_ok) m_gen_ok
              ModelCall_init c') as (Hl & _ & _ & _ & Hs & _);
    [apply (bool_decide_unpack _); vm_compute; exact I | exact E |].
  exists c'. split; [reflexivity|]. split; [|split; [|exact Hs]].
  - rewrite (Hl "delta"). simpl. eauto.
  - rewrite (Hl "omega"). reflexivity.
Defined.



(** ** The cache of computed attributes *)

Section CacheFacts.

Context {St V : Type}.

Lemma _call_store_attr (c : Cache St V) (s : St) (name k : string)
    (v : option V) :
  _call (store_attr c k v) s name = _call c s name.
Proof. reflexivity. Qed.

Lemma getattr_stored (c : Cache St V) (s : St) (item : string) (v : option V) :
  cache_dict c !! item = Some v -> getattr c s item = Ok (v, c).
Proof. unfold getattr. by intros ->. Qed.


Lemma refresh_fold (s : St) (l : list string) :
  forall c c' : Cache St V,
    foldR (refresh_one s) l c = Ok c' ->
    _callbacks c' = _callbacks c /\
    (forall name, name ∈ l ->
       exists v, _call c s name = Ok v /\ cache_dict c' !! name = Some v) /\
    (forall name, name ∉ l -> cache_dict c' !! name = cache_dict c !! name).
Proof.
  induction l as [|x l IH]; intros c c' H; simpl in H.
  - injection H as <-. split; [done|]. split; [|done].
    intros name Hin. inversion Hin.
  - apply bind_Ok in H as (c1 & H1 & H).
    unfold refresh_one in H1. apply bind_Ok in H1 as (v & Hv & [= <-]).
    destruct (IH _ _ H) as (Hc & Hin & Hout). split; [done|]. split.
    + intros name Hname. destruct (decide (name ∈ l)) as [Hl|Hl].
      * destruct (Hin name Hl) as (v' & Hv' & Hd).
        rewrite _call_store_attr in Hv'. eauto.
      * apply elem_of_cons in Hname as [->|?]; [|done].
        exists v. split; [done|]. rewrite (Hout x Hl). simpl.
        by rewrite lookup_insert_eq.
    + intros name Hname. apply not_elem_of_cons in Hname as [Hne Hl].
      rewrite (Hout name Hl). simpl. by rewrite lookup_insert_ne.
Qed.

Lemma refresh_fold_raise (s : St) (l : list string) (e : exn) :
  forall c : Cache St V,
    foldR (refresh_one s) l c = Raise e ->
    exists name, name ∈ l /\ _call c s name = Raise e.
Proof.
  induction l as [|x l IH]; intros c H; simpl in H; [discriminate|].
  destruct (refresh_one s c x) as [c1|e0] eqn:H1; simpl in H.
  - unfold refresh_one in H1. apply bind_Ok in H1 as (v & Hv & [= <-]).
    destruct (IH _ H) as (name & Hin & Hn). rewrite _call_store_attr in Hn.
    exists name. split; [by right | done].
  - injection H as <-. exists x. split; [left|].
    unfold refresh_one in H1.
    destruct (_call c s x); simpl in H1; [discriminate | congruence].
Qed.

(** X15. [refresh()] without a name recomputes every registered attribute
    from the state of the owner at that moment: it returns exactly when
    every callback does (otherwise it raises what the failing callback
    raised); afterwards each registered name reads as the value its
    callback returned at the refresh, in any later state, and the
    attributes that are not registered are left as they were. *)
Theorem refresh_all_recomputes (c : Cache St V) (s : St) :
  (forall c',
     refresh c s RefreshAll = Ok c' ->
     _callbacks c' = _callbacks c /\
     (forall name, name ∈ od_keys (_callbacks c) ->
        exists v, _call c s name = Ok v /\
                  forall s', getattr c' s' name = Ok (v, c')) /\
     (forall name, name ∉ od_keys (_callbacks c) ->
        cache_dict c' !! name = cache_dict c !! name)) /\
  (forall e,
     refresh c s RefreshAll = Raise e ->
     exists name, name ∈ od_keys (_callbacks c) /\ _call c s name = Raise e).
Proof.
  split.
  - intros c' H. simpl in H.
    destruct (refresh_fold _ _ _ _ H) as (Hc & Hin & Hout).
    split; [done | split; [|done]].
    intros name Hname. destruct (Hin name Hname) as (v & Hv & Hd).
    exists v. split; [done|]. intros s'. by apply getattr_stored.
  - intros e H. by apply refresh_fold_raise.
Qed.


End CacheFacts.


Lemma refresh_all_on_double :
  exists c',
    refresh cache_double 3 RefreshAll = Ok c' /\
    getattr c' 10 "double" = Ok (Some 6, c') /\
    getattr c' 10 "fixed" = Ok (Some 7, c').
Proof.
  destruct (refresh cache_double 3 RefreshAll) as [c'|e] eqn:E;
    [|vm_compute in E; discriminate].
  destruct (refresh_all_recomputes cache_double 3) as [H _].
  destruct (H c' E) as (_ & Hin & _).
  exists c'. split; [reflexivity | split].
  - destruct (Hin "double") as (v & Hv & Hg);
      [apply (bool_decide_unpack _); vm_compute; exact I|].
    vm_compute in Hv. injection Hv as <-. apply Hg.
  - destruct (Hin "fixed") as (v & Hv & Hg);
      [apply (bool_decide_unpack _); vm_compute; exact I|].
    vm_compute in Hv. injection Hv as <-. apply Hg.
Defined.



(** ** Search of devices by value *)

Lemma find_map_Found {A B} (f : A -> find_res B) (l : list A) (ys : list B) :
  find_map f l = Found ys <-> Forall2 (fun x y => f x = Found y) l ys.
Proof.
  revert ys. induction l as [|x l IH]; intros ys; simpl.
  - split; [intros [= <-]; constructor | intros H; by inversion H].
  - split.
    + intros H. destruct (f x) as [y|e] eqn:Hx; simpl in H; [|discriminate].
      destruct (find_map f l) as [ys'|e] eqn:Hl; simpl in H; [|discriminate].
      injection H as <-. constructor; [done | by apply IH].
    + intros H. inversion H as [|? y ? ys' Hy Hys]; subst.
      rewrite Hy. simpl. apply IH in Hys. by rewrite Hys.
Qed.

Lemma find_map_Failed {A B} (f : A -> find_res B) (l : list A) (e : find_exn) :
  find_map f l = Failed e -> exists x, x ∈ l /\ f x = Failed e.
Proof.
  induction l as [|x l IH]; simpl; [discriminate|].
  destruct (f x) as [y|e0] eqn:Hx; simpl.
  - destruct (find_map f l) as [ys|e1]; simpl; [discriminate|].
    intros [= <-]. destruct (IH eq_refl) as (x' & Hin & Hx').
    exists x'. split; [by right | done].
  - intros [= <-]. exists x. split; [left | done].
Qed.

Lemma find_pos_Some {A} (p : A -> bool) (l : list A) (pos : nat) :
  find_pos p l = Some pos <->
  (exists y, l !! pos = Some y /\ p y = true) /\
  forall k y, k < pos -> l !! k = Some y -> p y = false.
Proof.
  revert pos. induction l as [|x l IH]; intros pos; simpl.
  - split; [discriminate | intros [(y & Hy & _) _]; discriminate].
  - destruct (p x) eqn:Hx.
    + split.
      * intros [= <-]. split; [eauto|]. intros k y Hk. lia.
      * intros [_ Hlt]. destruct pos as [|pos]; [done|].
        specialize (Hlt 0 x ltac:(lia) eq_refl). congruence.
    + destruct (find_pos p l) as [k|] eqn:Hl; simpl.
      * split.
        -- intros [= <-]. destruct (proj1 (IH k) eq_refl) as [Hy Hlt].
           split; [done|]. intros [|k'] y Hk Hy'; simpl in Hy'.
           ++ congruence.
           ++ apply (Hlt k'); [lia | done].
        -- intros [(y & Hy & Hpy) Hlt]. destruct pos as [|pos].
           ++ simpl in Hy. congruence.
           ++ f_equal. assert (Some k = Some pos) as [= ->]; [|done].
              apply IH. split; [eauto|]. intros k' y' Hk' Hy'.
              apply (Hlt (S k')); [lia | done].
      * split; [discriminate|]. intros [(y & Hy & Hpy) Hlt].
        destruct pos as [|pos]; simpl in Hy; [congruence|].
        exfalso. assert (None = Some pos) as [=]. apply IH.
        split; [eauto|]. intros k' y' Hk' Hy'. apply (Hlt (S k')); [lia | done].
Qed.

Lemma find_pos_None {A} (p : A -> bool) (l : list A) :
  find_pos p l = None <-> forall y, y ∈ l -> p y = false.
Proof.
  induction l as [|x l IH]; simpl.
  - split; [intros _ y H; inversion H | done].
  - destruct (p x) eqn:Hx.
    + split; [discriminate|]. intros H. rewrite (H x) in Hx; [done | left].
    + destruct (find_pos p l) as [k|] eqn:Hl; simpl.
      * split; [discriminate|]. intros H.
        assert (Some k = None) as [=]. apply IH. intros y Hy. apply H. by right.
      * split; [|done]. intros _ y Hy.
        apply elem_of_cons in Hy as [->|Hy]; [done|]. by apply IH.
Qed.

Lemma find_pos_singletons (x : pyval) (vs : list pyval) :
  find_pos (matches [x]) (map (fun y => [y]) vs) = find_pos (py_eq x) vs.
Proof.
  induction vs as [|y vs IH]; simpl; [done|].
  unfold matches at 1. simpl. rewrite andb_true_r.
  destruct (py_eq x y); [done | by rewrite IH].
Qed.

Lemma zip_star_one {A} (l : list A) : zip_star [l] = map (fun x => [x]) l.
Proof. reflexivity. Qed.

(** The search for one value [x] under one key. *)
Lemma search_one_single (m : Model) (key : string) (allow_missing : bool)
    (vs ids : list pyval) (q : Param) (x : pyval) :
  od_get "idx" (params (data m)) = Some q ->
  param_v q = ids ->
  length ids = length vs ->
  Forall (fun i => i <> PNone) ids ->
  (forall r,
     search_one m [key] allow_missing (map (fun y => [y]) vs) [x] = Found r <->
     found_for vs ids allow_missing x r) /\
  (forall e,
     search_one m [key] allow_missing (map (fun y => [y]) vs) [x] = Failed e <->
     no_match vs x /\ allow_missing = false /\
     e = FindNotFound [key] [x] (class_name m)).
Proof.
  intros Hq Hids Hlen Hnn. unfold search_one, found_for, no_match, first_match.
  rewrite find_pos_singletons, Hq. simpl. rewrite Hids.
  destruct (find_pos (py_eq x) vs) as [pos|] eqn:Hpos.
  - pose proof (proj1 (find_pos_Some _ _ _) Hpos) as [(y & Hy & Hxy) Hlt].
    assert (Hex : exists i, ids !! pos = Some i /\ i <> PNone).
    { destruct (lookup_lt_is_Some_2 ids pos) as (i & Hi).
      - rewrite Hlen. by eapply lookup_lt_Some.
      - exists i. split; [done|]. exact (Forall_lookup_1 _ _ _ _ Hnn Hi). }
    destruct Hex as (i & Hi & Hne). rewrite Hi. simpl.
    assert (Hr : (match i with
                  | PNone => if allow_missing then Found IdxFalse
                             else Failed (FindNotFound [key] [x] (class_name m))
                  | _ => Found (Idx i)
                  end) = Found (Idx i)) by (by destruct i).
    rewrite Hr. split.
    + intros r. split.
      * intros [= <-]. left. exists pos, i.
        split; [split; [eauto | exact Hlt] | done].
      * intros [(pos' & i' & [Hy' Hlt'] & Hi' & ->)|(Hno & _)].
        -- assert (Some pos = Some pos') as [= <-].
           { rewrite <- Hpos. by apply find_pos_Some. }
           congruence.
        -- rewrite (Hno y) in Hxy; [done | by eapply list_elem_of_lookup_2].
    + intros e. split; [discriminate|]. intros (Hno & _).
      rewrite (Hno y) in Hxy; [done | by eapply list_elem_of_lookup_2].
  - pose proof (proj1 (find_pos_None _ _) Hpos) as Hno. simpl. split.
    + intros r. split.
      * destruct allow_missing; [|discriminate]. intros [= <-]. by right.
      * intros [(pos' & i' & [(y & Hy & Hxy) _] & _)|(_ & -> & ->)]; [|done].
        rewrite (Hno y) in Hxy; [done | by eapply list_elem_of_lookup_2].
    + intros e. split.
      * destruct allow_missing; [discriminate|]. by intros [= <-].
      * by intros (_ & -> & ->).
Qed.

Lemma find_idx_flat_unfold (m : Model) (key : string) (p : Param)
    (x0 : pyval) (l0 : list pyval) (allow_missing : bool) :
  od_get key (params (data m)) = Some p ->
  is_iterable x0 = false ->
  find_idx m (KeyStr key) (ValFlat (x0 :: l0)) allow_missing
  = find_map (search_one m [key] allow_missing
                (map (fun y => [y]) (param_v p)))
             (map (fun x => [x]) (x0 :: l0)).
Proof.
  intros Hp Hx0. unfold find_idx, check_values, attr_v. rewrite Hx0.
  cbn [negb find_bind fst snd mapR bind]. rewrite Hp. reflexivity.
Qed.

Lemma find_map_singletons {B} (f : list pyval -> find_res B) (l : list pyval) :
  find_map f (map (fun x => [x]) l) = find_map (fun x => f [x]) l.
Proof. induction l as [|x l IH]; simpl; [done | by rewrite IH]. Qed.

(** X17. [find_idx] with one key and a flat list of values that are not
    strings: it returns one entry per searched value, in the order of the
    list; the entry is the idx of the first device, in the order of
    adding, whose value is equal to the searched one, and [False] for a
    value that no device holds when [allow_missing] is set. Without
    [allow_missing] a value that no device holds makes the call raise the
    error that names the key and the value. *)
Theorem find_idx_first_match
    (m : Model) (key : string) (p q : Param) (x0 : pyval) (l0 : list pyval)
    (allow_missing : bool) :
  od_get key (params (data m)) = Some p ->
  od_get "idx" (params (data m)) = Some q ->
  length (param_v q) = length (param_v p) ->
  Forall (fun i => i <> PNone) (param_v q) ->
  is_iterable x0 = false ->
  (forall idxes,
     find_idx m (KeyStr key) (ValFlat (x0 :: l0)) allow_missing = Found idxes <->
     Forall2 (found_for (param_v p) (param_v q) allow_missing) (x0 :: l0) idxes) /\
  (forall e,
     find_idx m (KeyStr key) (ValFlat (x0 :: l0)) allow_missing = Failed e ->
     allow_missing = false /\
     exists x, x ∈ x0 :: l0 /\ no_match (param_v p) x /\
               e = FindNotFound [key] [x] (class_name m)).
Proof.
  intros Hp Hq Hlen Hnn Hx0.
  rewrite (find_idx_flat_unfold m key p x0 l0 allow_missing Hp Hx0).
  rewrite find_map_singletons. split.
  - intros idxes. rewrite find_map_Found. split; intros HF.
    + eapply Forall2_impl; [exact HF|]. intros x r Hr. simpl in Hr.
      by apply (search_one_single m key allow_missing _ _ q x Hq eq_refl Hlen Hnn).
    + eapply Forall2_impl; [exact HF|]. intros x r Hr. simpl.
      by apply (search_one_single m key allow_missing _ _ q x Hq eq_refl Hlen Hnn).
  - intros e He. apply find_map_Failed in He as (x & Hin & Hx).
    apply (search_one_single m key allow_missing _ _ q x Hq eq_refl Hlen Hnn)
      in Hx as (Hno & Ham & ->).
    split; [done|]. exists x. done.
Qed.

Lemma find_idx_first_match_on_p0 :
  find_idx m_alter (KeyStr "p0") (ValFlat [PIdx (IdxInt 1); PFloat 7]) false
  = Found [Idx (PIdx (IdxInt 2)); Idx (PIdx (IdxInt 1))].
Proof.
  apply (proj1 (find_idx_first_match m_alter "p0" (NumP p0_stale)
                  (DataP [PIdx (IdxInt 1); PIdx (IdxInt 2)])
                  (PIdx (IdxInt 1)) [PFloat 7] false
                  eq_refl eq_refl eq_refl
                  ltac:(repeat constructor; discriminate) eq_refl)).
  constructor; [|constructor; [|constructor]].
  - left. exists 1, (PIdx (IdxInt 2)). split; [|done]. split.
    + exists (PFloat 1). split; reflexivity.
    + intros [|[|k]] y Hk Hy; [|lia ..]. simpl in Hy. by injection Hy as <-.
  - left. exists 0, (PIdx (IdxInt 1)). split; [|done]. split.
    + exists (PFloat 7). split; reflexivity.
    + intros k y Hk. lia.
Defined.

(** X18. [find_idx] and [get] round trip: in a container whose [uid] maps
    the idx of each device to its position, every idx that [find_idx]
    returns for a searched value resolves, through [idx2uid], to the
    position of the first device that holds the value, and [get] on it
    returns a value equal to the searched one. *)
Theorem find_idx_then_get
    (m : Model) (key : string) (p q : Param) (x0 : pyval) (l0 : list pyval)
    (allow_missing : bool) (idxes : list found_idx) :
  od_get key (params (data m)) = Some p ->
  od_get "idx" (params (data m)) = Some q ->
  length (param_v q) = length (param_v p) ->
  Forall (fun i => exists j, i = PIdx j) (param_v q) ->
  (forall j u, uid (data m) !! j = Some u <-> param_v q !! u = Some (PIdx j)) ->
  is_iterable x0 = false ->
  find_idx m (KeyStr key) (ValFlat (x0 :: l0)) allow_missing = Found idxes ->
  length idxes = length (x0 :: l0) /\
  forall k x i,
    (x0 :: l0) !! k = Some x -> idxes !! k = Some (Idx i) ->
    exists j pos y,
      i = PIdx j /\
      idx2uid m (ArgOne j) = Ok (UOne pos) /\
      first_match (param_v p) x pos /\
      get m key (ArgOne j) = Ok (GOne y) /\
      py_eq x y = true.
Proof.
  intros Hp Hq Hlen Hidx Huid Hx0 Hrun.
  rewrite (find_idx_flat_unfold m key p x0 l0 allow_missing Hp Hx0) in Hrun.
  rewrite find_map_singletons in Hrun. apply find_map_Found in Hrun.
  split; [symmetry; by eapply Forall2_length|].
  intros k x i Hx Hi.
  pose proof (Forall2_lookup_lr _ _ _ _ _ _ Hrun Hx Hi) as Hr. simpl in Hr.
  assert (Hnn : Forall (fun i => i <> PNone) (param_v q)).
  { eapply Forall_impl; [exact Hidx|]. by intros ? (j & ->). }
  apply (search_one_single m key allow_missing _ _ q x Hq eq_refl Hlen Hnn) in Hr.
  destruct Hr as [(pos & i' & Hfirst & Hpos & [= <-])|(_ & _ & [=])].
  destruct (Forall_lookup_1 _ _ _ _ Hidx Hpos) as (j & ->).
  pose proof Hfirst as [(y & Hy & Hxy) _].
  exists j, pos, y. split; [done|].
  assert (Hu : uid (data m) !! j = Some pos) by (by apply Huid).
  split; [|split; [done | split; [|done]]].
  - unfold idx2uid. by rewrite Hu.
  - unfold get, idx2uid. rewrite Hu. simpl. rewrite Hp. simpl. by rewrite Hy.
Qed.

Lemma find_idx_then_get_on_p0 :
  exists i y,
    find_idx m_alter (KeyStr "p0") (ValFlat [PFloat 7]) false
    = Found [Idx (PIdx i)] /\
    get m_alter "p0" (ArgOne i) = Ok (GOne y) /\
    py_eq (PFloat 7) y = true.
Proof.
  destruct (find_idx m_alter (KeyStr "p0") (ValFlat [PFloat 7]) false)
    as [idxes|e] eqn:E; [|vm_compute in E; discriminate].
  assert (Hi : idxes = [Idx (PIdx (IdxInt 1))]) by (vm_compute in E; congruence).
  subst idxes.
  destruct (find_idx_then_get m_alter "p0" (NumP p0_stale)
              (DataP [PIdx (IdxInt 1); PIdx (IdxInt 2)]) (PFloat 7) [] false
              [Idx (PIdx (IdxInt 1))]) as (_ & H);
    [reflexivity | reflexivity | reflexivity | repeat constructor; eauto | |
     reflexivity | exact E |].
  { intros j u. simpl. split.
    - intros Hu.
      destruct (decide (j = IdxInt 1)) as [->|H1].
      + vm_compute in Hu. by injection Hu as <-.
      + destruct (decide (j = IdxInt 2)) as [->|H2].
        * vm_compute in Hu. by injection Hu as <-.
        * unfold m_alter in Hu. simpl in Hu.
          rewrite lookup_insert_ne in Hu by done.
          by rewrite lookup_singleton_ne in Hu.
    - intros Hu. destruct u as [|[|u]]; simpl in Hu;
        [injection Hu as <-; reflexivity | injection Hu as <-; reflexivity
        | discriminate]. }
  destruct (H 0 (PFloat 7) (PIdx (IdxInt 1)) eq_refl eq_refl)
    as (j & pos & y & [= <-] & _ & _ & Hg & Hxy).
  exists (IdxInt 1), y. split; [reflexivity | split; [exact Hg | exact Hxy]].
Defined.

Lemma py_eq_char (c : ascii) (y : pyval) :
  py_eq (PIdx (IdxStr (String c EmptyString))) y = true ->
  y = PIdx (IdxStr (String c EmptyString)).
Proof.
  destruct y as [|[z|s]|q]; try discriminate.
  unfold py_eq. intros H. apply String.eqb_eq in H. by subst.
Qed.

Lemma chars_length (s : string) : length (chars s) = String.length s.
Proof. induction s as [|c s IH]; simpl; [done | by rewrite IH]. Qed.

(** X19. With one key, a flat list that starts with a string is not
    searched for that string: it is left unwrapped, so the search runs
    over the characters of the string, one at a time. In a model none of
    whose devices holds a one-character value under the key, the search
    for a name therefore raises the error about its first character, even
    when a device has that very name; with [allow_missing] it returns
    [False] once per character. *)
Theorem find_idx_flat_string_by_character
    (m : Model) (key : string) (p : Param) (c : ascii) (s : string) :
  od_get key (params (data m)) = Some p ->
  (forall y c', y ∈ param_v p -> y <> PIdx (IdxStr (String c' EmptyString))) ->
  find_idx m (KeyStr key) (ValFlat [PIdx (IdxStr (String c s))]) false
  = Failed (FindNotFound [key] [PIdx (IdxStr (String c EmptyString))]
                         (class_name m)) /\
  find_idx m (KeyStr key) (ValFlat [PIdx (IdxStr (String c s))]) true
  = Found (repeat IdxFalse (String.length (String c s))).
Proof.
  intros Hp Hno.
  assert (Hone : forall am c',
            search_one m [key] am (map (fun y => [y]) (param_v p))
                       [PIdx (IdxStr (String c' EmptyString))]
            = if am then Found IdxFalse
              else Failed (FindNotFound [key]
                             [PIdx (IdxStr (String c' EmptyString))]
                             (class_name m))).
  { intros am c'. unfold search_one. rewrite find_pos_singletons.
    assert (Hn : find_pos (py_eq (PIdx (IdxStr (String c' EmptyString))))
                          (param_v p) = None).
    { apply find_pos_None. intros y Hy.
      destruct (py_eq _ y) eqn:E; [|done].
      apply py_eq_char in E. by apply Hno in E. }
    by rewrite Hn. }
  assert (Hun : forall am,
            find_idx m (KeyStr key) (ValFlat [PIdx (IdxStr (String c s))]) am
            = find_map (fun x => search_one m [key] am
                                   (map (fun y => [y]) (param_v p)) [x])
                       (chars (String c s))).
  { intros am. unfold find_idx, check_values, attr_v.
    cbn [is_iterable negb find_bind fst snd mapR bind rows_of py_list].
    rewrite Hp. cbn [of_option bind find_lift find_bind].
    rewrite zip_star_one, zip_star_one. apply find_map_singletons. }
  split.
  - rewrite Hun. simpl. by rewrite Hone.
  - rewrite Hun. generalize (String c s). intros s0.
    induction s0 as [|c0 s0 IH]; simpl; [done|].
    rewrite Hone. simpl. by rewrite IH.
Qed.

Lemma find_idx_flat_string_on_buses :
  find_idx m_named (KeyStr "name") (ValFlat [PIdx (IdxStr "Bus1")]) false
  = Failed (FindNotFound ["name"] [PIdx (IdxStr "B")] "Bus") /\
  find_idx m_named (KeyStr "name") (ValNested [[PIdx (IdxStr "Bus1")]]) false
  = Found [Idx (PIdx (IdxInt 1))].
Proof.
  split; [|reflexivity].
  apply (proj1 (find_idx_flat_string_by_character m_named "name"
                  (DataP [PIdx (IdxStr "Bus1"); PIdx (IdxStr "Bus2")])
                  "B"%char "us1" eq_refl
                  ltac:(intros y c' Hy; simpl in Hy;
                        repeat (apply elem_of_cons in Hy as [->|Hy];
                                [discriminate|]);
                        inversion Hy))).
Defined.


(** ** The inputs of the calls and the iterative initialisation *)

Lemma od_get_put_all {V} (kvs : list (string * V)) (k : string) :
  forall d,
    NoDup (map fst kvs) ->
    od_get k (put_all kvs d)
    = match od_get k kvs with
      | Some v => Some v
      | None => od_get k d
      end.
Proof.
  unfold put_all. induction kvs as [|[k0 v0] kvs IH]; intros d Hnd; simpl;
    [done|].
  apply NoDup_cons in Hnd as [Hn Hnd]. rewrite (IH _ Hnd).
  destruct (String.eqb k k0) eqn:E.
  - apply String.eqb_eq in E. subst k0.
    destruct (od_get k kvs) eqn:Hk.
    + exfalso. apply Hn. apply (od_get_is_Some k kvs). eauto.
    + apply od_get_set_eq.
  - apply String.eqb_neq in E.
    destruct (od_get k kvs); [done|]. apply od_get_set_ne. congruence.
Qed.

Lemma od_get_map {V W} (f : V -> W) (d : odict V) (k : string) :
  od_get k (map (fun kv => (fst kv, f (snd kv))) d) = option_map f (od_get k d).
Proof.
  induction d as [|[k0 v0] d IH]; simpl; [done|].
  by destruct (String.eqb k k0).
Qed.

Lemma od_keys_map {V W} (f : V -> W) (d : odict V) :
  map fst (map (fun kv => (fst kv, f (snd kv))) d) = od_keys d.
Proof. unfold od_keys. by rewrite map_map. Qed.

(** X20. Names that clash in the inputs are resolved by the order of
    [refresh_inputs], the later source winning: [dae_t] is always the
    simulation time; any other name of a config option carries the value
    of that option, whatever parameter, service, flag or variable has the
    same name; and the name of a variable that is not a config option
    carries the values of the variable. *)
Theorem get_inputs_precedence (m : Model) :
  od_get "dae_t" (get_inputs m) = Some (Scalar (dae_t m)) /\
  (NoDup (od_keys (config m)) ->
   forall k v, k <> "dae_t" -> od_get k (config m) = Some v ->
     od_get k (get_inputs m) = Some (Scalar v)) /\
  (NoDup (od_keys (config m)) -> NoDup (all_vars_names m) ->
   forall name var,
     name <> "dae_t" -> name ∉ od_keys (config m) ->
     od_get name (all_vars m) = Some var ->
     od_get name (get_inputs m) = Some (Array (var_v var))).
Proof.
  unfold get_inputs. split; [apply od_get_set_eq|]. split.
  - intros Hnd k v Hk Hv.
    rewrite od_get_set_ne by congruence.
    rewrite od_get_put_all by (rewrite map_map; exact Hnd).
    by rewrite (od_get_map Scalar), Hv.
  - intros Hnd Hndv name var Hk Hc Hv.
    rewrite od_get_set_ne by congruence.
    rewrite od_get_put_all by (rewrite map_map; exact Hnd).
    rewrite (od_get_map Scalar).
    destruct (od_get name (config m)) eqn:E.
    { exfalso. apply Hc, od_get_is_Some. eauto. }
    simpl. rewrite od_get_put_all by (rewrite map_map; exact Hndv).
    by rewrite (od_get_map (fun x => Array (var_v x))), Hv.
Qed.

Lemma get_inputs_precedence_on_clash :
  od_get "z" (get_inputs m_iter) = Some (Scalar 9) /\
  od_get "y" (get_inputs m_iter) = Some (Array [5; 5]%Q).
Proof.
  destruct (get_inputs_precedence m_iter) as (_ & Hc & Hv). split.
  - apply Hc; [apply (bool_decide_unpack _); vm_compute; exact I
              | discriminate | reflexivity].
  - apply (Hv ltac:(apply (bool_decide_unpack _); vm_compute; exact I)
              ltac:(apply (bool_decide_unpack _); vm_compute; exact I)
              "y" (mkVar Algeb None None None 0 [5; 5]%Q []));
      [discriminate | apply (bool_decide_unpack _); vm_compute; exact I
      | reflexivity].
Defined.

Lemma slices_concat (k : nat) (xs : list (list Q)) :
  Forall (fun x => length x = k) xs ->
  map (fun i => slice (concat xs) i k) (seq 0 (length xs)) = xs.
Proof.
  intros HF. induction HF as [|x xs Hx HF IH]; simpl; [done|].
  f_equal.
  - unfold slice. rewrite Nat.mul_0_l, drop_0. by rewrite take_app_length'.
  - rewrite <- seq_shift, map_map. rewrite <- IH at 2.
    apply map_ext. intros i. unfold slice. f_equal.
    rewrite <- Hx at 1. replace (S i * length x) with (length x + i * length x)
      by (simpl; lia).
    rewrite drop_app_add'; [|done]. by rewrite Hx.
Qed.

Section IterFacts.

Variable newton_krylov :
  (list Q -> result (list Q)) -> list Q -> result (list Q).

(** X21. The wrapper of the initialisation equations undoes the flattening
    of [init_iter]: called on the concatenation of one array of [n] values
    per iteratively initialised variable, [_init_wrap] hands exactly these
    arrays, in that order, to the compiled equations [init_std]. *)
Theorem init_wrap_round_trip
    (m : Model) (xs : list (list Q)) (params : list value) :
  length xs = length (iter_vars m) ->
  Forall (fun x => length x = n (data m)) xs ->
  _init_wrap m (concat xs) params = init_std (calls m) xs params.
Proof.
  intros Hlen HF. unfold _init_wrap. rewrite <- Hlen.
  by rewrite (slices_concat _ _ HF).
Qed.




End IterFacts.

Lemma init_wrap_round_trip_on_two_variables :
  _init_wrap m_iter (concat [[1; 2]; [3; 4]]%Q) []
  = init_std (calls m_iter) [[1; 2]; [3; 4]]%Q [].
Proof.
  apply (init_wrap_round_trip m_iter [[1; 2]; [3; 4]]%Q []).
  - reflexivity.
  - repeat constructor.
Defined.


(** ** Services with a numeric function of their own *)

(** X23. The second loop of [s_update]: in a model with devices that is in
    use and for which no service expression has been compiled, a service
    with a numeric function of its own ends up with exactly what that
    function returns on the inputs as they stand when the loop reaches
    the service; unlike the value of a compiled expression, a scalar is
    not broadcast to the devices. *)
Theorem s_update_numeric_as_returned
    (m m' : Model) (pre pre' post : odict Service)
    (name : string) (instance : Service) (func : pyfun) (x : value) :
  n (data m) <> 0 ->
  in_use m = true ->
  s_lambdify (calls m) = None \/ s_lambdify (calls m) = Some [] ->
  services m = pre ++ (name, instance) :: post ->
  od_loop (fun cur => s_update_numeric
                        (with_services m (cur ++ (name, instance) :: post)))
          [] pre = Ok pre' ->
  s_v_numeric instance = Some func ->
  func (get_inputs (with_services m (pre' ++ (name, instance) :: post))) = Ok x ->
  s_update m = Ok m' ->
  services m' !! length pre = Some (name, set_s_v instance x) /\
  s_v (set_s_v instance x) = x.
Proof.
  intros Hn Hu Hsl Hss Hpre Hnum Hx Hrun. split; [|done].
  unfold s_update in Hrun. apply Nat.eqb_neq in Hn. rewrite Hn, Hu in Hrun.
  simpl in Hrun.
  assert (H1 : exists ss2,
            od_loop (fun cur => s_update_numeric (with_services m cur)) []
                    (services m) = Ok ss2 /\
            services m' = ss2).
  { destruct Hsl as [Hsl|Hsl]; rewrite Hsl in Hrun; simpl in Hrun;
      apply bind_Ok in Hrun as (ss2 & H2 & [= <-]); eauto. }
  destruct H1 as (ss2 & H2 & ->).
  rewrite Hss, od_loop_app, Hpre in H2. simpl in H2.
  assert (Hlen : length pre' = length pre).
  { destruct (od_loop_shape _ _ _ _ Hpre) as (todo' & -> & HF).
    simpl. symmetry. by eapply Forall2_length. }
  destruct (od_loop_head _ _ _ _ _ _ H2) as (inst1 & Hi1 & Hpos).
  unfold s_update_numeric in Hi1. rewrite Hnum in Hi1. rewrite Hx in Hi1.
  simpl in Hi1. injection Hi1 as <-. by rewrite <- Hlen.
Qed.

Lemma s_update_numeric_on_scalar :
  exists m',
    s_update m_numeric = Ok m' /\
    exists instance',
      services m' !! 0 = Some ("k", instance') /\ s_v instance' = Scalar 3.
Proof.
  destruct (s_update m_numeric) as [m'|e] eqn:E;
    [|vm_compute in E; discriminate].
  destruct (s_update_numeric_as_returned m_numeric m' [] [] [] "k"
              (mkService None (Array [0; 0]%Q) (Some (fun _ => Ok (Scalar 3))))
              (fun _ => Ok (Scalar 3)) (Scalar 3)) as [Hpos Hv];
    [discriminate | reflexivity | right; reflexivity | reflexivity
    | reflexivity | reflexivity | reflexivity | exact E |].
  exists m'. split; [reflexivity|]. eexists. split; [exact Hpos | exact Hv].
Defined.
